(** * DCSModelRepair: the session and state-management layer

    A shallow embedding of [src/llm_api.py] (history store, audit log,
    message model, conversation session) and of the response extractor
    and grammar turn of [src/main.py].

    Python values are modelled as follows.
    - [str] is a list of Unicode code points, each a [Z].
    - [bytes] is a list of octets, each a [Z] in [0, 256).
    - the values produced by [json.loads] form the inductive type [json];
      a [dict] is an insertion-ordered association list.
    - effectful code lives in the monad [M]: a function from the state of
      the outside world ([World]) to an outcome (a value or a raised
      exception) and the new state.  A raised exception keeps the state
      changes made before it, as in Python. *)

From Stdlib Require Import String Ascii ZArith List Bool Lia.
Import ListNotations.
Local Open Scope Z_scope.

Set Implicit Arguments.
Set Warnings "-register-all,-notation-for-abbreviation".

Declare Scope py_scope.
Delimit Scope py_scope with py.
Reserved Notation "x <- m ;; k"
  (at level 61, m at next level, right associativity).
Reserved Notation "m ;;; k" (at level 61, right associativity).

(** ** Text and bytes *)

Definition pystr := list Z.
Definition bytes := list Z.

Definition str_of (s : string) : pystr :=
  map (fun a => Z.of_nat (nat_of_ascii a)) (list_ascii_of_string s).

Fixpoint str_eqb (a b : pystr) : bool :=
  match a, b with
  | [], [] => true
  | x :: a', y :: b' => (x =? y) && str_eqb a' b'
  | _, _ => false
  end.

(** Code points of the ASCII characters the code tests for. *)
Notation c_bs := 8 (only parsing).
Notation c_tab := 9 (only parsing).
Notation c_nl := 10 (only parsing).
Notation c_ff := 12 (only parsing).
Notation c_cr := 13 (only parsing).
Notation c_space := 32 (only parsing).
Notation c_quote := 34 (only parsing).
Notation c_plus := 43 (only parsing).
Notation c_comma := 44 (only parsing).
Notation c_minus := 45 (only parsing).
Notation c_dot := 46 (only parsing).
Notation c_slash := 47 (only parsing).
Notation c_0 := 48 (only parsing).
Notation c_colon := 58 (only parsing).
Notation c_lbracket := 91 (only parsing).
Notation c_backslash := 92 (only parsing).
Notation c_rbracket := 93 (only parsing).
Notation c_underscore := 95 (only parsing).
Notation c_backtick := 96 (only parsing).
Notation c_lbrace := 123 (only parsing).
Notation c_rbrace := 125 (only parsing).

(** A code point that is a Unicode scalar value: in range and not a
    surrogate.  A [str] made of such code points is what the spec calls
    text. *)
Definition is_surrogate (c : Z) : bool := (0xD800 <=? c) && (c <=? 0xDFFF).

Definition scalar (c : Z) : Prop :=
  0 <= c <= 0x10FFFF /\ is_surrogate c = false.

Definition text (s : pystr) : Prop := Forall scalar s.

(** ** Exceptions and outcomes

    The exceptions that the modelled code and library functions raise.
    All are subclasses of [Exception]; the three codec and JSON errors are
    subclasses of [ValueError] in Python, but the code never catches
    [ValueError], only [json.JSONDecodeError], [IOError] and [Exception],
    so the classes are kept apart. *)

Inductive exn :=
| ValueError (msg : pystr)
| JSONDecodeError
| UnicodeDecodeError
| UnicodeEncodeError
| IOError
| TypeError
| AttributeError
| KeyError (key : pystr)
| ApiError (code : Z).

Inductive result (A : Type) :=
| Ok (a : A)
| Raise (e : exn).
Arguments Ok {A} a.
Arguments Raise {A} e.

(** Outcome of a scanner of [json.loads]: a value and the rest of the
    input, a decoding error, or exhausted fuel. *)
Inductive scan (A : Type) :=
| Scanned (a : A) (rest : pystr)
| ScanError
| ScanFuel.
Arguments Scanned {A} a rest.
Arguments ScanError {A}.
Arguments ScanFuel {A}.

(** How a run of the script stops short: an exception that nothing
    catches, [input] at the end of the standard input, or a loop of the
    model that has used up its fuel. *)
Inductive halt :=
| Uncaught (e : exn)
| EOFError
| OutOfFuel.

Inductive ended (A : Type) :=
| Done (a : A)
| Halt (h : halt).
Arguments Done {A} a.
Arguments Halt {A} h.

Definition is_IOError (e : exn) : bool :=
  match e with IOError => true | _ => false end.

Definition is_JSONDecodeError (e : exn) : bool :=
  match e with JSONDecodeError => true | _ => false end.

(** ** Parts of the Python runtime that are taken as given

    [json] needs Python's [float] with its [repr] and its literal reader;
    [json.loads] on bytes may select a UTF-16 or UTF-32 codec; the regex
    class [\w] needs [str.isalnum] outside ASCII. *)

Inductive wide_codec := UTF16 | UTF16BE | UTF16LE | UTF32 | UTF32BE | UTF32LE.

Class PyRuntime := {
  pyfloat : Type;
  float_of_literal : pystr -> pyfloat;
  float_repr : pyfloat -> pystr;
  decode_wide : wide_codec -> bytes -> result pystr;
  unicode_isalnum : Z -> bool
}.

Section Model.
Context {RT : PyRuntime}.

(** ** JSON values *)

Inductive json :=
| JNull
| JBool (b : bool)
| JInt (n : Z)
| JFloat (f : pyfloat)
| JStr (s : pystr)
| JArr (items : list json)
| JObj (fields : list (pystr * json)).

(** [dict] operations on the association list: [k in d], [d[k]] and
    [d[k] = v] (an existing key keeps its position). *)
Fixpoint dict_has (k : pystr) (d : list (pystr * json)) : bool :=
  match d with
  | [] => false
  | (k', _) :: d' => str_eqb k k' || dict_has k d'
  end.

Fixpoint dict_get (k : pystr) (d : list (pystr * json)) : option json :=
  match d with
  | [] => None
  | (k', v) :: d' => if str_eqb k k' then Some v else dict_get k d'
  end.

Fixpoint dict_set (k : pystr) (v : json) (d : list (pystr * json))
  : list (pystr * json) :=
  match d with
  | [] => [(k, v)]
  | (k', v') :: d' =>
      if str_eqb k k' then (k', v) :: d' else (k', v') :: dict_set k v d'
  end.

(** ** The outside world *)

Inductive notice :=
| WarnCorruptHistory
| ErrSaveHistory
| ErrLogMessage
| ErrLlmCall (e : exn)
| ChatFailed (e : exn)
| HistoryInitialized (n : nat).

Inductive event :=
| EvPrint (n : notice)
| EvRecordWrite (content : bytes)
| EvLogAppend (entry : bytes)
| EvLlmCall (model : pystr) (messages : json).

Record World := mkWorld {
  record_file : option bytes;   (* RECORD_PATH: None when the file is absent *)
  log_file : bytes;             (* LOG_PATH *)
  record_writable : bool;       (* open(RECORD_PATH, "wb") succeeds *)
  log_writable : bool;          (* open(LOG_PATH, "a") succeeds *)
  trace : list event            (* effects so far, oldest first *)
}.

Definition M (A : Type) := World -> result A * World.

Definition ret {A} (a : A) : M A := fun w => (Ok a, w).

Definition raise {A} (e : exn) : M A := fun w => (Raise e, w).

Definition bind {A B} (m : M A) (f : A -> M B) : M B :=
  fun w =>
    match m w with
    | (Ok a, w') => f a w'
    | (Raise e, w') => (Raise e, w')
    end.

Definition lift {A} (r : result A) : M A := fun w => (r, w).

(** [try: body except E: handler], with [catches] deciding [isinstance(e, E)]. *)
Definition try_except {A} (body : M A) (catches : exn -> bool)
    (handler : exn -> M A) : M A :=
  fun w =>
    match body w with
    | (Ok a, w') => (Ok a, w')
    | (Raise e, w') => if catches e then handler e w' else (Raise e, w')
    end.

Definition emit (e : event) : M unit :=
  fun w => (Ok tt, mkWorld (record_file w) (log_file w)
                           (record_writable w) (log_writable w)
                           (trace w ++ [e])).

Definition print (n : notice) : M unit := emit (EvPrint n).

Local Notation "x <- m ;; k" := (bind m (fun x => k)) : py_scope.
Local Notation "m ;;; k" := (bind m (fun _ => k)) : py_scope.
Local Open Scope py_scope.

(** ** UTF-8

    [str.encode('utf-8')] is strict: a surrogate code point raises
    [UnicodeEncodeError].  [bytes.decode('utf-8', 'surrogatepass')], which
    [json.loads] uses, rejects ill-formed input with [UnicodeDecodeError]
    but lets a three-byte encoded surrogate through. *)

Definition utf8_encode_char (c : Z) : option bytes :=
  if c <? 0 then None
  else if c <? 0x80 then Some [c]
  else if c <? 0x800 then Some [0xC0 + c / 64; 0x80 + c mod 64]
  else if c <? 0x10000 then
    if is_surrogate c then None
    else Some [0xE0 + c / 4096; 0x80 + (c / 64) mod 64; 0x80 + c mod 64]
  else if c <? 0x110000 then
    Some [0xF0 + c / 262144; 0x80 + (c / 4096) mod 64;
          0x80 + (c / 64) mod 64; 0x80 + c mod 64]
  else None.

Fixpoint utf8_encode (s : pystr) : result bytes :=
  match s with
  | [] => Ok []
  | c :: s' =>
      match utf8_encode_char c, utf8_encode s' with
      | Some bs, Ok rest => Ok (bs ++ rest)
      | None, _ => Raise UnicodeEncodeError
      | _, Raise e => Raise e
      end
  end.

Definition is_cont (b : Z) : bool := (0x80 <=? b) && (b <? 0xC0).

Definition cons_ok (c : Z) (r : result pystr) : result pystr :=
  match r with Ok s => Ok (c :: s) | Raise e => Raise e end.

Fixpoint utf8_decode (bs : bytes) : result pystr :=
  match bs with
  | [] => Ok []
  | b0 :: t =>
      if (0 <=? b0) && (b0 <? 0x80) then cons_ok b0 (utf8_decode t)
      else if (0xC2 <=? b0) && (b0 <? 0xE0) then
        match t with
        | b1 :: t1 =>
            if is_cont b1
            then cons_ok ((b0 - 0xC0) * 64 + (b1 - 0x80)) (utf8_decode t1)
            else Raise UnicodeDecodeError
        | _ => Raise UnicodeDecodeError
        end
      else if (0xE0 <=? b0) && (b0 <? 0xF0) then
        match t with
        | b1 :: b2 :: t2 =>
            let c := (b0 - 0xE0) * 4096 + (b1 - 0x80) * 64 + (b2 - 0x80) in
            if is_cont b1 && is_cont b2 && (0x800 <=? c)
            then cons_ok c (utf8_decode t2)
            else Raise UnicodeDecodeError
        | _ => Raise UnicodeDecodeError
        end
      else if (0xF0 <=? b0) && (b0 <? 0xF5) then
        match t with
        | b1 :: b2 :: b3 :: t3 =>
            let c := (b0 - 0xF0) * 262144 + (b1 - 0x80) * 4096
                     + (b2 - 0x80) * 64 + (b3 - 0x80) in
            if is_cont b1 && is_cont b2 && is_cont b3
               && (0x10000 <=? c) && (c <? 0x110000)
            then cons_ok c (utf8_decode t3)
            else Raise UnicodeDecodeError
        | _ => Raise UnicodeDecodeError
        end
      else Raise UnicodeDecodeError
  end.

(** [json.detect_encoding] *)

Inductive codec := UTF8 | UTF8SIG | Wide (w : wide_codec).

Fixpoint starts_with (p s : list Z) : bool :=
  match p, s with
  | [], _ => true
  | x :: p', y :: s' => (x =? y) && starts_with p' s'
  | _ :: _, [] => false
  end.

Definition byte_at (n : nat) (b : bytes) : Z := nth n b 0.

Definition detect_encoding (b : bytes) : codec :=
  if starts_with [0x00; 0x00; 0xFE; 0xFF] b || starts_with [0xFF; 0xFE; 0x00; 0x00] b
  then Wide UTF32
  else if starts_with [0xFE; 0xFF] b || starts_with [0xFF; 0xFE] b
  then Wide UTF16
  else if starts_with [0xEF; 0xBB; 0xBF] b
  then UTF8SIG
  else if (4 <=? length b)%nat then
    if byte_at 0 b =? 0 then
      if byte_at 1 b =? 0 then Wide UTF32BE else Wide UTF16BE
    else if byte_at 1 b =? 0 then
      if (byte_at 2 b =? 0) && (byte_at 3 b =? 0) then Wide UTF32LE
      else Wide UTF16LE
    else UTF8
  else if (length b =? 2)%nat then
    if byte_at 0 b =? 0 then Wide UTF16BE
    else if byte_at 1 b =? 0 then Wide UTF16LE
    else UTF8
  else UTF8.

Definition bytes_decode (c : codec) (b : bytes) : result pystr :=
  match c with
  | UTF8 => utf8_decode b
  | UTF8SIG =>
      if starts_with [0xEF; 0xBB; 0xBF] b then utf8_decode (skipn 3 b)
      else utf8_decode b
  | Wide w => decode_wide w b
  end.

(** ** [json.dumps(v, indent=n, ensure_ascii=False)]

    With an indent the pure-Python encoder runs: items are separated by a
    comma and a newline, keys and values by a colon and a space, and only
    the quote, the backslash and the control characters below U+0020 are
    escaped.

    Two limits of the interpreter are left out: [str] of an integer of more
    than 4300 digits raises [ValueError], and a value nested deeper than
    the recursion limit raises [RecursionError].  The model dumps every
    value, so it agrees with the interpreter on values within these
    limits; a History of Messages, which holds strings only and is two
    levels deep, always is. *)

Definition hex_digit (d : Z) : Z := if d <? 10 then c_0 + d else 87 + d.

Definition escape_char (c : Z) : pystr :=
  if c =? c_quote then [c_backslash; c_quote]
  else if c =? c_backslash then [c_backslash; c_backslash]
  else if c =? c_nl then [c_backslash; 110]
  else if c =? c_cr then [c_backslash; 114]
  else if c =? c_tab then [c_backslash; 116]
  else if c =? c_bs then [c_backslash; 98]
  else if c =? c_ff then [c_backslash; 102]
  else if (0 <=? c) && (c <? 32)
  then [c_backslash; 117; c_0; c_0; hex_digit (c / 16); hex_digit (c mod 16)]
  else [c].

Fixpoint escape_str (s : pystr) : pystr :=
  match s with
  | [] => []
  | c :: s' => escape_char c ++ escape_str s'
  end.

Definition encode_basestring (s : pystr) : pystr :=
  c_quote :: escape_str s ++ [c_quote].

Fixpoint uint_digits (u : Decimal.uint) : pystr :=
  match u with
  | Decimal.Nil => []
  | Decimal.D0 u' => 48 :: uint_digits u'
  | Decimal.D1 u' => 49 :: uint_digits u'
  | Decimal.D2 u' => 50 :: uint_digits u'
  | Decimal.D3 u' => 51 :: uint_digits u'
  | Decimal.D4 u' => 52 :: uint_digits u'
  | Decimal.D5 u' => 53 :: uint_digits u'
  | Decimal.D6 u' => 54 :: uint_digits u'
  | Decimal.D7 u' => 55 :: uint_digits u'
  | Decimal.D8 u' => 56 :: uint_digits u'
  | Decimal.D9 u' => 57 :: uint_digits u'
  end.

(** [str(n)]; the interpreter's limit on the number of digits is left
    out. *)
Definition int_repr (n : Z) : pystr :=
  match Z.to_int n with
  | Decimal.Pos u => uint_digits u
  | Decimal.Neg u => c_minus :: uint_digits u
  end.

Definition newline_indent (indent level : nat) : pystr :=
  c_nl :: repeat c_space (indent * level).

Fixpoint join (sep : pystr) (chunks : list pystr) : pystr :=
  match chunks with
  | [] => []
  | [x] => x
  | x :: rest => x ++ sep ++ join sep rest
  end.

Fixpoint iterencode (indent level : nat) (v : json) {struct v} : pystr :=
  match v with
  | JNull => str_of "null"
  | JBool true => str_of "true"
  | JBool false => str_of "false"
  | JInt n => int_repr n
  | JFloat f => float_repr f
  | JStr s => encode_basestring s
  | JArr [] => str_of "[]"
  | JArr items =>
      [c_lbracket] ++ newline_indent indent (S level)
      ++ join (c_comma :: newline_indent indent (S level))
              (map (iterencode indent (S level)) items)
      ++ newline_indent indent level ++ [c_rbracket]
  | JObj [] => str_of "{}"
  | JObj fields =>
      [c_lbrace] ++ newline_indent indent (S level)
      ++ join (c_comma :: newline_indent indent (S level))
              (map (fun kv => match kv with
                              | (k, x) => encode_basestring k
                                          ++ [c_colon; c_space]
                                          ++ iterencode indent (S level) x
                              end) fields)
      ++ newline_indent indent level ++ [c_rbrace]
  end.

Definition json_dumps (indent : nat) (v : json) : pystr :=
  iterencode indent 0 v.

(** ** [json.loads]

    The scanner of [json.decoder] and [json.scanner].  Every failure of the
    scanner surfaces as [JSONDecodeError].  Recursion goes through [fuel];
    [json_decode] supplies more than any input can use (see
    [scan_fuel_enough]).

    The same two limits of the interpreter are left out here: an integer
    literal of more than 4300 digits makes [int] raise [ValueError], and
    about a thousand nested brackets raise [RecursionError]; neither is a
    [JSONDecodeError].  The model reads such documents like any other, so
    it agrees with the interpreter on documents within these limits. *)

Definition is_ws (c : Z) : bool :=
  (c =? c_space) || (c =? c_tab) || (c =? c_nl) || (c =? c_cr).

Fixpoint skip_ws (s : pystr) : pystr :=
  match s with
  | c :: t => if is_ws c then skip_ws t else s
  | [] => []
  end.

Definition is_digit (c : Z) : bool := (48 <=? c) && (c <=? 57).

Definition hex_val (c : Z) : option Z :=
  if is_digit c then Some (c - 48)
  else if (97 <=? c) && (c <=? 102) then Some (c - 87)
  else if (65 <=? c) && (c <=? 70) then Some (c - 55)
  else None.

Definition hex4 (a b c d : Z) : option Z :=
  match hex_val a, hex_val b, hex_val c, hex_val d with
  | Some x, Some y, Some z, Some w => Some (((x * 16 + y) * 16 + z) * 16 + w)
  | _, _, _, _ => None
  end.

Definition unescape (e : Z) : option Z :=
  if e =? c_quote then Some c_quote
  else if e =? c_backslash then Some c_backslash
  else if e =? c_slash then Some c_slash
  else if e =? 98 then Some c_bs
  else if e =? 102 then Some c_ff
  else if e =? 110 then Some c_nl
  else if e =? 114 then Some c_cr
  else if e =? 116 then Some c_tab
  else None.

Definition is_high_surrogate (c : Z) : bool := (0xD800 <=? c) && (c <=? 0xDBFF).
Definition is_low_surrogate (c : Z) : bool := (0xDC00 <=? c) && (c <=? 0xDFFF).

Definition join_surrogates (hi lo : Z) : Z :=
  0x10000 + ((hi - 0xD800) * 1024 + (lo - 0xDC00)).

Definition cons_scanned (c : Z) (r : option (pystr * pystr))
  : option (pystr * pystr) :=
  match r with
  | Some (s, rest) => Some (c :: s, rest)
  | None => None
  end.

(** [scanstring], strict mode, entered just after the opening quote. *)
Fixpoint scanstring (s : pystr) : option (pystr * pystr) :=
  match s with
  | [] => None
  | c :: t =>
      if c =? c_quote then Some ([], t)
      else if c =? c_backslash then
        match t with
        | [] => None
        | e :: t1 =>
            if e =? 117 then
              match t1 with
              | h1 :: h2 :: h3 :: h4 :: t2 =>
                  match hex4 h1 h2 h3 h4 with
                  | None => None
                  | Some uni =>
                      if is_high_surrogate uni then
                        match t2 with
                        | b :: u :: t3 =>
                            if (b =? c_backslash) && (u =? 117) then
                              match t3 with
                              | g1 :: g2 :: g3 :: g4 :: t4 =>
                                  match hex4 g1 g2 g3 g4 with
                                  | None => None
                                  | Some uni2 =>
                                      if is_low_surrogate uni2
                                      then cons_scanned (join_surrogates uni uni2)
                                                        (scanstring t4)
                                      else cons_scanned uni (scanstring t2)
                                  end
                              | _ => None
                              end
                            else cons_scanned uni (scanstring t2)
                        | _ => cons_scanned uni (scanstring t2)
                        end
                      else cons_scanned uni (scanstring t2)
                  end
              | _ => None
              end
            else
              match unescape e with
              | Some x => cons_scanned x (scanstring t1)
              | None => None
              end
        end
      else if (0 <=? c) && (c <? 32) then None
      else cons_scanned c (scanstring t)
  end.

(** [NUMBER_RE]: an integer part, an optional fraction, an optional
    exponent. *)
Fixpoint span_digits (s : pystr) : pystr * pystr :=
  match s with
  | c :: t =>
      if is_digit c
      then let '(ds, r) := span_digits t in (c :: ds, r)
      else ([], s)
  | [] => ([], [])
  end.

Definition match_int (s : pystr) : option (pystr * pystr) :=
  let '(sign, s1) :=
    match s with
    | c :: t => if c =? c_minus then ([c_minus], t) else ([], s)
    | [] => ([], s)
    end in
  match s1 with
  | c :: t =>
      if c =? c_0 then Some (sign ++ [c_0], t)
      else if is_digit c
      then let '(ds, r) := span_digits t in Some (sign ++ c :: ds, r)
      else None
  | [] => None
  end.

Definition match_frac (s : pystr) : pystr * pystr :=
  match s with
  | c :: t =>
      if c =? c_dot then
        match span_digits t with
        | ([], _) => ([], s)
        | (ds, r) => (c :: ds, r)
        end
      else ([], s)
  | [] => ([], s)
  end.

Definition match_exp (s : pystr) : pystr * pystr :=
  match s with
  | c :: t =>
      if (c =? 101) || (c =? 69) then
        let '(sg, t1) :=
          match t with
          | d :: t' =>
              if (d =? c_plus) || (d =? c_minus) then ([d], t') else ([], t)
          | [] => ([], t)
          end in
        match span_digits t1 with
        | ([], _) => ([], s)
        | (ds, r) => (c :: sg ++ ds, r)
        end
      else ([], s)
  | [] => ([], s)
  end.

Definition digits_value (ds : pystr) : Z :=
  fold_left (fun acc d => acc * 10 + (d - 48)) ds 0.

(** [int(s)] on the integer part; the interpreter's limit on the number
    of digits of such a literal is left out. *)
Definition int_of_literal (s : pystr) : Z :=
  match s with
  | c :: t => if c =? c_minus then - digits_value t else digits_value s
  | [] => 0
  end.

Definition match_number (s : pystr) : option (json * pystr) :=
  match match_int s with
  | None => None
  | Some (integer, r) =>
      let '(frac, r1) := match_frac r in
      let '(exp, r2) := match_exp r1 in
      match frac, exp with
      | [], [] => Some (JInt (int_of_literal integer), r2)
      | _, _ => Some (JFloat (float_of_literal (integer ++ frac ++ exp)), r2)
      end
  end.

Definition dict_of_pairs (pairs : list (pystr * json)) : list (pystr * json) :=
  fold_left (fun d kv => dict_set (fst kv) (snd kv) d) pairs [].

Definition scan_constant (s : pystr) : scan json :=
  if starts_with (str_of "null") s then Scanned JNull (skipn 4 s)
  else if starts_with (str_of "true") s then Scanned (JBool true) (skipn 4 s)
  else if starts_with (str_of "false") s then Scanned (JBool false) (skipn 5 s)
  else
    match match_number s with
    | Some (v, r) => Scanned v r
    | None =>
        if starts_with (str_of "NaN") s
        then Scanned (JFloat (float_of_literal (str_of "NaN"))) (skipn 3 s)
        else if starts_with (str_of "Infinity") s
        then Scanned (JFloat (float_of_literal (str_of "Infinity"))) (skipn 8 s)
        else if starts_with (str_of "-Infinity") s
        then Scanned (JFloat (float_of_literal (str_of "-Infinity"))) (skipn 9 s)
        else ScanError
    end.

(** [scan_once] and the loops of [JSONObject] and [JSONArray]; the
    interpreter's recursion limit is left out. *)
Fixpoint scan_once (fuel : nat) (s : pystr) {struct fuel} : scan json :=
  match fuel with
  | O => ScanFuel
  | S f =>
      match s with
      | [] => ScanError
      | c :: t =>
          if c =? c_quote then
            match scanstring t with
            | Some (x, r) => Scanned (JStr x) r
            | None => ScanError
            end
          else if c =? c_lbrace then
            match skip_ws t with
            | c1 :: t1 =>
                if c1 =? c_rbrace then Scanned (JObj []) t1
                else parse_pairs f [] (c1 :: t1)
            | [] => ScanError
            end
          else if c =? c_lbracket then
            match skip_ws t with
            | c1 :: t1 =>
                if c1 =? c_rbracket then Scanned (JArr []) t1
                else parse_items f [] (c1 :: t1)
            | [] => ScanError
            end
          else scan_constant s
      end
  end

(** The loop of [JSONObject]; [s] starts where a key must open. *)
with parse_pairs (fuel : nat) (acc : list (pystr * json)) (s : pystr)
  {struct fuel} : scan json :=
  match fuel with
  | O => ScanFuel
  | S f =>
      match s with
      | [] => ScanError
      | c :: t =>
          if c =? c_quote then
            match scanstring t with
            | None => ScanError
            | Some (key, r) =>
                match skip_ws r with
                | [] => ScanError
                | c1 :: r1 =>
                    if c1 =? c_colon then
                      match scan_once f (skip_ws r1) with
                      | Scanned v r2 =>
                          match skip_ws r2 with
                          | [] => ScanError
                          | c2 :: r3 =>
                              if c2 =? c_rbrace
                              then Scanned (JObj (dict_of_pairs (acc ++ [(key, v)]))) r3
                              else if c2 =? c_comma
                              then parse_pairs f (acc ++ [(key, v)]) (skip_ws r3)
                              else ScanError
                          end
                      | ScanError => ScanError
                      | ScanFuel => ScanFuel
                      end
                    else ScanError
                end
            end
          else ScanError
      end
  end

(** The loop of [JSONArray]; [s] starts where a value must begin. *)
with parse_items (fuel : nat) (acc : list json) (s : pystr)
  {struct fuel} : scan json :=
  match fuel with
  | O => ScanFuel
  | S f =>
      match scan_once f s with
      | Scanned v r =>
          match skip_ws r with
          | [] => ScanError
          | c :: r1 =>
              if c =? c_rbracket then Scanned (JArr (acc ++ [v])) r1
              else if c =? c_comma then parse_items f (acc ++ [v]) (skip_ws r1)
              else ScanError
          end
      | ScanError => ScanError
      | ScanFuel => ScanFuel
      end
  end.

(** [JSONDecoder.decode] *)
Definition json_decode (s : pystr) : result json :=
  match scan_once (2 * length s + 2) (skip_ws s) with
  | Scanned v r =>
      match skip_ws r with
      | [] => Ok v
      | _ :: _ => Raise JSONDecodeError
      end
  | ScanError => Raise JSONDecodeError
  | ScanFuel => Raise JSONDecodeError
  end.

(** [json.loads] applied to bytes. *)
Definition json_loads (b : bytes) : result json :=
  match bytes_decode (detect_encoding b) b with
  | Ok s => json_decode s
  | Raise e => Raise e
  end.

(** ** src/llm_api.py *)

(** File primitives for RECORD_PATH and LOG_PATH. *)

Definition record_exists : M bool :=
  fun w => (Ok (match record_file w with Some _ => true | None => false end), w).

Definition read_record : M bytes :=
  fun w =>
    match record_file w with
    | Some b => (Ok b, w)
    | None => (Raise IOError, w)
    end.

(** [open(RECORD_PATH, "wb")]: fails with [IOError], or truncates. *)
Definition open_record_wb : M unit :=
  fun w =>
    if record_writable w
    then (Ok tt, mkWorld (Some []) (log_file w)
                         (record_writable w) (log_writable w) (trace w))
    else (Raise IOError, w).

Definition write_record (data : bytes) : M unit :=
  fun w => (Ok tt, mkWorld (Some data) (log_file w)
                           (record_writable w) (log_writable w)
                           (trace w ++ [EvRecordWrite data])).

(** [open(LOG_PATH, "a", encoding='utf-8')]; the text layer encodes what
    is written and, on a POSIX system, leaves the newline as it is. *)
Definition open_log_append : M unit :=
  fun w => if log_writable w then (Ok tt, w) else (Raise IOError, w).

Definition append_log (data : bytes) : M unit :=
  fun w => (Ok tt, mkWorld (record_file w) (log_file w ++ data)
                           (record_writable w) (log_writable w)
                           (trace w ++ [EvLogAppend data])).

Definition load_chat_history : M json :=
  present <- record_exists ;;
  if negb present then ret (JArr [])
  else
    temp <- read_record ;;
    try_except (lift (json_loads temp))
      is_JSONDecodeError
      (fun _ => print WarnCorruptHistory ;;; ret (JArr [])).

Definition save_chat_history (messages : json) : M unit :=
  try_except
    (open_record_wb ;;;
     data <- lift (utf8_encode (json_dumps 4 messages)) ;;
     write_record data)
    is_IOError
    (fun _ => print ErrSaveHistory).

Definition log_entry (message : json) : pystr :=
  json_dumps 4 message ++ [c_comma; c_nl].

Definition log_message (message : json) : M unit :=
  try_except
    (open_log_append ;;;
     data <- lift (utf8_encode (log_entry message)) ;;
     append_log data)
    is_IOError
    (fun _ => print ErrLogMessage).

Definition K_ROLE : pystr := Eval cbv in str_of "role".
Definition K_CONTENT : pystr := Eval cbv in str_of "content".
Definition USER : pystr := Eval cbv in str_of "user".
Definition ASSISTANT : pystr := Eval cbv in str_of "assistant".
Definition SYSTEM : pystr := Eval cbv in str_of "system".

Definition InvalidRole : exn :=
  ValueError (str_of "Invalid role. Must be 'user', 'assistant', or 'system'.").

Definition create_message_dict (role content : pystr) : result json :=
  if negb (existsb (str_eqb role) [USER; ASSISTANT; SYSTEM])
  then Raise InvalidRole
  else Ok (JObj [(K_ROLE, JStr role); (K_CONTENT, JStr content)]).

(** The model capability: [client.chat.completions.create] followed by the
    selection of the reply text.  It is given the model name and the
    message list, which it does not change, and returns text or raises. *)
Definition Client := pystr -> json -> result pystr.

Definition call_llm_api (client : Client) (model : pystr) (messages : json)
  : M pystr :=
  try_except
    (emit (EvLlmCall model messages) ;;;
     lift (client model messages))
    (fun _ => true)
    (fun e => print (ErrLlmCall e) ;;; raise e).

Definition MalformedSeed : exn :=
  ValueError (str_of
    "initial_messages must be a list of dictionaries with 'role' and 'content' keys.").

Definition isinstance_list (v : json) : bool :=
  match v with JArr _ => true | _ => false end.

Definition items_of (v : json) : list json :=
  match v with JArr l => l | _ => [] end.

Definition message_shaped (msg : json) : bool :=
  match msg with
  | JObj d => dict_has K_ROLE d && dict_has K_CONTENT d
  | _ => false
  end.

Definition initialize_chat_history (initial_messages : json) : M unit :=
  let initial_messages :=
    match initial_messages with JNull => JArr [] | v => v end in
  if negb (isinstance_list initial_messages)
     || negb (forallb message_shaped (items_of initial_messages))
  then raise MalformedSeed
  else
    save_chat_history initial_messages ;;;
    print (HistoryInitialized (length (items_of initial_messages))).

(** Truth value of an optional [str]: [None] and the empty string are false. *)
Definition truthy (s : option pystr) : bool :=
  match s with
  | Some (_ :: _) => true
  | _ => false
  end.

Definition get_initial_chat_history (system_message : option pystr)
  : result json :=
  let initial_history := [] in
  if truthy system_message then
    match create_message_dict SYSTEM
            (match system_message with Some s => s | None => [] end) with
    | Ok m => Ok (JArr (initial_history ++ [m]))
    | Raise e => Raise e
    end
  else Ok (JArr initial_history).

(** [lst.append(x)]; only a list has the method. *)
Definition list_append (lst x : json) : result json :=
  match lst with
  | JArr l => Ok (JArr (l ++ [x]))
  | _ => Raise AttributeError
  end.

(** Reifies the outcome of [m], for a [try] whose [except Exception]
    clause returns from the function. *)
Definition attempt {A} (m : M A) : M (result A) :=
  fun w => match m w with (r, w') => (Ok r, w') end.

Definition FALLBACK : pystr :=
  Eval cbv in str_of "we were unable to process your request at this time.".

Definition chat (client : Client) (model prompt : pystr)
    (use_initial_history : bool) (system_message : option pystr)
  : M (json * json) :=
  current_messages <-
    (if use_initial_history
     then lift (get_initial_chat_history system_message)
     else load_chat_history) ;;
  user_message_dict <- lift (create_message_dict USER prompt) ;;
  log_message user_message_dict ;;;
  current_messages <- lift (list_append current_messages user_message_dict) ;;
  outcome <- attempt (call_llm_api client model current_messages) ;;
  match outcome with
  | Raise e =>
      print (ChatFailed e) ;;;
      let assistant_error_message := FALLBACK in
      assistant_message_dict <-
        lift (create_message_dict ASSISTANT assistant_error_message) ;;
      log_message assistant_message_dict ;;;
      current_messages <-
        lift (list_append current_messages assistant_message_dict) ;;
      save_chat_history current_messages ;;;
      ret (user_message_dict, assistant_message_dict)
  | Ok llm_response_content =>
      assistant_message_dict <-
        lift (create_message_dict ASSISTANT llm_response_content) ;;
      current_messages <-
        lift (list_append current_messages assistant_message_dict) ;;
      save_chat_history current_messages ;;;
      log_message assistant_message_dict ;;;
      ret (user_message_dict, assistant_message_dict)
  end.

(** ** src/main.py: the response extractor *)

(** The fragment of [re] that the pattern of [extract_code_snippet] uses:
    single characters and classes, concatenation, a greedy optional
    group, greedy [+] and lazy [*?] over a class, and capture group 1.
    The matcher backtracks in the order of Python's engine and hands the
    rest of the input and the capture to a continuation. *)

Inductive cclass :=
| CChar (c : Z)   (* a literal character *)
| CAny            (* the dot under re.DOTALL *)
| CWord.          (* \w on a str pattern *)

Inductive regex :=
| RSet (c : cclass)
| RSeq (r1 r2 : regex)
| ROpt (r : regex)
| RPlus (c : cclass)
| RStarLazy (c : cclass)
| RGroup (r : regex).

Definition ascii_alnum (c : Z) : bool :=
  is_digit c || ((65 <=? c) && (c <=? 90)) || ((97 <=? c) && (c <=? 122)).

Definition is_word (c : Z) : bool :=
  if c <? 128 then ascii_alnum c || (c =? c_underscore)
  else unicode_isalnum c.

Definition in_class (cl : cclass) (x : Z) : bool :=
  match cl with
  | CChar c => x =? c
  | CAny => true
  | CWord => is_word x
  end.

Section Matcher.
Variable A : Type.

Fixpoint star_greedy (cl : cclass) (s : pystr) (k : pystr -> option A)
  : option A :=
  match s with
  | x :: t =>
      if in_class cl x then
        match star_greedy cl t k with
        | Some a => Some a
        | None => k s
        end
      else k s
  | [] => k s
  end.

Fixpoint star_lazy (cl : cclass) (s : pystr) (k : pystr -> option A)
  : option A :=
  match k s with
  | Some a => Some a
  | None =>
      match s with
      | x :: t => if in_class cl x then star_lazy cl t k else None
      | [] => None
      end
  end.

Fixpoint rmatch (r : regex) (s : pystr) (g : option pystr)
    (k : pystr -> option pystr -> option A) : option A :=
  match r with
  | RSet cl =>
      match s with
      | x :: t => if in_class cl x then k t g else None
      | [] => None
      end
  | RSeq r1 r2 => rmatch r1 s g (fun s' g' => rmatch r2 s' g' k)
  | ROpt r1 =>
      match rmatch r1 s g k with
      | Some a => Some a
      | None => k s g
      end
  | RPlus cl =>
      match s with
      | x :: t =>
          if in_class cl x then star_greedy cl t (fun s' => k s' g) else None
      | [] => None
      end
  | RStarLazy cl => star_lazy cl s (fun s' => k s' g)
  | RGroup r1 =>
      rmatch r1 s g
        (fun s' _ => k s' (Some (firstn (length s - length s') s)))
  end.

End Matcher.

(** [re.search(r, s)]: the leftmost position where [r] matches; the
    result is [group(1)] of the match. *)
Fixpoint re_search (r : regex) (s : pystr) : option (option pystr) :=
  match rmatch r s None (fun _ g => Some g) with
  | Some g => Some g
  | None =>
      match s with
      | _ :: t => re_search r t
      | [] => None
      end
  end.

Definition FENCE : pystr := [c_backtick; c_backtick; c_backtick].

Definition r_fence : regex :=
  RSeq (RSet (CChar c_backtick))
       (RSeq (RSet (CChar c_backtick)) (RSet (CChar c_backtick))).

(** [```(?:\w+)?\n(.*?)```] *)
Definition SNIPPET_RE : regex :=
  RSeq r_fence
    (RSeq (ROpt (RPlus CWord))
       (RSeq (RSet (CChar c_nl))
          (RSeq (RGroup (RStarLazy CAny)) r_fence))).

(** [str.isspace] for one code point, as [str.strip()] uses it. *)
Definition py_isspace (c : Z) : bool :=
  ((0x09 <=? c) && (c <=? 0x0D)) || ((0x1C <=? c) && (c <=? 0x20))
  || (c =? 0x85) || (c =? 0xA0) || (c =? 0x1680)
  || ((0x2000 <=? c) && (c <=? 0x200A))
  || (c =? 0x2028) || (c =? 0x2029) || (c =? 0x202F) || (c =? 0x205F)
  || (c =? 0x3000).

Fixpoint lstrip (s : pystr) : pystr :=
  match s with
  | c :: t => if py_isspace c then lstrip t else s
  | [] => []
  end.

Definition strip (s : pystr) : pystr := rev (lstrip (rev (lstrip s))).

Definition extract_code_snippet (llm_response_content : pystr)
  : result pystr :=
  match re_search SNIPPET_RE llm_response_content with
  | Some group1 =>
      match group1 with
      | Some body => Ok (strip body)
      | None => Raise AttributeError
      end
  | None => Ok llm_response_content
  end.

(** ** src/main.py: the grammar turn *)

Section Main.

(** Module globals of [main.py]: the API client, the directory of the
    checkout, and the reader of the prompt templates, which is an external
    collaborator. *)
Variable CLIENT : Client.
Variable BASE_DIR : pystr.
Variable json_reader : pystr -> result json.

Definition MODEL : pystr := Eval cbv in str_of "gpt-4.1".
Definition PROMPT_DIR : pystr := BASE_DIR ++ str_of "/prompt/en/".

Definition K_CONTEXT : pystr := Eval cbv in str_of "current_correction_context".

Definition error_instruction_with_id_prompt : pystr :=
  Eval cbv in
    str_of "The compiler provides the line number where it encountered an "
    ++ str_of "issue and explains the nature of the error. Please use this "
    ++ str_of "error message, along with the provided grammatical syntax error "
    ++ str_of "examples, to identify and correct the error in the model. **For "
    ++ str_of "each correction, please indicate the ID of the grammatical example "
    ++ str_of "(from the 'grammar_correction_examples' list) that you referred "
    ++ str_of "to, if applicable.**".

Definition GRAMMAR_SYSTEM_MESSAGE : pystr :=
  Eval cbv in
    str_of "You are an **interactive compile checker** specialized in correcting "
    ++ str_of "grammatical mistakes in LTS and FLTL models for Discrete Controller "
    ++ str_of "Synthesis (DCS). Given a JSON-formatted prompt containing model "
    ++ str_of "description and compilation error message, detect grammatical "
    ++ str_of "errors and suggest corrections. This process will repeat until "
    ++ str_of "compilation is fully successful."
    ++ [10; 10]
    ++ str_of "**"
    ++ [12304]
    ++ str_of "CRUCIAL OUTPUT FORMAT RULE: GRAMMAR CORRECTION"
    ++ [12305]
    ++ str_of "**"
    ++ [10]
    ++ str_of "- **If no grammatical mistakes are found (or compilation is "
    ++ str_of "deemed successful by you):** Respond with "
    ++ [34]
    ++ str_of "No grammatical mistakes found. Compilation completed successfully."
    ++ [34]
    ++ str_of " and **immediately thereafter, provide the entire corrected "
    ++ str_of "model as a single Markdown code block (```plaintext). No other "
    ++ str_of "explanations are needed.**"
    ++ [10]
    ++ str_of "- **If grammatical mistakes are detected:**"
    ++ [10]
    ++ str_of "  - First, **provide the entire corrected model as a single "
    ++ str_of "Markdown code block (```plaintext). This is the highest priority.**"
    ++ [10]
    ++ str_of "  - **Immediately after** the code block, briefly explain **the "
    ++ str_of "errors that needed correction, their reasons, AND THE ID(S) "
    ++ str_of "OF THE GRAMMAR EXAMPLE(S) AND GRAMMAR RULE(S) THAT YOU REFERRED "
    ++ str_of "TO (e.g., 'Referenced Grammar Example ID: 5, Referenced Grammar "
    ++ str_of "Rule ID: LTS_3').** If multiple examples/rules apply, list all "
    ++ str_of "relevant IDs. If no specific example/rule was directly referenced, "
    ++ str_of "state 'No specific reference'. Use a bulleted list for each "
    ++ str_of "error."
    ++ [10]
    ++ str_of "  - If there are multiple errors, list all errors and provide "
    ++ str_of "corrections for each.".

(** [d[k]] where [d] must be a dict holding [k]. *)
Definition getitem (d : json) (k : pystr) : result json :=
  match d with
  | JObj fields =>
      match dict_get k fields with
      | Some v => Ok v
      | None => Raise (KeyError k)
      end
  | _ => Raise TypeError
  end.

(** [d[k] = v] where [d] must be a dict. *)
Definition setitem (d : json) (k : pystr) (v : json) : result json :=
  match d with
  | JObj fields => Ok (JObj (dict_set k v fields))
  | _ => Raise TypeError
  end.

(** [k not in d]; a template that is not a dict fails here or at the
    assignment that follows, with [TypeError] either way. *)
Definition lacks_key (d : json) (k : pystr) : result bool :=
  match d with
  | JObj fields => Ok (negb (dict_has k fields))
  | _ => Raise TypeError
  end.

(** [d[k1][k2] = v]: the inner dict is shared, so the update shows in [d]. *)
Definition setitem2 (d : json) (k1 k2 : pystr) (v : json) : result json :=
  match getitem d k1 with
  | Ok inner =>
      match setitem inner k2 v with
      | Ok inner' => setitem d k1 inner'
      | Raise e => Raise e
      end
  | Raise e => Raise e
  end.

Definition modify_grammer (inspected_model error_statement : pystr)
  : M (json * json * pystr) :=
  prompt_data_for_llm <-
    lift (json_reader (PROMPT_DIR ++ str_of "grammer_prompt_data.json")) ;;
  missing <- lift (lacks_key prompt_data_for_llm K_CONTEXT) ;;
  prompt_data_for_llm <-
    (if missing
     then lift (setitem prompt_data_for_llm K_CONTEXT (JObj []))
     else ret prompt_data_for_llm) ;;
  prompt_data_for_llm <-
    lift (setitem2 prompt_data_for_llm K_CONTEXT
            (str_of "error_instruction")
            (JStr error_instruction_with_id_prompt)) ;;
  prompt_data_for_llm <-
    lift (setitem2 prompt_data_for_llm K_CONTEXT
            (str_of "compilation_error_message") (JStr error_statement)) ;;
  prompt_data_for_llm <-
    lift (setitem2 prompt_data_for_llm K_CONTEXT
            (str_of "model_to_correct") (JStr inspected_model)) ;;
  let json_string_for_llm := json_dumps 2 prompt_data_for_llm in
  let prompt_content := json_string_for_llm in
  let system_message := GRAMMAR_SYSTEM_MESSAGE in
  pr <- chat CLIENT MODEL prompt_content true (Some system_message) ;;
  let '(prompt, response) := pr in
  content <- lift (getitem response K_CONTENT) ;;
  match content with
  | JStr text =>
      suggested_model <- lift (extract_code_snippet text) ;;
      ret (prompt, response, suggested_model)
  | _ => raise TypeError
  end.

End Main.

(** ** Vocabulary of the specification *)

(** A Message, and a History as the list of its Messages; [message_dict]
    is the dict that [create_message_dict] builds. *)
Record Message := mkMessage { role : pystr; content : pystr }.

Definition message_dict (m : Message) : json :=
  JObj [(K_ROLE, JStr (role m)); (K_CONTENT, JStr (content m))].

Definition history_json (h : list Message) : json :=
  JArr (map message_dict h).

Definition wf_message (m : Message) : Prop := text (role m) /\ text (content m).

(** Field access on a dict that holds a string under [k]. *)
Definition field (k : pystr) (v : json) : option pystr :=
  match v with
  | JObj d => match dict_get k d with Some (JStr s) => Some s | _ => None end
  | _ => None
  end.

(** The persisted History is what [load_chat_history] reads back. *)
Definition persisted (w : World) (h : json) : Prop :=
  fst (load_chat_history w) = Ok h.

(** A fenced block inside [txt]: the delimiter, a tag of word characters
    (possibly empty), a newline, the interior, the closing delimiter. *)
Definition fenced (txt pre tag body post : pystr) : Prop :=
  txt = pre ++ FENCE ++ tag ++ [c_nl] ++ body ++ FENCE ++ post
  /\ forallb is_word tag = true.

(** The first fenced block: none starts further left, and among those
    starting there its interior is the shortest (non-greedy). *)
Definition first_fenced (txt pre tag body post : pystr) : Prop :=
  fenced txt pre tag body post
  /\ forall pre' tag' body' post',
       fenced txt pre' tag' body' post' ->
       (length pre < length pre')%nat
       \/ (length pre = length pre' /\ (length body <= length body')%nat).

(** The text between the brackets of a dumped History, for the proofs. *)
Definition item_sep : pystr := c_comma :: newline_indent 4 1.

Definition encode_items (ms : list Message) : pystr :=
  join item_sep (map (iterencode 4 1) (map message_dict ms)).

(** The History a turn of [chat] starts from. *)
Definition starting_history (use_initial_history : bool)
    (system_message : option pystr) : M json :=
  if use_initial_history
  then lift (get_initial_chat_history system_message)
  else load_chat_history.

(** The assistant's content for one turn: the reply of the model
    capability, or the fallback notice when the call raised. *)
Definition reply_content (outcome : result pystr) : pystr :=
  match outcome with
  | Ok s => s
  | Raise _ => FALLBACK
  end.

(** What [log_message] and [save_chat_history] leave in the trace, by
    whether the file can be opened. *)
Definition log_event (w : World) (b : bytes) : event :=
  if log_writable w then EvLogAppend b else EvPrint ErrLogMessage.

Definition save_event (w : World) (b : bytes) : event :=
  if record_writable w then EvRecordWrite b else EvPrint ErrSaveHistory.

(** The effects of a turn after the model capability was invoked: [ba] is
    the assistant's log entry and [bh] the new snapshot. *)
Definition turn_tail (w : World) (outcome : result pystr) (ba bh : bytes)
  : list event :=
  match outcome with
  | Ok _ => [save_event w bh; log_event w ba]
  | Raise e =>
      [EvPrint (ErrLlmCall e); EvPrint (ChatFailed e);
       log_event w ba; save_event w bh]
  end.

(** A valid seed for [initialize_chat_history], in the words of the spec:
    a list whose every element is a dict with the keys 'role' and
    'content'. *)
Definition message_shape (v : json) : Prop :=
  exists d x y, v = JObj d /\ dict_get K_ROLE d = Some x
                /\ dict_get K_CONTENT d = Some y.

Definition valid_seed (v : json) : Prop :=
  exists items, v = JArr items /\ Forall message_shape items.

(** The seed after the default is applied: no seed means the empty list. *)
Definition seed_or_default (seed : json) : json :=
  match seed with JNull => JArr [] | v => v end.

(** Functions that locate a fenced block by scanning, used to analyse the
    matcher: the shortest interior up to a closing delimiter, the tag and
    what follows it, the block that starts at the head of the input, and
    the leftmost block. *)
Fixpoint find_fence (s : pystr) : option (pystr * pystr) :=
  if starts_with FENCE s then Some ([], skipn 3 s)
  else
    match s with
    | c :: t =>
        match find_fence t with
        | Some (b, p) => Some (c :: b, p)
        | None => None
        end
    | [] => None
    end.

Fixpoint take_word (s : pystr) : pystr :=
  match s with
  | c :: t => if is_word c then c :: take_word t else []
  | [] => []
  end.

Fixpoint drop_word (s : pystr) : pystr :=
  match s with
  | c :: t => if is_word c then drop_word t else s
  | [] => []
  end.

Definition block_here (t : pystr) : option pystr :=
  if starts_with FENCE t then
    match drop_word (skipn 3 t) with
    | c :: s3 =>
        if c =? c_nl then
          match find_fence s3 with
          | Some (b, _) => Some b
          | None => None
          end
        else None
    | [] => None
    end
  else None.

Fixpoint first_block (s : pystr) : option pystr :=
  match block_here s with
  | Some b => Some b
  | None =>
      match s with
      | _ :: t => first_block t
      | [] => None
      end
  end.

(** The two halves of [modify_grammer] around its call of [chat]: the
    prompt it builds from the template, and what it does with the pair
    that [chat] returns. *)
Definition grammar_prompt (BASE_DIR : pystr)
    (json_reader : pystr -> result json)
    (inspected_model error_statement : pystr) : result pystr :=
  match json_reader (PROMPT_DIR BASE_DIR ++ str_of "grammer_prompt_data.json") with
  | Raise e => Raise e
  | Ok d0 =>
      match lacks_key d0 K_CONTEXT with
      | Raise e => Raise e
      | Ok missing =>
          match (if missing then setitem d0 K_CONTEXT (JObj []) else Ok d0) with
          | Raise e => Raise e
          | Ok d1 =>
              match setitem2 d1 K_CONTEXT (str_of "error_instruction")
                      (JStr error_instruction_with_id_prompt) with
              | Raise e => Raise e
              | Ok d2 =>
                  match setitem2 d2 K_CONTEXT
                          (str_of "compilation_error_message")
                          (JStr error_statement) with
                  | Raise e => Raise e
                  | Ok d3 =>
                      match setitem2 d3 K_CONTEXT (str_of "model_to_correct")
                              (JStr inspected_model) with
                      | Raise e => Raise e
                      | Ok d4 => Ok (json_dumps 2 d4)
                      end
                  end
              end
          end
      end
  end.

Definition grammar_finish (pr : json * json) : M (json * json * pystr) :=
  let '(prompt, response) := pr in
  content <- lift (getitem response K_CONTENT) ;;
  match content with
  | JStr text =>
      suggested_model <- lift (extract_code_snippet text) ;;
      ret (prompt, response, suggested_model)
  | _ => raise TypeError
  end.

(** Decidable form of [scalar], to check constants by computation. *)
Definition scalarb (c : Z) : bool :=
  (0 <=? c) && (c <=? 0x10FFFF) && negb (is_surrogate c).

(** ** Vocabulary for what an operation leaves alone

    [keeps R m]: whatever the store and whatever the outcome, the store
    after [m] is related by [R] to the store before. *)
Definition keeps {A} (R : World -> World -> Prop) (m : M A) : Prop :=
  forall w, R w (snd (m w)).

Record preorder (R : World -> World -> Prop) : Prop := mkPreorder {
  pre_refl : forall w, R w w;
  pre_trans : forall a b c, R a b -> R b c -> R a c
}.

(** The writability of the files is unchanged, the log file and the trace
    have only been appended to. *)
Definition grows (w w' : World) : Prop :=
  record_writable w' = record_writable w
  /\ log_writable w' = log_writable w
  /\ (exists l, log_file w' = log_file w ++ l)
  /\ (exists t, trace w' = trace w ++ t).

(** The snapshot and the log file are as they were. *)
Definition same_record (w w' : World) : Prop := record_file w' = record_file w.

Definition same_log (w w' : World) : Prop := log_file w' = log_file w.

(** The number of invocations of the model capability in a trace. *)
Fixpoint llm_calls (tr : list event) : nat :=
  match tr with
  | [] => 0
  | EvLlmCall _ _ :: t => S (llm_calls t)
  | _ :: t => llm_calls t
  end.

Definition same_calls (w w' : World) : Prop :=
  llm_calls (trace w') = llm_calls (trace w).

(** [triple P m Q E]: from a store satisfying [P], [m] either returns [a]
    in a store satisfying [Q a] or raises [e] in a store satisfying
    [E e]. *)
Definition triple {A} (P : World -> Prop) (m : M A)
    (Q : A -> World -> Prop) (E : exn -> World -> Prop) : Prop :=
  forall w, P w ->
    match m w with
    | (Ok a, w') => Q a w'
    | (Raise e, w') => E e w'
    end.

Definition calls_are (k : nat) (w : World) : Prop := llm_calls (trace w) = k.

Definition calls_at_most (k : nat) (w : World) : Prop :=
  (llm_calls (trace w) <= k)%nat.

(** [contains s x]: [x] occurs in [s] as a run of consecutive characters. *)
Definition contains (s x : pystr) : Prop := exists a b, s = a ++ x ++ b.

(** The file that [modify_grammer] reads its template from. *)
Definition grammar_template_path (BASE_DIR : pystr) : pystr :=
  PROMPT_DIR BASE_DIR ++ str_of "grammer_prompt_data.json".

(** ** src/main.py: the spelling turn *)

Section Spell.

Variable CLIENT : Client.
Variable BASE_DIR : pystr.
Variable json_reader : pystr -> result json.

Definition SPELL_SYSTEM_MESSAGE : pystr :=
  Eval cbv in
    str_of "You are a **compile checker** specialized in correcting spelling "
    ++ str_of "mistakes in LTS and FLTL models for Discrete Controller Synthesis "
    ++ str_of "(DCS). Given a model description (which will follow the "
    ++ str_of "JSON-formatted prompt), detect spelling mistakes (excluding "
    ++ str_of "grammatical errors) and suggest corrections."
    ++ [10; 10]
    ++ str_of "**"
    ++ [12304]
    ++ str_of "CRUCIAL OUTPUT FORMAT RULE: SPELLING CORRECTION"
    ++ [12305]
    ++ str_of "**"
    ++ [10]
    ++ str_of "- **If no spelling mistakes are found (or compilation is deemed "
    ++ str_of "successful by you):** Respond with "
    ++ [34]
    ++ str_of "No spelling mistakes found. Compilation expected to be successful."
    ++ [34]
    ++ str_of " and **immediately thereafter, provide the entire model in a "
    ++ str_of "single Markdown code block (```plaintext). No other explanations "
    ++ str_of "are needed.**"
    ++ [10]
    ++ str_of "- **If spelling mistakes are detected:**"
    ++ [10]
    ++ str_of "  - First, **provide the entire corrected model as a single "
    ++ str_of "Markdown code block (```plaintext). This is the highest "
    ++ str_of "priority.**"
    ++ [10]
    ++ str_of "  - **Immediately after** the code block, briefly explain **the "
    ++ str_of "errors that needed correction and their reasons** in a bulleted "
    ++ str_of "list."
    ++ [10]
    ++ str_of "  - Even if there are multiple errors, the **initial code block "
    ++ str_of "must contain the complete model after applying all corrections**.".

(** [v.copy()]: dicts and lists have the method, and the copy is shallow;
    the other values that [json.load] returns do not have it. *)
Definition py_copy (v : json) : result json :=
  match v with
  | JObj _ => Ok v
  | JArr _ => Ok v
  | _ => Raise AttributeError
  end.

Definition SPELL_HEADING : pystr :=
  Eval cbv in
    [10; 10]
    ++ str_of "Here is the model to be checked for spelling errors:"
    ++ [10; 10].

Definition modify_spell (inspected_model : pystr) : M (json * json * pystr) :=
  prompt_template_json <-
    lift (json_reader (PROMPT_DIR BASE_DIR ++ str_of "spell_prompt_data.json")) ;;
  prompt_data_for_llm <- lift (py_copy prompt_template_json) ;;
  let json_string_for_llm := json_dumps 2 prompt_data_for_llm in
  let prompt_context :=
    json_string_for_llm ++ SPELL_HEADING ++ inspected_model in
  let system_message := SPELL_SYSTEM_MESSAGE in
  pr <- chat CLIENT MODEL prompt_context true (Some system_message) ;;
  let '(prompt, response) := pr in
  content <- lift (getitem response K_CONTENT) ;;
  match content with
  | JStr text =>
      suggested_model <- lift (extract_code_snippet text) ;;
      ret (prompt, response, suggested_model)
  | _ => raise TypeError
  end.

End Spell.

(** The file that [modify_spell] reads its template from. *)
Definition spell_template_path (BASE_DIR : pystr) : pystr :=
  PROMPT_DIR BASE_DIR ++ str_of "spell_prompt_data.json".

(** ** src/main.py: the readers

    The files of the checkout other than RECORD_PATH and LOG_PATH: the
    prompt templates and the model under repair.  The program only reads
    them; [None] stands for a file that cannot be opened. *)
Definition Disk := pystr -> option bytes.

(** Text mode with the default [newline=None]: the line endings CR LF
    and CR are read as LF. *)
Fixpoint universal_newlines (s : pystr) : pystr :=
  match s with
  | [] => []
  | c :: t =>
      if c =? c_cr then
        c_nl :: match t with
                | d :: t' =>
                    if d =? c_nl then universal_newlines t'
                    else universal_newlines t
                | [] => []
                end
      else c :: universal_newlines t
  end.

(** The strict UTF-8 decoder of a file opened with [encoding='utf-8']:
    as [utf8_decode], but an encoded surrogate is an error too. *)
Definition utf8_decode_strict (b : bytes) : result pystr :=
  match utf8_decode b with
  | Ok s => if existsb is_surrogate s then Raise UnicodeDecodeError else Ok s
  | Raise e => Raise e
  end.

(** [json.loads] applied to a str: a leading byte order mark is refused. *)
Definition json_loads_str (s : pystr) : result json :=
  if starts_with [0xFEFF] s then Raise JSONDecodeError else json_decode s.

(** [open(filepath, 'r')] decodes with the encoding of the locale, which
    is taken as given. *)
Definition txt_reader (disk : Disk) (locale_decode : bytes -> result pystr)
    (filepath : pystr) : result pystr :=
  match disk filepath with
  | None => Raise IOError
  | Some b =>
      match locale_decode b with
      | Ok s => Ok (universal_newlines s)
      | Raise e => Raise e
      end
  end.

Definition json_reader (disk : Disk) (filepath : pystr) : result json :=
  match disk filepath with
  | None => Raise IOError
  | Some b =>
      match utf8_decode_strict b with
      | Ok s => json_loads_str (universal_newlines s)
      | Raise e => Raise e
      end
  end.

(** ** src/main.py: the interactive workflow

    The script reads the answers of the user from the standard input.
    While it waits for an answer the user edits the model file by hand, so
    each answer comes with the files as they are when it is typed. *)

Record answer := mkAnswer {
  typed : pystr;
  disk_then : Disk
}.

Inductive question :=
| AskSpellingDone
| AskCompiled
| AskCompilationError
| AskGrammarDone.

(** What the script writes to the standard output, without the wording. *)
Inductive shown :=
| Asked (q : question)
| SpellingPhase
| SpellingResult
| GrammarPhase
| GrammarSuggestion
| ShowPrompt (prompt : json)
| ShowResponse (content : json)
| ShowSpellChecked (model : pystr)
| ShowSuggested (model : pystr)
| ShowNext (model : pystr)
| Reloaded
| PleaseModify
| InputY
| InvalidInput
| SyntaxCorrected
| FinalModelBanner
| ShowFinal (model : pystr).

Record Session := mkSession {
  store : World;                (* the snapshot, the log and the trace *)
  disk : Disk;                  (* the other files, as last seen *)
  pending : list answer;        (* what is left of the standard input *)
  console : list shown          (* the standard output so far *)
}.

Definition Script (A : Type) := Session -> ended A * Session.

Definition sret {A} (a : A) : Script A := fun s => (Done a, s).

Definition sbind {A B} (m : Script A) (f : A -> Script B) : Script B :=
  fun s =>
    match m s with
    | (Done a, s') => f a s'
    | (Halt h, s') => (Halt h, s')
    end.

Definition diverge {A} : Script A := fun s => (Halt OutOfFuel, s).

(** An outcome computed without effect; an exception ends the script. *)
Definition pure {A} (r : result A) : Script A :=
  fun s =>
    match r with
    | Ok a => (Done a, s)
    | Raise e => (Halt (Uncaught e), s)
    end.

(** A function of [llm_api] or [main] run on the store of the session. *)
Definition in_store {A} (m : M A) : Script A :=
  fun s =>
    match m (store s) with
    | (Ok a, w) => (Done a, mkSession w (disk s) (pending s) (console s))
    | (Raise e, w) =>
        (Halt (Uncaught e), mkSession w (disk s) (pending s) (console s))
    end.

(** A file read, on the files as they are now. *)
Definition with_disk {A} (f : Disk -> Script A) : Script A :=
  fun s => f (disk s) s.

(** [print(...)]; the standard output is taken to accept every string. *)
Definition say (x : shown) : Script unit :=
  fun s =>
    (Done tt, mkSession (store s) (disk s) (pending s) (console s ++ [x])).

(** [input(prompt)]: the prompt is written, then a line is read. *)
Definition input (q : question) : Script pystr :=
  fun s =>
    match pending s with
    | [] =>
        (Halt EOFError,
         mkSession (store s) (disk s) [] (console s ++ [Asked q]))
    | a :: rest =>
        (Done (typed a),
         mkSession (store s) (disk_then a) rest (console s ++ [Asked q]))
    end.

(** [s.upper() == 'Y'] and [s.upper() == 'N']: the strings whose upper
    case is the one letter are that letter and its lower case. *)
Definition upper_is_Y (s : pystr) : bool := str_eqb s [89] || str_eqb s [121].

Definition upper_is_N (s : pystr) : bool := str_eqb s [78] || str_eqb s [110].

Local Notation "x <~ m ;; k" := (sbind m (fun x => k))
  (at level 61, m at next level, right associativity) : py_scope.
Local Notation "m ;;~ k" := (sbind m (fun _ => k))
  (at level 61, right associativity) : py_scope.

Section Workflow.

Variable CLIENT : Client.
Variable BASE_DIR : pystr.
Variable locale_decode : bytes -> result pystr.

Definition current_model_path : pystr :=
  BASE_DIR ++ str_of "/input/input_model.txt".

(** The loop that waits until the user has edited the model file, which
    the script has after the spelling turn and after every grammar turn;
    the two differ in the question and in the line shown on another
    answer. *)
Fixpoint confirm_loop (fuel : nat) (q : question) (retry : shown)
  : Script pystr :=
  match fuel with
  | O => diverge
  | S f =>
      write_confirm <~ input q ;;
      if upper_is_Y write_confirm then
        inspected_model <~
          with_disk (fun d =>
            pure (txt_reader d locale_decode current_model_path)) ;;
        say Reloaded ;;~
        sret inspected_model
      else
        say retry ;;~
        confirm_loop f q retry
  end.

Fixpoint grammar_loop (fuel : nat) (inspected_model : pystr)
  : Script pystr :=
  match fuel with
  | O => diverge
  | S f =>
      user_feedback <~ input AskCompiled ;;
      if upper_is_Y user_feedback then
        say SyntaxCorrected ;;~
        sret inspected_model
      else if upper_is_N user_feedback then
        compilation_error <~ input AskCompilationError ;;
        r <~ with_disk (fun d =>
               in_store (modify_grammer CLIENT BASE_DIR (json_reader d)
                           inspected_model compilation_error)) ;;
        let '(prompt_grammer, response_grammer, suggested_grammer_model) := r in
        say GrammarSuggestion ;;~
        say (ShowPrompt prompt_grammer) ;;~
        content <~ pure (getitem response_grammer K_CONTENT) ;;
        say (ShowResponse content) ;;~
        say (ShowSuggested suggested_grammer_model) ;;~
        inspected_model <~ confirm_loop f AskGrammarDone InputY ;;
        say (ShowNext inspected_model) ;;~
        grammar_loop f inspected_model
      else
        say InvalidInput ;;~
        grammar_loop f inspected_model
  end.

(** The script, from its first statement to its last; its value is the
    model that it prints at the end. *)
Definition workflow (fuel : nat) : Script pystr :=
  inspected_model <~
    with_disk (fun d => pure (txt_reader d locale_decode current_model_path)) ;;
  say SpellingPhase ;;~
  r <~ with_disk (fun d =>
         in_store (modify_spell CLIENT BASE_DIR (json_reader d)
                     inspected_model)) ;;
  let '(prompt_spell, response_spell, inspected_model) := r in
  say SpellingResult ;;~
  say (ShowPrompt prompt_spell) ;;~
  content <~ pure (getitem response_spell K_CONTENT) ;;
  say (ShowResponse content) ;;~
  say (ShowSpellChecked inspected_model) ;;~
  inspected_model <~ confirm_loop fuel AskSpellingDone PleaseModify ;;
  say GrammarPhase ;;~
  inspected_model <~ grammar_loop fuel inspected_model ;;
  say FinalModelBanner ;;~
  say (ShowFinal inspected_model) ;;~
  sret inspected_model.

End Workflow.

(** The number of answers whose upper case is 'N'. *)
Definition no_answers (l : list answer) : nat :=
  length (filter (fun a => upper_is_N (typed a)) l).

(** The requests that a run adds to the trace all satisfy [P]. *)
Definition requests_satisfy (P : pystr -> json -> Prop) (w w' : World)
  : Prop :=
  exists t,
    trace w' = trace w ++ t
    /\ forall model msgs, In (EvLlmCall model msgs) t -> P model msgs.

(** A request of a fresh turn of [main.py]: to [MODEL], with one of the
    two system messages and one user Message. *)
Definition fresh_request (model : pystr) (msgs : json) : Prop :=
  model = MODEL
  /\ exists sm prompt,
       (sm = SPELL_SYSTEM_MESSAGE \/ sm = GRAMMAR_SYSTEM_MESSAGE)
       /\ msgs = history_json [mkMessage SYSTEM sm; mkMessage USER prompt].

End Model.

(** ** A concrete runtime and store, to run the statements on *)

Definition demo_runtime : PyRuntime :=
  {| pyfloat := pystr;
     float_of_literal := fun s => s;
     float_repr := fun s => s;
     decode_wide := fun _ _ => Raise UnicodeDecodeError;
     unicode_isalnum := fun _ => false |}.

(** An empty store in which both files can be written. *)
Definition empty_store : @World demo_runtime :=
  @mkWorld demo_runtime None [] true true [].

(** A store whose snapshot is the single byte 0xFF. *)
Definition corrupt_store : @World demo_runtime :=
  @mkWorld demo_runtime (Some [0xFF]) [] true true [].

(** A model capability that always fails, and one that always answers. *)
Definition failing_client : @Client demo_runtime :=
  fun _ _ => Raise (ApiError 500).

Definition echo_client : @Client demo_runtime :=
  fun _ _ => Ok (str_of "ok").

(** A model capability that answers with one fenced block. *)
Definition fenced_reply_client : @Client demo_runtime :=
  fun _ _ => Ok (FENCE ++ str_of "plaintext" ++ [c_nl]
                 ++ str_of "corrected model" ++ [c_nl] ++ FENCE).

(** A template reader that finds an empty template. *)
Definition empty_template : pystr -> result (@json demo_runtime) :=
  fun _ => Ok (@JObj demo_runtime []).

(** A store in which neither file can be written. *)
Definition readonly_store : @World demo_runtime :=
  @mkWorld demo_runtime None [] false false [].

(** A store whose snapshot is the JSON document [{}]. *)
Definition dict_store : @World demo_runtime :=
  @mkWorld demo_runtime (Some [123; 125]) [] true true [].

(** Template readers: one that fails, one that finds a template that is
    not a dict, one whose correction context is not a dict. *)
Definition missing_template : pystr -> result (@json demo_runtime) :=
  fun _ => Raise IOError.

Definition null_template : pystr -> result (@json demo_runtime) :=
  fun _ => Ok (@JNull demo_runtime).

Definition flat_template : pystr -> result (@json demo_runtime) :=
  fun _ => Ok (@JObj demo_runtime
                 [(str_of "current_correction_context", @JNull demo_runtime)]).

(** A checkout in which every file holds the two characters of the JSON
    document [{}], and one in which they follow a byte order mark. *)
Definition demo_disk : pystr -> option bytes := fun _ => Some [123; 125].

Definition bom_disk : pystr -> option bytes :=
  fun _ => Some [0xEF; 0xBB; 0xBF; 123; 125].

Definition bom_store : @World demo_runtime :=
  @mkWorld demo_runtime (Some [0xEF; 0xBB; 0xBF; 123; 125]) [] true true [].

(** A user who confirms the spelling edit, reports one compilation error,
    confirms the grammar edit and then reports success. *)
Definition demo_answers : list answer :=
  [mkAnswer (str_of "y") demo_disk;
   mkAnswer (str_of "n") demo_disk;
   mkAnswer (str_of "line 4: syntax error") demo_disk;
   mkAnswer (str_of "maybe") demo_disk;
   mkAnswer (str_of "Y") demo_disk;
   mkAnswer (str_of "Y") demo_disk].

Definition demo_session : @Session demo_runtime :=
  @mkSession demo_runtime empty_store demo_disk demo_answers [].

Definition demo_session_corrupt : @Session demo_runtime :=
  @mkSession demo_runtime corrupt_store demo_disk demo_answers [].






(** A writable store whose snapshot is one Message, not a list. *)
Definition message_snapshot : bytes :=
  Eval vm_compute in
    match utf8_encode
            (@json_dumps demo_runtime 4
               (@message_dict demo_runtime
                  (mkMessage ASSISTANT (str_of "copied")))) with
    | Ok b => b
    | Raise _ => []
    end.

Definition message_store : @World demo_runtime :=
  @mkWorld demo_runtime (Some message_snapshot) [] true true [].


(** * Properties *)

Section Properties.
Context {RT : PyRuntime}.

(** ** Strings *)

Lemma str_eqb_eq (a b : pystr) : str_eqb a b = true <-> a = b.
Proof.
  revert b; induction a as [|x a IH]; intros [|y b]; simpl;
    try (split; [discriminate | discriminate]); try tauto.
  rewrite andb_true_iff, Z.eqb_eq, IH.
  split; [intros [-> ->]; reflexivity | intros H; inversion H; auto].
Qed.

Lemma str_eqb_refl (a : pystr) : str_eqb a a = true.
Proof. apply str_eqb_eq; reflexivity. Qed.

Lemma text_app (a b : pystr) : text a -> text b -> text (a ++ b).
Proof. unfold text; intros; apply Forall_app; auto. Qed.

Lemma text_cons (c : Z) (s : pystr) : scalar c -> text s -> text (c :: s).
Proof. unfold text; intros; constructor; auto. Qed.

Lemma scalar_ascii (c : Z) : 0 <= c < 128 -> scalar c.
Proof.
  intros H; split; [lia|].
  unfold is_surrogate. apply andb_false_iff; left. apply Z.leb_gt; lia.
Qed.

(** ** UTF-8 round trip *)

Ltac zbool :=
  repeat match goal with
         | |- context [(?a <=? ?b)] => destruct (Z.leb_spec a b); try lia
         | |- context [(?a <? ?b)] => destruct (Z.ltb_spec a b); try lia
         | |- context [(?a =? ?b)] => destruct (Z.eqb_spec a b); try lia
         end.

Lemma utf8_decode_1 (b0 : Z) (rest : bytes) :
  0 <= b0 < 0x80 ->
  utf8_decode (b0 :: rest) = cons_ok b0 (utf8_decode rest).
Proof. intros H. cbn [utf8_decode]. zbool. reflexivity. Qed.

Lemma utf8_decode_2 (b0 b1 : Z) (rest : bytes) :
  0xC2 <= b0 < 0xE0 -> 0x80 <= b1 < 0xC0 ->
  utf8_decode (b0 :: b1 :: rest)
  = cons_ok ((b0 - 0xC0) * 64 + (b1 - 0x80)) (utf8_decode rest).
Proof. intros H0 H1. cbn [utf8_decode]. unfold is_cont. zbool. reflexivity. Qed.

Lemma utf8_decode_3 (b0 b1 b2 : Z) (rest : bytes) :
  0xE0 <= b0 < 0xF0 -> 0x80 <= b1 < 0xC0 -> 0x80 <= b2 < 0xC0 ->
  0x800 <= (b0 - 0xE0) * 4096 + (b1 - 0x80) * 64 + (b2 - 0x80) ->
  utf8_decode (b0 :: b1 :: b2 :: rest)
  = cons_ok ((b0 - 0xE0) * 4096 + (b1 - 0x80) * 64 + (b2 - 0x80))
            (utf8_decode rest).
Proof.
  intros H0 H1 H2 H3. cbn [utf8_decode]. unfold is_cont. cbv zeta.
  zbool. reflexivity.
Qed.

Lemma utf8_decode_4 (b0 b1 b2 b3 : Z) (rest : bytes) :
  0xF0 <= b0 < 0xF5 -> 0x80 <= b1 < 0xC0 -> 0x80 <= b2 < 0xC0 ->
  0x80 <= b3 < 0xC0 ->
  0x10000 <= (b0 - 0xF0) * 262144 + (b1 - 0x80) * 4096
             + (b2 - 0x80) * 64 + (b3 - 0x80) < 0x110000 ->
  utf8_decode (b0 :: b1 :: b2 :: b3 :: rest)
  = cons_ok ((b0 - 0xF0) * 262144 + (b1 - 0x80) * 4096
             + (b2 - 0x80) * 64 + (b3 - 0x80))
            (utf8_decode rest).
Proof.
  intros H0 H1 H2 H3 H4. cbn [utf8_decode]. unfold is_cont. cbv zeta.
  zbool. reflexivity.
Qed.

Ltac some_inv :=
  let E := fresh "E" in
  intros E;
  match type of E with
  | Some ?x = Some ?y => assert (x = y) by congruence; subst y; clear E
  end.

Lemma utf8_decode_encode_char (c : Z) (bs rest : bytes) :
  utf8_encode_char c = Some bs ->
  utf8_decode (bs ++ rest) = cons_ok c (utf8_decode rest).
Proof.
  unfold utf8_encode_char.
  destruct (Z.ltb_spec c 0); [discriminate|].
  destruct (Z.ltb_spec c 0x80).
  { some_inv. cbn [app].
    apply utf8_decode_1; lia. }
  pose proof (Z.div_mod c 64 ltac:(lia)) as Hdm.
  pose proof (Z.mod_pos_bound c 64 ltac:(lia)) as Hm.
  destruct (Z.ltb_spec c 0x800).
  { some_inv. cbn [app].
    assert (2 <= c / 64 < 32)
      by (split; [apply Z.div_le_lower_bound | apply Z.div_lt_upper_bound]; lia).
    rewrite utf8_decode_2 by lia. f_equal. lia. }
  pose proof (Z.div_mod (c / 64) 64 ltac:(lia)) as Hdm2.
  pose proof (Z.mod_pos_bound (c / 64) 64 ltac:(lia)) as Hm2.
  assert (Hq : c / 4096 = c / 64 / 64)
    by (rewrite Z.div_div; [reflexivity|lia|lia]).
  destruct (Z.ltb_spec c 0x10000).
  { destruct (is_surrogate c) eqn:Hs; [discriminate|].
    some_inv. cbn [app].
    assert (0 <= c / 4096 < 16)
      by (split; [apply Z.div_pos | apply Z.div_lt_upper_bound]; lia).
    rewrite utf8_decode_3 by lia. f_equal. lia. }
  destruct (Z.ltb_spec c 0x110000); [|discriminate].
  some_inv. cbn [app].
  pose proof (Z.div_mod (c / 4096) 64 ltac:(lia)) as Hdm3.
  pose proof (Z.mod_pos_bound (c / 4096) 64 ltac:(lia)) as Hm3.
  assert (Hq2 : c / 262144 = c / 4096 / 64)
    by (rewrite Z.div_div; [reflexivity|lia|lia]).
  assert (0 <= c / 262144 < 5)
    by (split; [apply Z.div_pos | apply Z.div_lt_upper_bound]; lia).
  rewrite utf8_decode_4 by lia. f_equal. lia.
Qed.

Lemma utf8_encode_char_scalar (c : Z) :
  scalar c -> exists bs, utf8_encode_char c = Some bs.
Proof.
  intros [Hr Hs]. unfold utf8_encode_char. rewrite Hs.
  destruct (c <? 0) eqn:E0; [apply Z.ltb_lt in E0; lia|].
  destruct (c <? 128); [eauto|].
  destruct (c <? 2048); [eauto|].
  destruct (c <? 65536); [eauto|].
  destruct (c <? 1114112) eqn:E; [eauto|].
  apply Z.ltb_ge in E; lia.
Qed.

(** Text encodes, and what it encodes to decodes back. *)
Lemma utf8_roundtrip (s : pystr) :
  text s -> exists b, utf8_encode s = Ok b /\ utf8_decode b = Ok s.
Proof.
  induction 1 as [|c s Hc Hs IH].
  - exists []; split; reflexivity.
  - destruct IH as (b & Eb & Db).
    destruct (utf8_encode_char_scalar Hc) as (bs & Ec).
    exists (bs ++ b). split.
    + cbn [utf8_encode]. rewrite Ec, Eb. reflexivity.
    + rewrite (utf8_decode_encode_char _ _ Ec), Db. reflexivity.
Qed.

(** ** JSON strings: [scanstring] undoes [encode_basestring] *)

Lemma small_range (P : Z -> Prop) (n : nat) :
  Forall P (map Z.of_nat (seq 0 n)) ->
  forall c, 0 <= c < Z.of_nat n -> P c.
Proof.
  intros HF c Hc. rewrite Forall_forall in HF. apply HF.
  rewrite <- (Z2Nat.id c) by lia. apply in_map. apply in_seq. lia.
Qed.

Lemma hex4_control (c : Z) :
  0 <= c < 32 ->
  hex4 c_0 c_0 (hex_digit (c / 16)) (hex_digit (c mod 16)) = Some c.
Proof.
  apply (@small_range (fun c => hex4 c_0 c_0 (hex_digit (c / 16))
                                    (hex_digit (c mod 16)) = Some c) 32).
  repeat constructor.
Qed.

Lemma scanstring_uXXXX (a b c d u : Z) (rest : pystr) :
  hex4 a b c d = Some u ->
  is_high_surrogate u = false ->
  scanstring (c_backslash :: 117 :: a :: b :: c :: d :: rest)
  = cons_scanned u (scanstring rest).
Proof.
  intros Hh Hs. cbn [scanstring]. change (92 =? 34) with false.
  change (92 =? 92) with true. change (117 =? 117) with true.
  cbv iota. rewrite Hh, Hs. reflexivity.
Qed.

Lemma scanstring_plain (c : Z) (rest : pystr) :
  c <> c_quote -> c <> c_backslash -> 32 <= c ->
  scanstring (c :: rest) = cons_scanned c (scanstring rest).
Proof. intros H1 H2 H3. cbn [scanstring]. zbool. reflexivity. Qed.

Lemma scanstring_escape_char (c : Z) (rest : pystr) :
  0 <= c ->
  scanstring (escape_char c ++ rest) = cons_scanned c (scanstring rest).
Proof.
  intros Hc. unfold escape_char.
  destruct (Z.eqb_spec c c_quote) as [->|]; [reflexivity|].
  destruct (Z.eqb_spec c c_backslash) as [->|]; [reflexivity|].
  destruct (Z.eqb_spec c c_nl) as [->|]; [reflexivity|].
  destruct (Z.eqb_spec c c_cr) as [->|]; [reflexivity|].
  destruct (Z.eqb_spec c c_tab) as [->|]; [reflexivity|].
  destruct (Z.eqb_spec c c_bs) as [->|]; [reflexivity|].
  destruct (Z.eqb_spec c c_ff) as [->|]; [reflexivity|].
  destruct (Z.leb_spec 0 c); [|lia].
  destruct (Z.ltb_spec c 32); cbn [andb app].
  - apply scanstring_uXXXX; [apply hex4_control; lia|].
    unfold is_high_surrogate. zbool; reflexivity.
  - apply scanstring_plain; lia.
Qed.

Lemma scanstring_escape_str (s rest : pystr) :
  Forall (fun c => 0 <= c) s ->
  scanstring (escape_str s ++ c_quote :: rest) = Some (s, rest).
Proof.
  induction 1 as [|c s Hc Hs IH]; [reflexivity|].
  cbn [escape_str]. rewrite <- app_assoc.
  rewrite scanstring_escape_char by assumption. rewrite IH. reflexivity.
Qed.

Lemma text_nonneg (s : pystr) : text s -> Forall (fun c => 0 <= c) s.
Proof. apply Forall_impl. intros c [H _]. lia. Qed.

Lemma skip_ws_newline_indent (i l : nat) (s : pystr) :
  skip_ws (newline_indent i l ++ s) = skip_ws s.
Proof.
  unfold newline_indent. cbn [app skip_ws]. change (is_ws c_nl) with true. cbv iota.
  induction (i * l)%nat as [|n IH]; [reflexivity|].
  cbn [repeat app skip_ws]. change (is_ws c_space) with true. cbv iota. exact IH.
Qed.

Lemma scan_once_lbrace (f : nat) (t : pystr) :
  scan_once (S f) (c_lbrace :: t)
  = match skip_ws t with
    | c1 :: t1 =>
        if c1 =? c_rbrace then Scanned (JObj []) t1
        else parse_pairs f [] (c1 :: t1)
    | [] => ScanError
    end.
Proof. reflexivity. Qed.

Lemma scan_once_lbracket (f : nat) (t : pystr) :
  scan_once (S f) (c_lbracket :: t)
  = match skip_ws t with
    | c1 :: t1 =>
        if c1 =? c_rbracket then Scanned (JArr []) t1
        else parse_items f [] (c1 :: t1)
    | [] => ScanError
    end.
Proof. reflexivity. Qed.

Lemma scan_once_string (f : nat) (s rest : pystr) :
  Forall (fun c => 0 <= c) s ->
  scan_once (S f) (encode_basestring s ++ rest) = Scanned (JStr s) rest.
Proof.
  intros Hs. unfold encode_basestring. cbn [app scan_once].
  change (c_quote =? c_quote) with true. cbv iota.
  rewrite <- app_assoc. cbn [app].
  rewrite scanstring_escape_str by assumption. reflexivity.
Qed.

Lemma parse_pairs_step (f : nat) (acc : list (pystr * json))
    (key t r r1 r2 r3 : pystr) (v : json) (c2 : Z) :
  scanstring t = Some (key, r) ->
  skip_ws r = c_colon :: r1 ->
  scan_once f (skip_ws r1) = Scanned v r2 ->
  skip_ws r2 = c2 :: r3 ->
  parse_pairs (S f) acc (c_quote :: t)
  = if c2 =? c_rbrace
    then Scanned (JObj (dict_of_pairs (acc ++ [(key, v)]))) r3
    else if c2 =? c_comma
    then parse_pairs f (acc ++ [(key, v)]) (skip_ws r3)
    else ScanError.
Proof.
  intros H1 H2 H3 H4. cbn [parse_pairs].
  change (c_quote =? c_quote) with true. cbv iota.
  rewrite H1, H2. change (c_colon =? c_colon) with true. cbv iota.
  rewrite H3, H4. reflexivity.
Qed.

Lemma parse_items_step (f : nat) (acc : list json) (s r r1 : pystr)
    (v : json) (c : Z) :
  scan_once f s = Scanned v r ->
  skip_ws r = c :: r1 ->
  parse_items (S f) acc s
  = if c =? c_rbracket then Scanned (JArr (acc ++ [v])) r1
    else if c =? c_comma then parse_items f (acc ++ [v]) (skip_ws r1)
    else ScanError.
Proof.
  intros H1 H2. cbn [parse_items]. rewrite H1, H2. reflexivity.
Qed.

Lemma iterencode_message (level : nat) (m : Message) (rest : pystr) :
  iterencode 4 level (message_dict m) ++ rest
  = c_lbrace :: newline_indent 4 (S level)
    ++ encode_basestring K_ROLE ++ c_colon :: c_space
    :: encode_basestring (role m) ++ c_comma :: newline_indent 4 (S level)
    ++ encode_basestring K_CONTENT ++ c_colon :: c_space
    :: encode_basestring (content m) ++ newline_indent 4 level
    ++ c_rbrace :: rest.
Proof.
  unfold message_dict. cbn [iterencode map join].
  repeat (rewrite <- ?app_assoc; cbn [app]). reflexivity.
Qed.

Lemma text_K_ROLE : Forall (fun c => 0 <= c) K_ROLE.
Proof. repeat constructor; lia. Qed.

Lemma text_K_CONTENT : Forall (fun c => 0 <= c) K_CONTENT.
Proof. repeat constructor; lia. Qed.

Lemma skip_ws_quote (s : pystr) : skip_ws (c_quote :: s) = c_quote :: s.
Proof. reflexivity. Qed.

Lemma scan_once_message (f level : nat) (m : Message) (rest : pystr) :
  wf_message m ->
  scan_once (4 + f) (iterencode 4 level (message_dict m) ++ rest)
  = Scanned (message_dict m) rest.
Proof.
  intros [Hr Hc]. apply text_nonneg in Hr, Hc.
  rewrite iterencode_message. cbn [Nat.add].
  rewrite scan_once_lbrace, skip_ws_newline_indent.
  unfold encode_basestring at 1. cbn [app skip_ws].
  change (is_ws c_quote) with false. cbv iota.
  change (c_quote =? c_rbrace) with false. cbv iota.
  rewrite <- app_assoc. cbn [app].
  erewrite parse_pairs_step;
    [ | apply scanstring_escape_str, text_K_ROLE
      | reflexivity
      | cbn [skip_ws]; change (is_ws c_space) with true; cbv iota;
        unfold encode_basestring at 1; cbn [app skip_ws];
        change (is_ws c_quote) with false; cbv iota;
        rewrite <- app_assoc; cbn [app];
        cbn [scan_once]; change (c_quote =? c_quote) with true; cbv iota;
        rewrite scanstring_escape_str by assumption; reflexivity
      | reflexivity ].
  change (c_comma =? c_rbrace) with false.
  change (c_comma =? c_comma) with true. cbv iota.
  rewrite skip_ws_newline_indent.
  unfold encode_basestring at 1. cbn [app skip_ws].
  change (is_ws c_quote) with false. cbv iota.
  rewrite <- app_assoc. cbn [app].
  erewrite parse_pairs_step;
    [ | apply scanstring_escape_str, text_K_CONTENT
      | reflexivity
      | cbn [skip_ws]; change (is_ws c_space) with true; cbv iota;
        unfold encode_basestring at 1; cbn [app skip_ws];
        change (is_ws c_quote) with false; cbv iota;
        rewrite <- app_assoc; cbn [app];
        cbn [scan_once]; change (c_quote =? c_quote) with true; cbv iota;
        rewrite scanstring_escape_str by assumption; reflexivity
      | rewrite skip_ws_newline_indent; reflexivity ].
  reflexivity.
Qed.

Lemma encode_items_head (m : Message) (ms : list Message) (rest : pystr) :
  exists tl, encode_items (m :: ms) ++ rest = c_lbrace :: tl.
Proof.
  unfold encode_items. cbn [map join].
  destruct (map (iterencode 4 1) (map message_dict ms)).
  - rewrite iterencode_message. eauto.
  - rewrite <- app_assoc. rewrite iterencode_message. eauto.
Qed.

Lemma encode_items_cons (m m2 : Message) (ms : list Message) :
  encode_items (m :: m2 :: ms)
  = iterencode 4 1 (message_dict m) ++ item_sep ++ encode_items (m2 :: ms).
Proof. reflexivity. Qed.

Lemma encode_items_length (m : Message) (ms : list Message) :
  (length ms < length (encode_items (m :: ms)))%nat.
Proof.
  revert m; induction ms as [|m2 ms IH]; intros m.
  - unfold encode_items. cbn [map join]. rewrite <- (app_nil_r (iterencode _ _ _)).
    rewrite iterencode_message. cbn [length]. lia.
  - rewrite encode_items_cons. rewrite !length_app. specialize (IH m2).
    unfold item_sep. cbn [length]. lia.
Qed.

Lemma parse_items_messages (ms : list Message) :
  forall (m : Message) (f : nat) (acc : list json) (rest : pystr),
    Forall wf_message (m :: ms) ->
    parse_items (5 + length ms + f) acc
      (encode_items (m :: ms) ++ newline_indent 4 0 ++ c_rbracket :: rest)
    = Scanned (JArr (acc ++ map message_dict (m :: ms))) rest.
Proof.
  induction ms as [|m2 ms IH]; intros m f acc rest Hwf.
  - inversion Hwf as [|? ? Hm _]; subst.
    unfold encode_items. cbn [map join length Nat.add].
    erewrite parse_items_step;
      [ | apply (scan_once_message f 1 _ Hm)
        | rewrite skip_ws_newline_indent; reflexivity ].
    reflexivity.
  - inversion Hwf as [|? ? Hm Hrest]; subst.
    rewrite encode_items_cons. rewrite <- !app_assoc.
    cbn [length]. replace (5 + S (length ms) + f)%nat
      with (S (4 + (1 + length ms + f)))%nat by lia.
    erewrite parse_items_step;
      [ | apply (scan_once_message _ 1 _ Hm)
        | unfold item_sep; reflexivity ].
    change (c_comma =? c_rbracket) with false.
    change (c_comma =? c_comma) with true. cbv iota.
    rewrite skip_ws_newline_indent.
    destruct (encode_items_head m2 ms
                (newline_indent 4 0 ++ c_rbracket :: rest)) as (tl & Etl).
    rewrite Etl. change (skip_ws (c_lbrace :: tl)) with (c_lbrace :: tl).
    rewrite <- Etl.
    replace (4 + (1 + length ms + f))%nat with (5 + length ms + f)%nat by lia.
    rewrite IH by assumption.
    rewrite <- app_assoc. reflexivity.
Qed.

Lemma json_dumps_history_cons (m : Message) (ms : list Message) :
  json_dumps 4 (history_json (m :: ms))
  = c_lbracket :: c_nl :: repeat c_space 4
    ++ encode_items (m :: ms) ++ newline_indent 4 0 ++ [c_rbracket].
Proof. reflexivity. Qed.

(** [json.loads(json.dumps(H, indent=4))] gives [H] back, on strings. *)
Lemma json_decode_dumps_history (h : list Message) :
  Forall wf_message h ->
  json_decode (json_dumps 4 (history_json h)) = Ok (history_json h).
Proof.
  intros Hwf. destruct h as [|m ms]; [reflexivity|].
  rewrite json_dumps_history_cons. unfold json_decode.
  set (s := c_lbracket :: c_nl :: repeat c_space 4 ++ encode_items (m :: ms)
            ++ newline_indent 4 0 ++ [c_rbracket]).
  assert (Hlen : (5 + length ms <= 2 * length s + 1)%nat).
  { subst s. cbn [length]. rewrite !length_app.
    pose proof (encode_items_length m ms). lia. }
  replace (2 * length s + 2)%nat
    with (S (5 + length ms + (2 * length s + 1 - (5 + length ms))))%nat by lia.
  subst s. change (skip_ws (c_lbracket :: ?t)) with (c_lbracket :: t).
  rewrite scan_once_lbracket.
  change (c_nl :: repeat c_space 4 ++ ?t) with (newline_indent 4 1 ++ t).
  rewrite skip_ws_newline_indent.
  destruct (encode_items_head m ms (newline_indent 4 0 ++ [c_rbracket]))
    as (tl & Etl).
  rewrite Etl. change (skip_ws (c_lbrace :: tl)) with (c_lbrace :: tl).
  change (c_lbrace =? c_rbracket) with false. cbv iota.
  rewrite <- Etl. rewrite parse_items_messages by assumption.
  reflexivity.
Qed.

(** ** Dumped Histories are text, and are detected as UTF-8 *)

Lemma text_nil : text [].
Proof. constructor. Qed.

Ltac ascii_text :=
  repeat (apply text_cons; [apply scalar_ascii; lia|]); try apply text_nil.

Lemma text_repeat_space (n : nat) : text (repeat c_space n).
Proof.
  induction n; [constructor|].
  apply text_cons; [apply scalar_ascii; lia | assumption].
Qed.

Lemma text_newline_indent (i l : nat) : text (newline_indent i l).
Proof.
  apply text_cons; [apply scalar_ascii; lia | apply text_repeat_space].
Qed.

Lemma hex_digit_ascii (d : Z) : 0 <= d < 16 -> 0 <= hex_digit d < 128.
Proof. intros H. unfold hex_digit. destruct (d <? 10); lia. Qed.

Lemma text_escape_char (c : Z) : scalar c -> text (escape_char c).
Proof.
  intros Hc. unfold escape_char.
  destruct (c =? c_quote); [ascii_text|].
  destruct (c =? c_backslash); [ascii_text|].
  destruct (c =? c_nl); [ascii_text|].
  destruct (c =? c_cr); [ascii_text|].
  destruct (c =? c_tab); [ascii_text|].
  destruct (c =? c_bs); [ascii_text|].
  destruct (c =? c_ff); [ascii_text|].
  destruct ((0 <=? c) && (c <? 32)) eqn:E.
  - apply andb_true_iff in E as [H0 H32].
    apply Z.leb_le in H0. apply Z.ltb_lt in H32.
    assert (H1 : 0 <= c / 16 < 16)
      by (split; [apply Z.div_pos | apply Z.div_lt_upper_bound]; lia).
    assert (H2 : 0 <= c mod 16 < 16) by (apply Z.mod_pos_bound; lia).
    apply hex_digit_ascii in H1, H2.
    ascii_text.
  - apply text_cons; [assumption | constructor].
Qed.

Lemma text_escape_str (s : pystr) : text s -> text (escape_str s).
Proof.
  induction 1 as [|c s Hc Hs IH]; [constructor|].
  cbn [escape_str]. apply text_app; [apply text_escape_char|]; assumption.
Qed.

Lemma text_encode_basestring (s : pystr) : text s -> text (encode_basestring s).
Proof.
  intros Hs. unfold encode_basestring.
  apply text_cons; [apply scalar_ascii; lia|].
  apply text_app; [apply text_escape_str; assumption|].
  ascii_text.
Qed.

Lemma text_K_ROLE' : text K_ROLE.
Proof. ascii_text. Qed.

Lemma text_K_CONTENT' : text K_CONTENT.
Proof. ascii_text. Qed.

Lemma text_iterencode_message (level : nat) (m : Message) :
  wf_message m -> text (iterencode 4 level (message_dict m)).
Proof.
  intros [Hr Hc].
  rewrite <- (app_nil_r (iterencode _ _ _)), iterencode_message.
  repeat first
    [ apply text_app; [first [ apply text_newline_indent
                             | apply text_encode_basestring;
                               first [ assumption | apply text_K_ROLE'
                                     | apply text_K_CONTENT' ] ]|]
    | apply text_cons; [apply scalar_ascii; lia|] ].
  apply text_nil.
Qed.

Lemma text_encode_items (ms : list Message) :
  Forall wf_message ms -> text (encode_items ms).
Proof.
  induction 1 as [|m ms Hm Hms IH]; [constructor|].
  destruct ms as [|m2 ms].
  - apply text_iterencode_message; assumption.
  - rewrite encode_items_cons.
    apply text_app; [apply text_iterencode_message; assumption|].
    apply text_app; [|assumption].
    apply text_cons; [apply scalar_ascii; lia | apply text_newline_indent].
Qed.

Lemma text_dumps_history (h : list Message) :
  Forall wf_message h -> text (json_dumps 4 (history_json h)).
Proof.
  intros Hwf. destruct h as [|m ms].
  - change (text [c_lbracket; c_rbracket]). ascii_text.
  - rewrite json_dumps_history_cons.
    do 2 (apply text_cons; [apply scalar_ascii; lia|]).
    apply text_app; [apply text_repeat_space|].
    apply text_app; [apply text_encode_items; assumption|].
    apply text_app; [apply text_newline_indent|].
    ascii_text.
Qed.

Lemma text_log_entry (m : Message) :
  wf_message m -> text (log_entry (message_dict m)).
Proof.
  intros Hm. unfold log_entry, json_dumps.
  apply text_app; [apply text_iterencode_message; assumption|].
  ascii_text.
Qed.

Lemma utf8_encode_ascii_cons (c : Z) (s : pystr) (b : bytes) :
  0 <= c < 128 -> utf8_encode (c :: s) = Ok b ->
  exists b', b = c :: b' /\ utf8_encode s = Ok b'.
Proof.
  intros Hc. cbn [utf8_encode]. unfold utf8_encode_char.
  destruct (Z.ltb_spec c 0); [lia|]. destruct (Z.ltb_spec c 128); [|lia].
  destruct (utf8_encode s) as [b'|e]; [|discriminate].
  intros E. exists b'. split; [injection E as <-; reflexivity | reflexivity].
Qed.

Lemma detect_encoding_bracket (b1 : Z) (rest : bytes) :
  b1 <> 0 -> detect_encoding (c_lbracket :: b1 :: rest) = UTF8.
Proof.
  intros H1. unfold detect_encoding. cbn [starts_with].
  change (0 =? 91) with false. change (255 =? 91) with false.
  change (254 =? 91) with false. change (239 =? 91) with false.
  cbn [andb orb byte_at nth].
  change (91 =? 0) with false. cbv iota.
  destruct (Z.eqb_spec b1 0); [contradiction|].
  destruct (Nat.leb _ _); [reflexivity|].
  destruct (Nat.eqb _ _); reflexivity.
Qed.

(** [json.loads] undoes [json.dumps(..., indent=4).encode('utf-8')] on a
    well-formed History. *)
Lemma json_loads_dumps_history (h : list Message) :
  Forall wf_message h ->
  exists b, utf8_encode (json_dumps 4 (history_json h)) = Ok b
            /\ json_loads b = Ok (history_json h).
Proof.
  intros Hwf.
  destruct (utf8_roundtrip (text_dumps_history Hwf)) as (b & Eb & Db).
  exists b. split; [assumption|].
  unfold json_loads.
  assert (Hd : detect_encoding b = UTF8).
  { destruct h as [|m ms].
    - cbv in Eb. inversion Eb. reflexivity.
    - rewrite json_dumps_history_cons in Eb.
      apply utf8_encode_ascii_cons in Eb as (b1 & -> & Eb); [|lia].
      apply utf8_encode_ascii_cons in Eb as (b2 & -> & Eb); [|lia].
      apply detect_encoding_bracket. lia. }
  rewrite Hd. cbn [bytes_decode]. rewrite Db.
  apply json_decode_dumps_history. assumption.
Qed.

(** ** Running the history store *)

Lemma bind_ok {A B} (m : M A) (f : A -> M B) (w w' : World) (a : A) :
  m w = (Ok a, w') -> bind m f w = f a w'.
Proof. intros H. unfold bind. rewrite H. reflexivity. Qed.

Lemma bind_raise {A B} (m : M A) (f : A -> M B) (w w' : World) (e : exn) :
  m w = (Raise e, w') -> bind m f w = (Raise e, w').
Proof. intros H. unfold bind. rewrite H. reflexivity. Qed.

Lemma load_chat_history_present (w : World) (b : bytes) (v : json) :
  record_file w = Some b -> json_loads b = Ok v ->
  load_chat_history w = (Ok v, w).
Proof.
  intros Hf Hl. unfold load_chat_history, bind, record_exists, read_record,
    try_except, lift.
  rewrite Hf. cbn [negb]. cbv beta iota. rewrite Hf. rewrite Hl. reflexivity.
Qed.

Lemma save_chat_history_ok (v : json) (b : bytes) (w : World) :
  record_writable w = true ->
  utf8_encode (json_dumps 4 v) = Ok b ->
  save_chat_history v w
  = (Ok tt, mkWorld (Some b) (log_file w) (record_writable w) (log_writable w)
                    (trace w ++ [EvRecordWrite b])).
Proof.
  intros Hw He. unfold save_chat_history, try_except, bind, open_record_wb,
    lift, write_record.
  rewrite Hw, He. cbv beta iota. rewrite ?Hw. reflexivity.
Qed.

Lemma log_message_ok (v : json) (b : bytes) (w : World) :
  log_writable w = true ->
  utf8_encode (log_entry v) = Ok b ->
  log_message v w
  = (Ok tt, mkWorld (record_file w) (log_file w ++ b) (record_writable w)
                    (log_writable w) (trace w ++ [EvLogAppend b])).
Proof.
  intros Hw He. unfold log_message, try_except, bind, open_log_append,
    lift, append_log.
  rewrite Hw, He. cbv beta iota. rewrite ?Hw. reflexivity.
Qed.

Lemma save_chat_history_unwritable (v : json) (w : World) :
  record_writable w = false ->
  save_chat_history v w
  = (Ok tt, mkWorld (record_file w) (log_file w) (record_writable w)
                    (log_writable w) (trace w ++ [EvPrint ErrSaveHistory])).
Proof.
  intros Hw. unfold save_chat_history, try_except, bind, open_record_wb,
    print, emit.
  rewrite Hw. cbv beta iota. cbn [is_IOError]. rewrite ?Hw. reflexivity.
Qed.

Lemma log_message_unwritable (v : json) (w : World) :
  log_writable w = false ->
  log_message v w
  = (Ok tt, mkWorld (record_file w) (log_file w) (record_writable w)
                    (log_writable w) (trace w ++ [EvPrint ErrLogMessage])).
Proof.
  intros Hw. unfold log_message, try_except, bind, open_log_append,
    print, emit.
  rewrite Hw. cbv beta iota. cbn [is_IOError]. rewrite ?Hw. reflexivity.
Qed.

Lemma text_encodes (s : pystr) : text s -> exists b, utf8_encode s = Ok b.
Proof. intros H. destruct (utf8_roundtrip H) as (b & E & _). eauto. Qed.

Lemma history_json_app (h : list Message) (m : Message) :
  list_append (history_json h) (message_dict m) = Ok (history_json (h ++ [m])).
Proof. unfold history_json. rewrite map_app. reflexivity. Qed.

Lemma text_FALLBACK : text FALLBACK.
Proof. ascii_text. Qed.

Lemma text_USER : text USER.
Proof. ascii_text. Qed.

Lemma text_ASSISTANT : text ASSISTANT.
Proof. ascii_text. Qed.

Lemma text_SYSTEM : text SYSTEM.
Proof. ascii_text. Qed.

Lemma attempt_call_llm_api (client : Client) (model : pystr) (msgs : json)
    (w : World) :
  attempt (call_llm_api client model msgs) w
  = (Ok (client model msgs),
     mkWorld (record_file w) (log_file w) (record_writable w) (log_writable w)
             (trace w ++ [EvLlmCall model msgs]
              ++ match client model msgs with
                 | Ok _ => []
                 | Raise e => [EvPrint (ErrLlmCall e)]
                 end)).
Proof.
  unfold attempt, call_llm_api, try_except, bind, emit, lift, print, raise.
  cbn [trace record_file log_file record_writable log_writable].
  destruct (client model msgs) as [s|e]; unfold emit;
    cbn [trace record_file log_file record_writable log_writable];
    rewrite <- ?app_assoc; reflexivity.
Qed.

Ltac proj_world :=
  cbn [trace record_file log_file record_writable log_writable].

Ltac step_log :=
  first [ erewrite bind_ok
            by (apply log_message_ok; [eassumption | eassumption])
        | erewrite bind_ok by (apply log_message_unwritable; eassumption) ].

Ltac step_save :=
  first [ erewrite bind_ok
            by (apply save_chat_history_ok; [eassumption | eassumption])
        | erewrite bind_ok by (apply save_chat_history_unwritable; eassumption) ].

Ltac step_pure := unfold lift at 1; erewrite bind_ok by reflexivity.

(** What one turn of [chat] does when the starting History is well-formed
    and the prompt and the reply are text: [bu] and [ba] are the log
    entries of the two Messages and [bh] the new snapshot. *)
Lemma chat_run (client : Client) (model prompt : pystr) (uih : bool)
    (sm : option pystr) (w w0 : World) (h : list Message) :
  starting_history uih sm w = (Ok (history_json h), w0) ->
  Forall wf_message h ->
  text prompt ->
  let u := mkMessage USER prompt in
  let outcome := client model (history_json (h ++ [u])) in
  (forall s, outcome = Ok s -> text s) ->
  let a := mkMessage ASSISTANT (reply_content outcome) in
  exists bu ba bh,
    utf8_encode (log_entry (message_dict u)) = Ok bu
    /\ utf8_encode (log_entry (message_dict a)) = Ok ba
    /\ utf8_encode (json_dumps 4 (history_json (h ++ [u; a]))) = Ok bh
    /\ json_loads bh = Ok (history_json (h ++ [u; a]))
    /\ chat client model prompt uih sm w
       = (Ok (message_dict u, message_dict a),
          mkWorld (if record_writable w0 then Some bh else record_file w0)
                  (if log_writable w0 then log_file w0 ++ bu ++ ba
                   else log_file w0)
                  (record_writable w0) (log_writable w0)
                  (trace w0
                   ++ [log_event w0 bu;
                       EvLlmCall model (history_json (h ++ [u]))]
                   ++ turn_tail w0 outcome ba bh)).
Proof.
  intros Hstart Hh Hp u outcome Hreply a.
  assert (Hu : wf_message u) by (split; [apply text_USER | assumption]).
  assert (Ha : wf_message a).
  { split; [apply text_ASSISTANT|]. unfold a, reply_content. cbn [content].
    destruct outcome as [s|e] eqn:Eo; [apply Hreply; reflexivity|].
    apply text_FALLBACK. }
  assert (Hfin : Forall wf_message (h ++ [u; a])).
  { apply Forall_app; split; [assumption|].
    apply Forall_cons; [assumption|]. apply Forall_cons; [assumption|].
    apply Forall_nil. }
  destruct (text_encodes (text_log_entry Hu)) as (bu & Ebu).
  destruct (text_encodes (text_log_entry Ha)) as (ba & Eba).
  destruct (json_loads_dumps_history Hfin) as (bh & Ebh & Lbh).
  exists bu, ba, bh. repeat (split; [assumption|]).
  assert (Happ : forall x, list_append (history_json (h ++ [u])) (message_dict x)
                           = Ok (history_json (h ++ [u; x]))).
  { intros x. rewrite history_json_app, <- app_assoc. reflexivity. }
  unfold chat. fold (starting_history uih sm).
  rewrite (bind_ok _ _ _ Hstart).
  change (create_message_dict USER prompt) with (Ok (message_dict u)).
  step_pure.
  unfold turn_tail; unfold log_event, save_event.
  destruct (record_writable w0) eqn:Hrw, (log_writable w0) eqn:Hlw;
    step_log; rewrite history_json_app; step_pure;
    (erewrite bind_ok by (apply attempt_call_llm_api));
    fold outcome; unfold a, reply_content in *; proj_world;
    destruct outcome as [s|e];
    [ change (create_message_dict ASSISTANT s)
        with (Ok (message_dict (mkMessage ASSISTANT s)));
      step_pure; rewrite Happ; step_pure; step_save; step_log
    | erewrite bind_ok by reflexivity; proj_world;
      change (create_message_dict ASSISTANT FALLBACK)
        with (Ok (message_dict (mkMessage ASSISTANT FALLBACK)));
      step_pure; step_log; rewrite Happ; step_pure; step_save
    | change (create_message_dict ASSISTANT s)
        with (Ok (message_dict (mkMessage ASSISTANT s)));
      step_pure; rewrite Happ; step_pure; step_save; step_log
    | erewrite bind_ok by reflexivity; proj_world;
      change (create_message_dict ASSISTANT FALLBACK)
        with (Ok (message_dict (mkMessage ASSISTANT FALLBACK)));
      step_pure; step_log; rewrite Happ; step_pure; step_save
    | change (create_message_dict ASSISTANT s)
        with (Ok (message_dict (mkMessage ASSISTANT s)));
      step_pure; rewrite Happ; step_pure; step_save; step_log
    | erewrite bind_ok by reflexivity; proj_world;
      change (create_message_dict ASSISTANT FALLBACK)
        with (Ok (message_dict (mkMessage ASSISTANT FALLBACK)));
      step_pure; step_log; rewrite Happ; step_pure; step_save
    | change (create_message_dict ASSISTANT s)
        with (Ok (message_dict (mkMessage ASSISTANT s)));
      step_pure; rewrite Happ; step_pure; step_save; step_log
    | erewrite bind_ok by reflexivity; proj_world;
      change (create_message_dict ASSISTANT FALLBACK)
        with (Ok (message_dict (mkMessage ASSISTANT FALLBACK)));
      step_pure; step_log; rewrite Happ; step_pure; step_save ];
    unfold ret; proj_world; rewrite ?Hrw, ?Hlw;
    rewrite <- ?app_assoc; reflexivity.
Qed.

(** ** The message model *)

Lemma existsb_str_eqb (r : pystr) (l : list pystr) :
  existsb (str_eqb r) l = true <-> In r l.
Proof.
  rewrite existsb_exists. split.
  - intros (x & Hin & Heq). apply str_eqb_eq in Heq. subst. assumption.
  - intros Hin. exists r. split; [assumption | apply str_eqb_refl].
Qed.

Lemma create_message_dict_valid (r c : pystr) :
  In r [USER; ASSISTANT; SYSTEM] ->
  create_message_dict r c = Ok (message_dict (mkMessage r c)).
Proof.
  intros Hin. unfold create_message_dict.
  apply existsb_str_eqb in Hin. rewrite Hin. reflexivity.
Qed.

Lemma create_message_dict_invalid (r c : pystr) :
  ~ In r [USER; ASSISTANT; SYSTEM] ->
  create_message_dict r c = Raise InvalidRole.
Proof.
  intros Hin. unfold create_message_dict.
  destruct (existsb (str_eqb r) [USER; ASSISTANT; SYSTEM]) eqn:E;
    [|reflexivity].
  apply existsb_str_eqb in E. contradiction.
Qed.

Lemma field_role (m : Message) : field K_ROLE (message_dict m) = Some (role m).
Proof. reflexivity. Qed.

Lemma field_content (m : Message) :
  field K_CONTENT (message_dict m) = Some (content m).
Proof. reflexivity. Qed.

(** C8: for each of the three roles and any content, including the empty
    string, [create_message_dict] returns the Message whose role and
    content fields are the inputs; for any other role it raises the
    invalid-role [ValueError]; it raises nothing else. *)
Theorem create_message_dict_spec (r c : pystr) :
  (In r [SYSTEM; USER; ASSISTANT] ->
   exists m, create_message_dict r c = Ok m
             /\ field K_ROLE m = Some r /\ field K_CONTENT m = Some c)
  /\ (~ In r [SYSTEM; USER; ASSISTANT] ->
      create_message_dict r c = Raise InvalidRole)
  /\ (forall e, create_message_dict r c = Raise e ->
                e = InvalidRole /\ ~ In r [SYSTEM; USER; ASSISTANT]).
Proof.
  assert (Hperm : In r [SYSTEM; USER; ASSISTANT] <-> In r [USER; ASSISTANT; SYSTEM])
    by (cbn [In]; tauto).
  split; [|split].
  - intros Hin. exists (message_dict (mkMessage r c)).
    split; [apply create_message_dict_valid; tauto|].
    split; reflexivity.
  - intros Hin. apply create_message_dict_invalid. tauto.
  - intros e He.
    destruct (in_dec (list_eq_dec Z.eq_dec) r [USER; ASSISTANT; SYSTEM])
      as [Hin|Hin].
    + rewrite (create_message_dict_valid c Hin) in He. discriminate.
    + rewrite (create_message_dict_invalid c Hin) in He.
      split; [congruence | tauto].
Qed.

(** ** Resetting the History *)

Lemma dict_has_get (k : pystr) (d : list (pystr * json)) :
  dict_has k d = true <-> exists v, dict_get k d = Some v.
Proof.
  induction d as [|[k' v'] d IH]; cbn [dict_has dict_get].
  - split; [discriminate | intros (v & Hv); discriminate].
  - destruct (str_eqb k k'); cbn [orb]; [|exact IH].
    split; [eauto | reflexivity].
Qed.

Lemma message_shaped_spec (v : json) :
  message_shaped v = true <-> message_shape v.
Proof.
  unfold message_shape. destruct v; cbn [message_shaped];
    try (split; [discriminate | intros (d & x & y & Hd & _); discriminate]).
  rewrite andb_true_iff, !dict_has_get. split.
  - intros [(x & Hx) (y & Hy)]. eauto 7.
  - intros (d & x & y & Hd & Hx & Hy). injection Hd as <-. eauto.
Qed.

Lemma valid_seed_spec (v : json) :
  negb (isinstance_list v) || negb (forallb message_shaped (items_of v)) = false
  <-> valid_seed v.
Proof.
  unfold valid_seed. rewrite orb_false_iff, !negb_false_iff. split.
  - intros [Hl Hall]. destruct v; try discriminate.
    exists items. split; [reflexivity|].
    cbn [items_of] in Hall. rewrite forallb_forall in Hall.
    apply Forall_forall. intros m Hm. apply message_shaped_spec. auto.
  - intros (items & -> & Hall). split; [reflexivity|].
    cbn [items_of]. apply forallb_forall. rewrite Forall_forall in Hall.
    intros m Hm. apply message_shaped_spec. auto.
Qed.

Lemma initialize_chat_history_valid (seed : json) (w : World) (b : bytes) :
  valid_seed (seed_or_default seed) ->
  record_writable w = true ->
  utf8_encode (json_dumps 4 (seed_or_default seed)) = Ok b ->
  initialize_chat_history seed w
  = (Ok tt,
     mkWorld (Some b) (log_file w) (record_writable w) (log_writable w)
             (trace w ++ [EvRecordWrite b;
                          EvPrint (HistoryInitialized
                                     (length (items_of (seed_or_default seed))))])).
Proof.
  intros Hv Hw He. unfold initialize_chat_history.
  fold (seed_or_default seed).
  apply valid_seed_spec in Hv. rewrite Hv.
  erewrite bind_ok by (apply save_chat_history_ok; eassumption).
  unfold print, emit. proj_world. rewrite <- app_assoc. reflexivity.
Qed.


(** ** The history store *)

Lemma starting_history_world (uih : bool) (sm : option pystr) (w w0 : World)
    (r : result json) :
  starting_history uih sm w = (r, w0) ->
  record_file w0 = record_file w /\ log_file w0 = log_file w
  /\ record_writable w0 = record_writable w
  /\ log_writable w0 = log_writable w
  /\ (trace w0 = trace w \/ trace w0 = trace w ++ [EvPrint WarnCorruptHistory]).
Proof.
  unfold starting_history. destruct uih.
  - unfold lift. intros [= _ <-]. tauto.
  - unfold load_chat_history, bind, record_exists, read_record, try_except,
      lift, print, emit, ret.
    destruct (record_file w) as [b|] eqn:Hf; cbn [negb].
    + rewrite Hf. destruct (json_loads b) as [v|e].
      * intros [= _ <-]. tauto.
      * destruct (is_JSONDecodeError e).
        -- intros [= _ <-]. proj_world. tauto.
        -- intros [= _ <-]. tauto.
    + intros [= _ <-]. tauto.
Qed.


Lemma load_chat_history_corrupt (w : World) (b : bytes) :
  record_file w = Some b -> json_loads b = Raise JSONDecodeError ->
  load_chat_history w
  = (Ok (JArr []),
     mkWorld (record_file w) (log_file w) (record_writable w) (log_writable w)
             (trace w ++ [EvPrint WarnCorruptHistory])).
Proof.
  intros Hf Hl. unfold load_chat_history, bind, record_exists, read_record,
    try_except, lift, print, emit, ret.
  rewrite Hf. cbn [negb]. cbv beta iota. rewrite Hf, Hl.
  cbn [is_JSONDecodeError]. rewrite ?Hf. reflexivity.
Qed.

Lemma load_chat_history_raises (w : World) (b : bytes) (e : exn) :
  record_file w = Some b -> json_loads b = Raise e ->
  is_JSONDecodeError e = false ->
  load_chat_history w = (Raise e, w).
Proof.
  intros Hf Hl He. unfold load_chat_history, bind, record_exists, read_record,
    try_except, lift.
  rewrite Hf. cbn [negb]. cbv beta iota. rewrite Hf, Hl, He. reflexivity.
Qed.

(** C4: a snapshot holding the single byte 0xFF is not valid JSON, yet
    [load_chat_history] raises [UnicodeDecodeError] on it instead of
    returning the empty History. *)
Theorem load_chat_history_invalid_utf8_raises (w : World) :
  record_file w = Some [0xFF] ->
  load_chat_history w = (Raise UnicodeDecodeError, w).
Proof.
  intros Hf. apply load_chat_history_raises with (b := [0xFF]);
    [assumption | reflexivity | reflexivity].
Qed.

(** ** The conversation session *)


Lemma persisted_after_write (w : World) (b : bytes) (v : json) :
  record_file w = Some b -> json_loads b = Ok v -> persisted w v.
Proof.
  intros Hf Hl. unfold persisted.
  rewrite (load_chat_history_present _ Hf Hl). reflexivity.
Qed.

(** ** The response extractor *)

Lemma starts_with_app (p s : pystr) : starts_with p (p ++ s) = true.
Proof.
  induction p as [|x p IH]; [reflexivity|].
  cbn [app starts_with]. rewrite Z.eqb_refl. exact IH.
Qed.

Lemma starts_with_split (p s : pystr) :
  starts_with p s = true -> s = p ++ skipn (length p) s.
Proof.
  revert s; induction p as [|x p IH]; intros s; [reflexivity|].
  destruct s as [|y s]; cbn [starts_with]; [discriminate|].
  intros H. apply andb_true_iff in H as [Hxy Hp].
  apply Z.eqb_eq in Hxy. subst y. cbn [length skipn app].
  f_equal. apply IH. exact Hp.
Qed.

Lemma rmatch_fence (A : Type) (t : pystr) (g : option pystr)
    (k : pystr -> option pystr -> option A) :
  rmatch r_fence t g k = if starts_with FENCE t then k (skipn 3 t) g else None.
Proof.
  unfold r_fence, FENCE. cbn [rmatch in_class starts_with].
  destruct t as [|a [|b [|c t]]]; cbn [skipn];
    rewrite ?(Z.eqb_sym c_backtick);
    repeat match goal with
           | |- context [?x =? c_backtick] => destruct (x =? c_backtick)
           end; reflexivity.
Qed.

Lemma find_fence_sound (s b p : pystr) :
  find_fence s = Some (b, p) -> s = b ++ FENCE ++ p.
Proof.
  revert b p; induction s as [|c t IH]; intros b p.
  - cbn. discriminate.
  - cbn [find_fence].
    destruct (starts_with FENCE (c :: t)) eqn:E.
    + intros [= <- <-]. apply (starts_with_split FENCE _ E).
    + destruct (find_fence t) as [[b' p']|]; [|discriminate].
      intros [= <- <-]. cbn [app]. f_equal. apply IH. reflexivity.
Qed.

Lemma find_fence_complete (b p : pystr) :
  exists b' p', find_fence (b ++ FENCE ++ p) = Some (b', p')
                /\ (length b' <= length b)%nat.
Proof.
  induction b as [|c b IH].
  - exists [], p. split; [|cbn; lia].
    cbn [app]. destruct p; reflexivity.
  - cbn [app find_fence].
    destruct (starts_with FENCE (c :: b ++ FENCE ++ p)).
    + eexists _, _. split; [reflexivity | cbn; lia].
    + destruct IH as (b' & p' & -> & Hlen).
      eexists _, _. split; [reflexivity | cbn [length]; lia].
Qed.

Lemma firstn_prefix (pre s : pystr) :
  firstn (length (pre ++ s) - length s) (pre ++ s) = pre.
Proof.
  rewrite length_app. replace (length pre + length s - length s)%nat
    with (length pre) by lia.
  rewrite firstn_app, Nat.sub_diag, firstn_all. cbn [firstn].
  apply app_nil_r.
Qed.

(** The lazy star followed by the closing delimiter captures the shortest
    interior. *)
Lemma star_lazy_find (s : pystr) :
  forall pre full, full = pre ++ s ->
    star_lazy CAny s
      (fun s' => rmatch r_fence s'
                   (Some (firstn (length full - length s') full))
                   (fun _ g => Some g))
    = match find_fence s with
      | Some (b, _) => Some (Some (pre ++ b))
      | None => None
      end.
Proof.
  induction s as [|c t IH]; intros pre full Hfull.
  - cbn [star_lazy find_fence]. rewrite rmatch_fence. reflexivity.
  - cbn [star_lazy find_fence]. rewrite rmatch_fence.
    destruct (starts_with FENCE (c :: t)) eqn:E.
    + subst full. rewrite firstn_prefix, app_nil_r. reflexivity.
    + cbn [in_class].
      rewrite (@IH (pre ++ [c]) full)
        by (subst full; rewrite <- app_assoc; reflexivity).
      destruct (find_fence t) as [[b p]|]; [|reflexivity].
      rewrite <- app_assoc. reflexivity.
Qed.

Lemma star_greedy_word (A : Type) (k : pystr -> option A) (t : pystr) :
  (forall c s, is_word c = true -> k (c :: s) = None) ->
  star_greedy CWord t k = k (drop_word t).
Proof.
  intros Hk. induction t as [|x t IH]; [reflexivity|].
  cbn [star_greedy drop_word in_class].
  destruct (is_word x) eqn:Ex; [|reflexivity].
  rewrite IH. destruct (k (drop_word t)); [reflexivity|].
  apply Hk. exact Ex.
Qed.

Lemma is_word_nl : is_word c_nl = false.
Proof. reflexivity. Qed.

(** The matcher, started at the head of [t], finds the block that
    [block_here] describes. *)
Lemma rmatch_snippet (t : pystr) :
  rmatch SNIPPET_RE t None (fun _ g => Some g)
  = option_map Some (block_here t).
Proof.
  unfold SNIPPET_RE, block_here. cbn [rmatch]. rewrite rmatch_fence.
  destruct (starts_with FENCE t); [|reflexivity].
  set (s1 := skipn 3 t).
  set (K := fun s' : pystr =>
              match s' with
              | x :: t0 =>
                  if in_class (CChar c_nl) x
                  then star_lazy CAny t0
                         (fun s'0 : pystr =>
                            rmatch r_fence s'0
                              (Some (firstn (length t0 - length s'0) t0))
                              (fun _ g => Some g))
                  else None
              | [] => None
              end).
  assert (HK : forall c s, is_word c = true -> K (c :: s) = None).
  { intros c s Hc. unfold K. cbn [in_class].
    destruct (Z.eqb_spec c c_nl) as [->|]; [|reflexivity].
    rewrite is_word_nl in Hc. discriminate. }
  assert (Hend : K (drop_word s1)
                 = option_map Some
                     match drop_word s1 with
                     | c :: s3 =>
                         if c =? c_nl
                         then match find_fence s3 with
                              | Some (b, _) => Some b
                              | None => None
                              end
                         else None
                     | [] => None
                     end).
  { unfold K. destruct (drop_word s1) as [|c s3]; [reflexivity|].
    cbn [in_class]. destruct (c =? c_nl); [|reflexivity].
    rewrite (@star_lazy_find s3 [] s3 eq_refl).
    destruct (find_fence s3) as [[b p]|]; reflexivity. }
  rewrite <- Hend.
  destruct s1 as [|x s1'] eqn:Es1; [reflexivity|].
  cbn [drop_word in_class].
  destruct (is_word x) eqn:Ex.
  - fold K. rewrite (star_greedy_word K s1' HK).
    destruct (K (drop_word s1')) eqn:EK; [reflexivity|].
    pose proof (HK x s1' Ex) as HKx. unfold K in HKx.
    cbn [in_class] in HKx. exact HKx.
  - reflexivity.
Qed.

Lemma re_search_snippet (s : pystr) :
  re_search SNIPPET_RE s = option_map Some (first_block s).
Proof.
  induction s as [|c t IH]; cbn [re_search first_block];
    rewrite rmatch_snippet;
    destruct (block_here _); try reflexivity.
  exact IH.
Qed.

Lemma extract_code_snippet_first_block (s : pystr) :
  extract_code_snippet s
  = Ok match first_block s with Some b => strip b | None => s end.
Proof.
  unfold extract_code_snippet. rewrite re_search_snippet.
  destruct (first_block s); reflexivity.
Qed.

Lemma take_drop_word (s : pystr) :
  s = take_word s ++ drop_word s /\ forallb is_word (take_word s) = true.
Proof.
  induction s as [|c t [IH1 IH2]]; [split; reflexivity|].
  cbn [take_word drop_word]. destruct (is_word c) eqn:E.
  - cbn [app forallb]. rewrite E, IH2. split; [f_equal; exact IH1 | reflexivity].
  - split; reflexivity.
Qed.

Lemma drop_word_tag (tag rest : pystr) :
  forallb is_word tag = true -> drop_word (tag ++ c_nl :: rest) = c_nl :: rest.
Proof.
  induction tag as [|c tag IH]; cbn [forallb app drop_word].
  - intros _. rewrite is_word_nl. reflexivity.
  - intros H. apply andb_true_iff in H as [Hc Ht]. rewrite Hc. auto.
Qed.

Lemma app_same_length (A : Type) (a b x y : list A) :
  length a = length b -> a ++ x = b ++ y -> a = b /\ x = y.
Proof.
  revert b; induction a as [|c a IH]; intros [|d b]; cbn [length app];
    try discriminate.
  - auto.
  - intros Hl [= -> Happ]. destruct (IH b) as [-> ->]; [lia | assumption | auto].
Qed.

Lemma word_prefix_unique (t1 t2 x1 x2 : pystr) :
  forallb is_word t1 = true -> forallb is_word t2 = true ->
  t1 ++ c_nl :: x1 = t2 ++ c_nl :: x2 -> t1 = t2 /\ x1 = x2.
Proof.
  revert t2; induction t1 as [|c t1 IH]; intros [|d t2]; cbn [forallb app].
  - intros _ _ [= ->]. auto.
  - intros _ H [= <- _]. apply andb_true_iff in H as [H _].
    rewrite is_word_nl in H. discriminate.
  - intros H _ [= -> _]. apply andb_true_iff in H as [H _].
    rewrite is_word_nl in H. discriminate.
  - intros H1 H2 [= -> Happ].
    apply andb_true_iff in H1 as [_ H1]. apply andb_true_iff in H2 as [_ H2].
    destruct (IH t2 H1 H2 Happ) as [-> ->]. auto.
Qed.

Lemma block_here_sound (t b : pystr) :
  block_here t = Some b -> exists tag post, fenced t [] tag b post.
Proof.
  unfold block_here. destruct (starts_with FENCE t) eqn:Ef; [|discriminate].
  apply starts_with_split in Ef. cbn [FENCE length] in Ef.
  destruct (take_drop_word (skipn 3 t)) as [Hsplit Hword].
  destruct (drop_word (skipn 3 t)) as [|c s3]; [discriminate|].
  destruct (Z.eqb_spec c c_nl) as [->|]; [|discriminate].
  destruct (find_fence s3) as [[b' p]|] eqn:Efind; [|discriminate].
  intros [= ->]. apply find_fence_sound in Efind.
  exists (take_word (skipn 3 t)), p. split; [|exact Hword].
  cbn [app]. rewrite Ef at 1. rewrite Hsplit at 1. rewrite Efind.
  reflexivity.
Qed.

Lemma block_here_complete (t tag body post : pystr) :
  fenced t [] tag body post ->
  exists b, block_here t = Some b /\ (length b <= length body)%nat.
Proof.
  intros [Ht Hword]. cbn [app] in Ht. unfold block_here.
  rewrite Ht. change (c_backtick :: c_backtick :: c_backtick :: ?x)
    with (FENCE ++ x).
  rewrite starts_with_app. cbn [FENCE app skipn].
  rewrite drop_word_tag by exact Hword. cbn [Z.eqb Pos.eqb].
  destruct (find_fence_complete body post) as (b' & p' & Hf & Hlen).
  change (body ++ 96 :: 96 :: 96 :: post) with (body ++ FENCE ++ post).
  rewrite Hf. eauto.
Qed.

Lemma fenced_cons (c : Z) (t pre tag body post : pystr) :
  fenced (c :: t) (c :: pre) tag body post <-> fenced t pre tag body post.
Proof.
  unfold fenced. cbn [app]. split.
  - intros [H Hw]. split; [congruence | exact Hw].
  - intros [H Hw]. split; [congruence | exact Hw].
Qed.

Lemma fenced_head (c : Z) (t pre tag body post : pystr) :
  fenced (c :: t) pre tag body post ->
  pre = [] \/ exists pre', pre = c :: pre' /\ fenced t pre' tag body post.
Proof.
  destruct pre as [|d pre']; [auto|].
  intros H. right. exists pre'.
  assert (d = c) by (destruct H as [H _]; cbn [app] in H; congruence).
  subst d. split; [reflexivity|].
  exact (proj1 (fenced_cons c t pre' tag body post) H).
Qed.

Lemma first_block_none (s : pystr) :
  first_block s = None ->
  forall pre tag body post, ~ fenced s pre tag body post.
Proof.
  induction s as [|c t IH]; cbn [first_block].
  - intros _ pre tag body post [H _].
    destruct pre; cbn in H; discriminate.
  - destruct (block_here (c :: t)) eqn:Eb; [discriminate|].
    intros Hnone pre tag body post Hf.
    destruct (fenced_head Hf) as [-> | (pre' & -> & Hf')].
    + destruct (block_here_complete Hf) as (b & Hb & _). congruence.
    + eapply IH; eassumption.
Qed.

Lemma first_block_sound (s b : pystr) :
  first_block s = Some b ->
  exists pre tag post, first_fenced s pre tag b post.
Proof.
  revert b; induction s as [|c t IH]; intros b; cbn [first_block].
  - cbn. discriminate.
  - destruct (block_here (c :: t)) as [b0|] eqn:Eb.
    + intros [= ->]. destruct (block_here_sound _ Eb) as (tag & post & Hf).
      exists [], tag, post. split; [exact Hf|].
      intros pre' tag' body' post' Hf'.
      destruct (fenced_head Hf') as [-> | (pre'' & -> & _)].
      * right. split; [reflexivity|].
        destruct (block_here_complete Hf') as (b' & Hb' & Hlen). congruence.
      * left. cbn [length]. lia.
    + intros Hfb. destruct (IH _ Hfb) as (pre & tag & post & Hf & Hmin).
      exists (c :: pre), tag, post.
      split; [exact (proj2 (fenced_cons c t pre tag b post) Hf)|].
      intros pre' tag' body' post' Hf'.
      destruct (fenced_head Hf') as [-> | (pre'' & -> & Hf'')].
      * destruct (block_here_complete Hf') as (b' & Hb' & _). congruence.
      * cbn [length]. destruct (Hmin _ _ _ _ Hf'') as [H | [H1 H2]]; [left|right]; lia.
Qed.

(** The first fenced block is unique. *)
Lemma first_fenced_unique (s pre tag body post pre' tag' body' post' : pystr) :
  first_fenced s pre tag body post ->
  first_fenced s pre' tag' body' post' ->
  pre = pre' /\ tag = tag' /\ body = body' /\ post = post'.
Proof.
  intros [Hf Hmin] [Hf' Hmin'].
  assert (Hl : length pre = length pre' /\ length body = length body').
  { destruct (Hmin _ _ _ _ Hf') as [H | [H1 H2]];
      destruct (Hmin' _ _ _ _ Hf) as [H' | [H1' H2']]; lia. }
  destruct Hl as [Hlp Hlb].
  destruct Hf as [E Hw]. destruct Hf' as [E' Hw'].
  rewrite E in E'.
  apply app_same_length in E' as [-> E']; [|exact Hlp].
  apply app_inv_head in E'.
  apply word_prefix_unique in E' as [-> E']; [|assumption|assumption].
  apply app_same_length in E' as [-> E']; [|exact Hlb].
  apply app_inv_head in E'. auto.
Qed.

Lemma first_block_complete (s pre tag body post : pystr) :
  first_fenced s pre tag body post -> first_block s = Some body.
Proof.
  intros Hff. destruct (first_block s) as [b|] eqn:E.
  - destruct (first_block_sound _ E) as (pre' & tag' & post' & Hff').
    destruct (first_fenced_unique Hff' Hff) as (_ & _ & -> & _). reflexivity.
  - destruct Hff as [Hf _]. exfalso.
    eapply first_block_none; eassumption.
Qed.

(** C2: [extract_code_snippet] returns the whitespace-trimmed interior of
    the first fenced block (opening delimiter, optional tag of word
    characters, newline, shortest interior, closing delimiter) when the
    text has one, whatever blocks follow, and the text itself when it has
    none; every text is in one of the two cases; the example of the spec
    yields MODEL X. *)
Theorem extract_code_snippet_spec (txt : pystr) :
  (forall pre tag body post,
      first_fenced txt pre tag body post ->
      extract_code_snippet txt = Ok (strip body))
  /\ ((forall pre tag body post, ~ fenced txt pre tag body post) ->
      extract_code_snippet txt = Ok txt)
  /\ ((exists pre tag body post, first_fenced txt pre tag body post)
      \/ (forall pre tag body post, ~ fenced txt pre tag body post))
  /\ extract_code_snippet
       (str_of "explanation" ++ [c_nl] ++ FENCE ++ str_of "plaintext" ++ [c_nl]
        ++ str_of "MODEL X" ++ [c_nl] ++ FENCE ++ [c_nl] ++ str_of "more text")
     = Ok (str_of "MODEL X").
Proof.
  split; [|split; [|split]].
  - intros pre tag body post Hff.
    rewrite extract_code_snippet_first_block, (first_block_complete Hff).
    reflexivity.
  - intros Hnone. rewrite extract_code_snippet_first_block.
    destruct (first_block txt) as [b|] eqn:E; [|reflexivity].
    destruct (first_block_sound _ E) as (pre & tag & post & Hf & _).
    exfalso. eapply Hnone; eassumption.
  - destruct (first_block txt) as [b|] eqn:E.
    + left. destruct (first_block_sound _ E) as (pre & tag & post & Hff).
      eauto.
    + right. intros pre tag body post Hf.
      eapply first_block_none; eassumption.
  - reflexivity.
Qed.

(** ** The grammar turn *)

Lemma text_of_scalarb (s : pystr) : forallb scalarb s = true -> text s.
Proof.
  intros H. rewrite forallb_forall in H. apply Forall_forall.
  intros c Hc. specialize (H c Hc). unfold scalarb in H.
  apply andb_true_iff in H as [H Hs]. apply andb_true_iff in H as [H0 H1].
  apply Z.leb_le in H0, H1. apply negb_true_iff in Hs.
  split; [lia | exact Hs].
Qed.

Lemma text_GRAMMAR_SYSTEM_MESSAGE : text GRAMMAR_SYSTEM_MESSAGE.
Proof. apply text_of_scalarb. vm_compute. reflexivity. Qed.

Lemma modify_grammer_unfold (CLIENT : Client) (BASE_DIR : pystr)
    (json_reader : pystr -> result json) (im es : pystr) (w : World) :
  modify_grammer CLIENT BASE_DIR json_reader im es w
  = bind (lift (grammar_prompt BASE_DIR json_reader im es))
      (fun prompt =>
         bind (chat CLIENT MODEL prompt true (Some GRAMMAR_SYSTEM_MESSAGE))
              grammar_finish) w.
Proof.
  unfold modify_grammer, grammar_prompt, bind at 1 2 3 4 5 6, lift, ret.
  destruct (json_reader _) as [d0|e]; [|reflexivity].
  destruct (lacks_key d0 K_CONTEXT) as [missing|e]; [|reflexivity].
  destruct (if missing then setitem d0 K_CONTEXT (JObj []) else Ok d0)
    as [d1|e] eqn:E1.
  - destruct missing.
    + rewrite E1.
      destruct (setitem2 d1 _ _ _) as [d2|e]; [|reflexivity].
      destruct (setitem2 d2 _ _ _) as [d3|e]; [|reflexivity].
      destruct (setitem2 d3 _ _ _) as [d4|e]; reflexivity.
    + injection E1 as ->.
      destruct (setitem2 d1 _ _ _) as [d2|e]; [|reflexivity].
      destruct (setitem2 d2 _ _ _) as [d3|e]; [|reflexivity].
      destruct (setitem2 d3 _ _ _) as [d4|e]; reflexivity.
  - destruct missing; [rewrite E1; reflexivity | discriminate].
Qed.

Lemma grammar_finish_run (u a : Message) (w : World) :
  exists sug,
    extract_code_snippet (content a) = Ok sug
    /\ grammar_finish (message_dict u, message_dict a) w
       = (Ok (message_dict u, message_dict a, sug), w).
Proof.
  eexists. split; [apply extract_code_snippet_first_block|].
  unfold grammar_finish, bind, lift, ret.
  change (getitem (message_dict a) K_CONTENT) with (Ok (JStr (content a))).
  cbv beta iota. rewrite extract_code_snippet_first_block. reflexivity.
Qed.

(** One grammar turn from any store. *)
Lemma modify_grammer_turn (CLIENT : Client) (BASE_DIR : pystr)
    (json_reader : pystr -> result json) (im es prompt : pystr) (w : World) :
  grammar_prompt BASE_DIR json_reader im es = Ok prompt ->
  text prompt ->
  record_writable w = true ->
  log_writable w = true ->
  let sys := mkMessage SYSTEM GRAMMAR_SYSTEM_MESSAGE in
  let u := mkMessage USER prompt in
  (forall s, CLIENT MODEL (history_json [sys; u]) = Ok s -> text s) ->
  exists w' a sug bu ba,
    modify_grammer CLIENT BASE_DIR json_reader im es w
    = (Ok (message_dict u, message_dict a, sug), w')
    /\ persisted w' (history_json [sys; u; a])
    /\ utf8_encode (log_entry (message_dict u)) = Ok bu
    /\ utf8_encode (log_entry (message_dict a)) = Ok ba
    /\ log_file w' = log_file w ++ bu ++ ba
    /\ record_writable w' = true /\ log_writable w' = true.
Proof.
  intros Hp Ht Hrw Hlw sys u Hreply.
  assert (Hstart : starting_history true (Some GRAMMAR_SYSTEM_MESSAGE) w
                   = (Ok (history_json [sys]), w)) by reflexivity.
  assert (Hh : Forall wf_message [sys]).
  { apply Forall_cons; [|apply Forall_nil].
    split; [apply text_SYSTEM | apply text_GRAMMAR_SYSTEM_MESSAGE]. }
  destruct (chat_run CLIENT MODEL true (Some GRAMMAR_SYSTEM_MESSAGE) w
              Hstart Hh Ht Hreply)
    as (bu & ba & bh & Ebu & Eba & Ebh & Lbh & Hrun).
  rewrite Hrw, Hlw in Hrun.
  match type of Hrun with
  | _ = (Ok (_, message_dict ?a0), ?w0) =>
      destruct (grammar_finish_run u a0 w0) as (sug & Hsug & Hfin);
      exists w0, a0, sug, bu, ba
  end.
  rewrite modify_grammer_unfold, Hp.
  unfold lift at 1. erewrite bind_ok by reflexivity.
  erewrite bind_ok by exact Hrun.
  split; [exact Hfin|].
  split; [apply persisted_after_write with (b := bh); [reflexivity | exact Lbh]|].
  repeat (split; [assumption|]). repeat split; reflexivity.
Qed.

(** ** The fuel of [json_decode] never runs out *)

Lemma skip_ws_length (s : pystr) : (length (skip_ws s) <= length s)%nat.
Proof.
  induction s as [|c t IH]; cbn [skip_ws length]; [lia|].
  destruct (is_ws c); cbn [length]; lia.
Qed.

Lemma cons_scanned_inv (c : Z) (o : option (pystr * pystr)) (x r : pystr) :
  cons_scanned c o = Some (x, r) -> exists x', o = Some (x', r).
Proof.
  destruct o as [[x' r']|]; cbn [cons_scanned]; [|discriminate].
  intros [= _ <-]. eauto.
Qed.

Lemma scanstring_length (n : nat) :
  forall t x r, (length t <= n)%nat -> scanstring t = Some (x, r) ->
                (length r < length t)%nat.
Proof.
  induction n as [|n IH]; intros t x r Hlen.
  - destruct t; [cbn; discriminate | cbn [length] in Hlen; lia].
  - destruct t as [|c t]; [cbn; discriminate|].
    cbn [length] in Hlen. cbn [scanstring].
    repeat match goal with
           | |- Some _ = Some _ -> _ => intros [= <- <-]; cbn [length]; lia
           | |- None = Some _ -> _ => discriminate
           | |- cons_scanned _ (scanstring ?t') = Some _ -> _ =>
               let H := fresh "H" in
               let x' := fresh "x" in
               intros H; apply cons_scanned_inv in H as (x' & H);
               apply IH in H; cbn [length] in *; lia
           | |- context [if ?b then _ else _] => destruct b
           | |- context [match unescape ?e with _ => _ end] =>
               destruct (unescape e)
           | |- context [match hex4 ?a ?b ?c ?d with _ => _ end] =>
               destruct (hex4 a b c d)
           | |- context [match ?l with [] => _ | _ :: _ => _ end] =>
               destruct l
           end.
Qed.

Lemma span_digits_length (s ds r : pystr) :
  span_digits s = (ds, r) -> (length ds + length r = length s)%nat.
Proof.
  revert ds r; induction s as [|c t IH]; intros ds r; cbn [span_digits].
  - intros [= <- <-]. reflexivity.
  - destruct (is_digit c).
    + destruct (span_digits t) as [ds' r'] eqn:E. intros [= <- <-].
      specialize (IH _ _ eq_refl). cbn [length]. lia.
    + intros [= <- <-]. reflexivity.
Qed.

Lemma match_int_length (s i r : pystr) :
  match_int s = Some (i, r) -> (length r < length s)%nat.
Proof.
  unfold match_int.
  destruct s as [|c t]; [discriminate|].
  destruct (c =? c_minus).
  - destruct t as [|d t']; [discriminate|].
    destruct (d =? c_0); [intros [= _ <-]; cbn [length]; lia|].
    destruct (is_digit d); [|discriminate].
    destruct (span_digits t') as [ds r'] eqn:E. intros [= _ <-].
    apply span_digits_length in E. cbn [length]. lia.
  - destruct (c =? c_0); [intros [= _ <-]; cbn [length]; lia|].
    destruct (is_digit c); [|discriminate].
    destruct (span_digits t) as [ds r'] eqn:E. intros [= _ <-].
    apply span_digits_length in E. cbn [length]. lia.
Qed.

Lemma match_frac_length (s fr r : pystr) :
  match_frac s = (fr, r) -> (length r <= length s)%nat.
Proof.
  unfold match_frac. destruct s as [|c t]; [intros [= _ <-]; lia|].
  destruct (c =? c_dot); [|intros [= _ <-]; lia].
  destruct (span_digits t) as [ds r'] eqn:E.
  apply span_digits_length in E.
  destruct ds; intros [= _ <-]; cbn [length] in *; lia.
Qed.

Lemma match_exp_length (s ex r : pystr) :
  match_exp s = (ex, r) -> (length r <= length s)%nat.
Proof.
  unfold match_exp. destruct s as [|c t]; [intros [= _ <-]; lia|].
  destruct ((c =? 101) || (c =? 69)); [|intros [= _ <-]; lia].
  destruct t as [|d t'].
  - cbn [span_digits]. intros [= _ <-]. lia.
  - destruct ((d =? c_plus) || (d =? c_minus)).
    + destruct (span_digits t') as [ds r'] eqn:E.
      apply span_digits_length in E.
      destruct ds; intros [= _ <-]; cbn [length] in *; lia.
    + destruct (span_digits (d :: t')) as [ds r'] eqn:E.
      apply span_digits_length in E.
      destruct ds; intros [= _ <-]; cbn [length] in *; lia.
Qed.

Lemma match_number_length (s r : pystr) (v : json) :
  match_number s = Some (v, r) -> (length r < length s)%nat.
Proof.
  unfold match_number.
  destruct (match_int s) as [[i r0]|] eqn:Ei; [|discriminate].
  apply match_int_length in Ei.
  destruct (match_frac r0) as [fr r1] eqn:Ef. apply match_frac_length in Ef.
  destruct (match_exp r1) as [ex r2] eqn:Ee. apply match_exp_length in Ee.
  destruct fr, ex; intros [= _ <-]; lia.
Qed.

Lemma starts_with_skipn_length (p s : pystr) (n : nat) :
  starts_with p s = true -> length p = n ->
  (length (skipn n s) < length s \/ n = 0)%nat.
Proof.
  intros H <-. apply starts_with_split in H.
  destruct p; [right; reflexivity|]. left.
  rewrite H at 2. rewrite length_app. cbn [length]. lia.
Qed.

Ltac constant_case s :=
  match goal with
  | |- context [if starts_with ?p s then Scanned _ (skipn ?n s) else _] =>
      let E := fresh "E" in
      let H := fresh "H" in
      destruct (starts_with p s) eqn:E;
      [ destruct (@starts_with_skipn_length p s n E eq_refl) as [H|H];
        [intros [= _ <-]; exact H | discriminate H] | ]
  end.

Lemma scan_constant_length (s r : pystr) (v : json) :
  scan_constant s = Scanned v r -> (length r < length s)%nat.
Proof.
  unfold scan_constant. do 3 constant_case s.
  destruct (match_number s) as [[v' r']|] eqn:En.
  - apply match_number_length in En. intros H. inversion H; subst. exact En.
  - do 3 constant_case s. discriminate.
Qed.

Lemma scan_constant_no_fuel (s : pystr) : scan_constant s <> ScanFuel.
Proof.
  unfold scan_constant.
  repeat match goal with
         | |- context [if ?b then _ else _] => destruct b; [discriminate|]
         | |- context [match ?o with Some _ => _ | None => _ end] =>
             destruct o as [[? ?]|]; [discriminate|]
         end.
  discriminate.
Qed.

(** With more than twice the length of the input as fuel (one more for
    the two loops) no scanner runs out, and each consumes input. *)
Lemma scan_fuel_enough (f : nat) :
  (forall s, (2 * length s < f)%nat ->
     scan_once f s <> ScanFuel
     /\ forall v r, scan_once f s = Scanned v r -> (length r < length s)%nat)
  /\ (forall acc s, (2 * length s + 1 < f)%nat ->
        parse_pairs f acc s <> ScanFuel
        /\ forall v r, parse_pairs f acc s = Scanned v r ->
                       (length r < length s)%nat)
  /\ (forall acc s, (2 * length s + 1 < f)%nat ->
        parse_items f acc s <> ScanFuel
        /\ forall v r, parse_items f acc s = Scanned v r ->
                       (length r < length s)%nat).
Proof.
  induction f as [|f (IHo & IHp & IHi)].
  - repeat split; intros; lia.
  - split; [|split].
    + intros s Hf. destruct s as [|c t]; [split; [discriminate|intros; discriminate]|].
      cbn [length] in Hf. cbn [scan_once].
      destruct (c =? c_quote).
      { destruct (scanstring t) as [[x r]|] eqn:Es;
          [|split; [discriminate|intros; discriminate]].
        apply (@scanstring_length (length t)) in Es; [|lia].
        split; [discriminate|]. intros v r' [= _ <-]. cbn [length]. lia. }
      destruct (c =? c_lbrace).
      { pose proof (skip_ws_length t) as Hws.
        destruct (skip_ws t) as [|c1 t1];
          [split; [discriminate|intros; discriminate]|].
        cbn [length] in Hws.
        destruct (c1 =? c_rbrace).
        - split; [discriminate|]. intros v r [= _ <-]. cbn [length]. lia.
        - destruct (IHp [] (c1 :: t1)) as [Hn Hl]; [cbn [length]; lia|].
          split; [exact Hn|]. intros v r Hr. apply Hl in Hr.
          cbn [length] in *. lia. }
      destruct (c =? c_lbracket).
      { pose proof (skip_ws_length t) as Hws.
        destruct (skip_ws t) as [|c1 t1];
          [split; [discriminate|intros; discriminate]|].
        cbn [length] in Hws.
        destruct (c1 =? c_rbracket).
        - split; [discriminate|]. intros v r [= _ <-]. cbn [length]. lia.
        - destruct (IHi [] (c1 :: t1)) as [Hn Hl]; [cbn [length]; lia|].
          split; [exact Hn|]. intros v r Hr. apply Hl in Hr.
          cbn [length] in *. lia. }
      split; [apply scan_constant_no_fuel|].
      intros v r Hr. apply scan_constant_length in Hr. exact Hr.
    + intros acc s Hf. destruct s as [|c t];
        [split; [discriminate|intros; discriminate]|].
      cbn [length] in Hf. cbn [parse_pairs].
      destruct (c =? c_quote); [|split; [discriminate|intros; discriminate]].
      destruct (scanstring t) as [[key r]|] eqn:Es;
        [|split; [discriminate|intros; discriminate]].
      apply (@scanstring_length (length t)) in Es; [|lia].
      pose proof (skip_ws_length r) as Hws.
      destruct (skip_ws r) as [|c1 r1];
        [split; [discriminate|intros; discriminate]|].
      cbn [length] in Hws.
      destruct (c1 =? c_colon); [|split; [discriminate|intros; discriminate]].
      pose proof (skip_ws_length r1) as Hws1.
      destruct (IHo (skip_ws r1)) as [Hn Hl]; [lia|].
      destruct (scan_once f (skip_ws r1)) as [v r2| |] eqn:Eo;
        [|split; [discriminate|intros; discriminate]|contradiction].
      specialize (Hl _ _ eq_refl).
      pose proof (skip_ws_length r2) as Hws2.
      destruct (skip_ws r2) as [|c2 r3];
        [split; [discriminate|intros; discriminate]|].
      cbn [length] in Hws2.
      destruct (c2 =? c_rbrace).
      { split; [discriminate|]. intros v' r' [= _ <-]. cbn [length]. lia. }
      destruct (c2 =? c_comma); [|split; [discriminate|intros; discriminate]].
      pose proof (skip_ws_length r3) as Hws3.
      destruct (IHp (acc ++ [(key, v)]) (skip_ws r3)) as [Hn' Hl']; [lia|].
      split; [exact Hn'|]. intros v' r' Hr. apply Hl' in Hr.
      cbn [length]. lia.
    + intros acc s Hf. cbn [parse_items].
      destruct (IHo s) as [Hn Hl]; [lia|].
      destruct (scan_once f s) as [v r| |] eqn:Eo;
        [|split; [discriminate|intros; discriminate]|contradiction].
      specialize (Hl _ _ eq_refl).
      pose proof (skip_ws_length r) as Hws.
      destruct (skip_ws r) as [|c r1];
        [split; [discriminate|intros; discriminate]|].
      cbn [length] in Hws.
      destruct (c =? c_rbracket).
      { split; [discriminate|]. intros v' r' [= _ <-]. lia. }
      destruct (c =? c_comma); [|split; [discriminate|intros; discriminate]].
      pose proof (skip_ws_length r1) as Hws1.
      destruct (IHi (acc ++ [v]) (skip_ws r1)) as [Hn' Hl']; [lia|].
      split; [exact Hn'|]. intros v' r' Hr. apply Hl' in Hr. lia.
Qed.

(** [json_decode] raises [JSONDecodeError] only where the scanner rejects
    the input or finds data after the value, never for lack of fuel. *)
Lemma json_decode_fuel (s : pystr) :
  scan_once (2 * length s + 2) (skip_ws s) <> ScanFuel.
Proof.
  apply (proj1 (scan_fuel_enough (2 * length s + 2))).
  pose proof (skip_ws_length s). lia.
Qed.

(** * Further properties of the code *)

(** ** Invariants of the store, by composition *)

Section Keeps.
Variable R : World -> World -> Prop.
Hypothesis HR : preorder R.

Lemma keeps_ret (A : Type) (a : A) : keeps R (ret a).
Proof. intros w. apply (pre_refl HR). Qed.

Lemma keeps_raise (A : Type) (e : exn) : keeps R (@raise _ A e).
Proof. intros w. apply (pre_refl HR). Qed.

Lemma keeps_lift (A : Type) (r : result A) : keeps R (lift r).
Proof. intros w. apply (pre_refl HR). Qed.

Lemma keeps_bind (A B : Type) (m : M A) (f : A -> M B) :
  keeps R m -> (forall a, keeps R (f a)) -> keeps R (bind m f).
Proof.
  intros Hm Hf w. unfold bind. specialize (Hm w).
  destruct (m w) as [[a|e] w1]; cbn [snd] in *; [|exact Hm].
  apply (pre_trans HR _ _ _ Hm). apply Hf.
Qed.

Lemma keeps_try_except (A : Type) (body : M A) (catches : exn -> bool)
    (handler : exn -> M A) :
  keeps R body -> (forall e, keeps R (handler e)) ->
  keeps R (try_except body catches handler).
Proof.
  intros Hm Hh w. unfold try_except. specialize (Hm w).
  destruct (body w) as [[a|e] w1]; cbn [snd] in *; [exact Hm|].
  destruct (catches e); [|exact Hm].
  apply (pre_trans HR _ _ _ Hm). apply Hh.
Qed.

Lemma keeps_attempt (A : Type) (m : M A) : keeps R m -> keeps R (attempt m).
Proof.
  intros Hm w. unfold attempt. specialize (Hm w).
  destruct (m w) as [r w1]. exact Hm.
Qed.

Lemma keeps_record_exists : keeps R record_exists.
Proof. intros w. apply (pre_refl HR). Qed.

Lemma keeps_read_record : keeps R read_record.
Proof.
  intros w. unfold read_record. destruct (record_file w); apply (pre_refl HR).
Qed.

Lemma keeps_open_log_append : keeps R open_log_append.
Proof.
  intros w. unfold open_log_append. destruct (log_writable w);
    apply (pre_refl HR).
Qed.

End Keeps.

Ltac keeps_step HR prim :=
  first
    [ apply (keeps_bind HR) | apply (keeps_try_except HR)
    | apply keeps_attempt | apply (keeps_ret HR)
    | apply (keeps_raise HR) | apply (keeps_lift HR)
    | apply (keeps_record_exists HR) | apply (keeps_read_record HR)
    | apply (keeps_open_log_append HR)
    | prim
    | match goal with
      | |- forall _, _ => intro
      | |- keeps _ (if ?b then _ else _) => destruct b
      | |- keeps _ (match ?x with _ => _ end) => destruct x
      | |- keeps _ (let '(_, _) := ?x in _) => destruct x
      end ].

Lemma grows_preorder : preorder grows.
Proof.
  split.
  - intros w. repeat split; [exists [] | exists []]; symmetry; apply app_nil_r.
  - intros a b c (H1 & H2 & (l1 & H3) & (t1 & H4)) (H1' & H2' & (l2 & H3') & (t2 & H4')).
    repeat split; [congruence | congruence | exists (l1 ++ l2) | exists (t1 ++ t2)].
    + rewrite H3', H3, app_assoc. reflexivity.
    + rewrite H4', H4, app_assoc. reflexivity.
Qed.

Lemma same_record_preorder : preorder same_record.
Proof. split; unfold same_record; [reflexivity | congruence]. Qed.

Lemma same_log_preorder : preorder same_log.
Proof. split; unfold same_log; [reflexivity | congruence]. Qed.

Lemma same_calls_preorder : preorder same_calls.
Proof. split; unfold same_calls; [reflexivity | congruence]. Qed.

Lemma grows_emit (e : event) : keeps grows (emit e).
Proof.
  intros w. cbn. repeat split; [exists [] | exists [e]];
    [symmetry; apply app_nil_r | reflexivity].
Qed.

Lemma grows_open_record_wb : keeps grows open_record_wb.
Proof.
  intros w. unfold open_record_wb. destruct (record_writable w) eqn:E; cbn;
    repeat split; try (exists []; symmetry; apply app_nil_r); auto.
Qed.

Lemma grows_write_record (b : bytes) : keeps grows (write_record b).
Proof.
  intros w. cbn. repeat split; [exists [] | eexists];
    [symmetry; apply app_nil_r | reflexivity].
Qed.

Lemma grows_append_log (b : bytes) : keeps grows (append_log b).
Proof. intros w. cbn. repeat split; eexists; reflexivity. Qed.

Ltac grows_prim :=
  first [ apply grows_emit | apply grows_open_record_wb
        | apply grows_write_record | apply grows_append_log ].

Ltac grows_auto := repeat keeps_step grows_preorder grows_prim.

Lemma grows_load_chat_history : keeps grows load_chat_history.
Proof. unfold load_chat_history, print. grows_auto. Qed.

Lemma grows_save_chat_history (v : json) : keeps grows (save_chat_history v).
Proof. unfold save_chat_history, print. grows_auto. Qed.

Lemma grows_log_message (v : json) : keeps grows (log_message v).
Proof. unfold log_message, print. grows_auto. Qed.

Lemma grows_call_llm_api (client : Client) (model : pystr) (msgs : json) :
  keeps grows (call_llm_api client model msgs).
Proof. unfold call_llm_api, print. grows_auto. Qed.

Lemma grows_initialize_chat_history (seed : json) :
  keeps grows (initialize_chat_history seed).
Proof.
  unfold initialize_chat_history, print.
  repeat first [ apply grows_save_chat_history
               | keeps_step grows_preorder grows_prim ].
Qed.

Lemma grows_chat (client : Client) (model prompt : pystr) (uih : bool)
    (sm : option pystr) :
  keeps grows (chat client model prompt uih sm).
Proof.
  unfold chat, print.
  repeat first [ apply grows_save_chat_history | apply grows_log_message
               | apply grows_load_chat_history | apply grows_call_llm_api
               | keeps_step grows_preorder grows_prim ].
Qed.

Lemma same_record_emit (e : event) : keeps same_record (emit e).
Proof. intros w. reflexivity. Qed.

Lemma same_record_append_log (b : bytes) : keeps same_record (append_log b).
Proof. intros w. reflexivity. Qed.

Ltac same_record_auto :=
  repeat keeps_step same_record_preorder
    ltac:(first [apply same_record_emit | apply same_record_append_log]).

Lemma same_record_load_chat_history : keeps same_record load_chat_history.
Proof. unfold load_chat_history, print. same_record_auto. Qed.

Lemma same_record_log_message (v : json) : keeps same_record (log_message v).
Proof. unfold log_message, print. same_record_auto. Qed.

Lemma same_record_call_llm_api (client : Client) (model : pystr) (msgs : json) :
  keeps same_record (call_llm_api client model msgs).
Proof. unfold call_llm_api, print. same_record_auto. Qed.

Lemma same_log_emit (e : event) : keeps same_log (emit e).
Proof. intros w. reflexivity. Qed.

Lemma same_log_open_record_wb : keeps same_log open_record_wb.
Proof.
  intros w. unfold open_record_wb. destruct (record_writable w); reflexivity.
Qed.

Lemma same_log_write_record (b : bytes) : keeps same_log (write_record b).
Proof. intros w. reflexivity. Qed.

Ltac same_log_auto :=
  repeat keeps_step same_log_preorder
    ltac:(first [ apply same_log_emit | apply same_log_open_record_wb
                | apply same_log_write_record ]).

Lemma same_log_load_chat_history : keeps same_log load_chat_history.
Proof. unfold load_chat_history, print. same_log_auto. Qed.

Lemma same_log_save_chat_history (v : json) : keeps same_log (save_chat_history v).
Proof. unfold save_chat_history, print. same_log_auto. Qed.

Lemma same_log_call_llm_api (client : Client) (model : pystr) (msgs : json) :
  keeps same_log (call_llm_api client model msgs).
Proof. unfold call_llm_api, print. same_log_auto. Qed.

Lemma same_log_initialize_chat_history (seed : json) :
  keeps same_log (initialize_chat_history seed).
Proof.
  unfold initialize_chat_history, print.
  repeat first [ apply same_log_save_chat_history
               | keeps_step same_log_preorder ltac:(apply same_log_emit) ].
Qed.

Lemma llm_calls_app (a b : list event) :
  llm_calls (a ++ b) = (llm_calls a + llm_calls b)%nat.
Proof.
  induction a as [|e a IH]; [reflexivity|].
  destruct e; cbn [app llm_calls]; rewrite IH; reflexivity.
Qed.

Lemma same_calls_print (n : notice) : keeps same_calls (print n).
Proof.
  intros w. unfold same_calls. cbn. rewrite llm_calls_app. cbn. lia.
Qed.

Lemma same_calls_open_record_wb : keeps same_calls open_record_wb.
Proof.
  intros w. unfold open_record_wb. destruct (record_writable w); reflexivity.
Qed.

Lemma same_calls_write_record (b : bytes) : keeps same_calls (write_record b).
Proof.
  intros w. unfold same_calls. cbn. rewrite llm_calls_app. cbn. lia.
Qed.

Lemma same_calls_append_log (b : bytes) : keeps same_calls (append_log b).
Proof.
  intros w. unfold same_calls. cbn. rewrite llm_calls_app. cbn. lia.
Qed.

Ltac same_calls_auto :=
  repeat keeps_step same_calls_preorder
    ltac:(first [ apply same_calls_print | apply same_calls_open_record_wb
                | apply same_calls_write_record | apply same_calls_append_log ]).

Lemma same_calls_load_chat_history : keeps same_calls load_chat_history.
Proof. unfold load_chat_history. same_calls_auto. Qed.

Lemma same_calls_save_chat_history (v : json) :
  keeps same_calls (save_chat_history v).
Proof. unfold save_chat_history. same_calls_auto. Qed.

Lemma same_calls_log_message (v : json) : keeps same_calls (log_message v).
Proof. unfold log_message. same_calls_auto. Qed.

Lemma same_calls_initialize_chat_history (seed : json) :
  keeps same_calls (initialize_chat_history seed).
Proof.
  unfold initialize_chat_history.
  repeat first [ apply same_calls_save_chat_history
               | keeps_step same_calls_preorder ltac:(apply same_calls_print) ].
Qed.

(** ** Outcome-sensitive reasoning *)

Lemma triple_bind (A B : Type) (P : World -> Prop) (m : M A) (f : A -> M B)
    (Q : A -> World -> Prop) (Q' : B -> World -> Prop)
    (E : exn -> World -> Prop) :
  triple P m Q E -> (forall a, triple (Q a) (f a) Q' E) ->
  triple P (bind m f) Q' E.
Proof.
  intros Hm Hf w Hw. unfold bind. specialize (Hm w Hw).
  destruct (m w) as [[a|e] w1]; [|exact Hm].
  apply (Hf a w1 Hm).
Qed.

Lemma triple_ret (A : Type) (a : A) (P : World -> Prop)
    (Q : A -> World -> Prop) (E : exn -> World -> Prop) :
  (forall w, P w -> Q a w) -> triple P (ret a) Q E.
Proof. intros H w Hw. apply H. exact Hw. Qed.

Lemma triple_call_free (A : Type) (m : M A) (k k' : nat) :
  keeps same_calls m -> (k <= k')%nat ->
  triple (calls_are k) m (fun _ => calls_are k) (fun _ => calls_at_most k').
Proof.
  intros Hm Hk w Hw. specialize (Hm w). unfold same_calls in Hm.
  unfold calls_are, calls_at_most in *.
  destruct (m w) as [[a|e] w1]; cbn [snd] in Hm; lia.
Qed.

Lemma same_calls_lift (A : Type) (r : result A) : keeps same_calls (lift r).
Proof. apply (keeps_lift same_calls_preorder). Qed.

Lemma triple_attempt_call (client : Client) (model : pystr) (msgs : json)
    (k : nat) (E : exn -> World -> Prop) :
  triple (calls_are k) (attempt (call_llm_api client model msgs))
    (fun _ => calls_are (S k)) E.
Proof.
  intros w Hw. rewrite attempt_call_llm_api. unfold calls_are in *.
  cbn [trace]. rewrite llm_calls_app. cbn [app llm_calls].
  destruct (client model msgs); cbn [llm_calls]; lia.
Qed.

(** One turn of [chat] invokes the model capability at most once, and
    exactly once when it returns. *)
Lemma chat_calls (client : Client) (model prompt : pystr) (uih : bool)
    (sm : option pystr) (k : nat) :
  triple (calls_are k) (chat client model prompt uih sm)
    (fun _ => calls_are (S k)) (fun _ => calls_at_most (S k)).
Proof.
  unfold chat.
  eapply triple_bind.
  { apply triple_call_free; [|apply Nat.le_succ_diag_r].
    destruct uih; [apply same_calls_lift | apply same_calls_load_chat_history]. }
  intro. eapply triple_bind.
  { apply triple_call_free; [apply same_calls_lift | apply Nat.le_succ_diag_r]. }
  intro. eapply triple_bind.
  { apply triple_call_free; [apply same_calls_log_message | apply Nat.le_succ_diag_r]. }
  intro. eapply triple_bind.
  { apply triple_call_free; [apply same_calls_lift | apply Nat.le_succ_diag_r]. }
  intro. eapply triple_bind; [apply triple_attempt_call|].
  intros [s|e].
  - eapply triple_bind.
    { apply triple_call_free; [apply same_calls_lift | apply Nat.le_refl]. }
    intro. eapply triple_bind.
    { apply triple_call_free; [apply same_calls_lift | apply Nat.le_refl]. }
    intro. eapply triple_bind.
    { apply triple_call_free; [apply same_calls_save_chat_history | apply Nat.le_refl]. }
    intro. eapply triple_bind.
    { apply triple_call_free; [apply same_calls_log_message | apply Nat.le_refl]. }
    intro. apply triple_ret; intros w Hw; exact Hw.
  - eapply triple_bind.
    { apply triple_call_free; [apply same_calls_print | apply Nat.le_refl]. }
    intro. eapply triple_bind.
    { apply triple_call_free; [apply same_calls_lift | apply Nat.le_refl]. }
    intro. eapply triple_bind.
    { apply triple_call_free; [apply same_calls_log_message | apply Nat.le_refl]. }
    intro. eapply triple_bind.
    { apply triple_call_free; [apply same_calls_lift | apply Nat.le_refl]. }
    intro. eapply triple_bind.
    { apply triple_call_free; [apply same_calls_save_chat_history | apply Nat.le_refl]. }
    intro. apply triple_ret; intros w Hw; exact Hw.
Qed.

(** ** What the operations of the history store never do *)

(** X1: whatever the arguments, the store and the outcome (a raised
    exception included), [load_chat_history], [save_chat_history],
    [log_message], [initialize_chat_history] and [chat] leave the audit log
    with its old content as a prefix, and do not change whether the files
    can be written. *)
Theorem store_only_grows (client : Client) (model prompt : pystr)
    (uih : bool) (sm : option pystr) (v seed : json) (w : World) :
  grows w (snd (load_chat_history w))
  /\ grows w (snd (save_chat_history v w))
  /\ grows w (snd (log_message v w))
  /\ grows w (snd (initialize_chat_history seed w))
  /\ grows w (snd (chat client model prompt uih sm w)).
Proof.
  split; [apply grows_load_chat_history|].
  split; [apply grows_save_chat_history|].
  split; [apply grows_log_message|].
  split; [apply grows_initialize_chat_history|].
  apply grows_chat.
Qed.

(** X2: [load_chat_history] changes neither the snapshot nor the log file,
    whatever the snapshot holds and also when it raises; [log_message]
    never changes the snapshot; [save_chat_history] and
    [initialize_chat_history] never change the log file; [call_llm_api]
    changes neither file. *)
Theorem operations_leave_other_file (client : Client) (model : pystr)
    (v seed msgs : json) (w : World) :
  (record_file (snd (load_chat_history w)) = record_file w
   /\ log_file (snd (load_chat_history w)) = log_file w)
  /\ record_file (snd (log_message v w)) = record_file w
  /\ log_file (snd (save_chat_history v w)) = log_file w
  /\ log_file (snd (initialize_chat_history seed w)) = log_file w
  /\ (record_file (snd (call_llm_api client model msgs w)) = record_file w
      /\ log_file (snd (call_llm_api client model msgs w)) = log_file w).
Proof.
  split; [split; [apply same_record_load_chat_history
                 | apply same_log_load_chat_history]|].
  split; [apply same_record_log_message|].
  split; [apply same_log_save_chat_history|].
  split; [apply same_log_initialize_chat_history|].
  split; [apply same_record_call_llm_api | apply same_log_call_llm_api].
Qed.

(** X3: one call of [chat] invokes the model capability at most once,
    whatever happens, and exactly once when it returns; it never returns
    without having invoked it. *)
Theorem chat_calls_model_once (client : Client) (model prompt : pystr)
    (uih : bool) (sm : option pystr) (w : World) :
  (llm_calls (trace (snd (chat client model prompt uih sm w)))
   <= S (llm_calls (trace w)))%nat
  /\ forall p, fst (chat client model prompt uih sm w) = Ok p ->
       llm_calls (trace (snd (chat client model prompt uih sm w)))
       = S (llm_calls (trace w)).
Proof.
  pose proof (@chat_calls client model prompt uih sm (llm_calls (trace w))
                w eq_refl) as H.
  destruct (chat client model prompt uih sm w) as [[p|e] w1]; cbn [fst snd].
  - unfold calls_are in H. split; [lia|]. intros _ _. exact H.
  - split; [exact H | discriminate].
Qed.

(** ** Write failures *)

(** [str.encode('utf-8')] succeeds exactly on text. *)
Lemma utf8_encode_char_some (c : Z) (bs : bytes) :
  utf8_encode_char c = Some bs -> scalar c.
Proof.
  unfold utf8_encode_char, scalar, is_surrogate.
  destruct (Z.ltb_spec c 0); [discriminate|].
  destruct (Z.ltb_spec c 128); [intros _; split; [lia|zbool; reflexivity]|].
  destruct (Z.ltb_spec c 2048); [intros _; split; [lia|zbool; reflexivity]|].
  destruct (Z.ltb_spec c 65536).
  - destruct ((55296 <=? c) && (c <=? 57343)) eqn:E; [discriminate|].
    intros _. split; [lia | reflexivity].
  - destruct (Z.ltb_spec c 1114112); [|discriminate].
    intros _. split; [lia | zbool; reflexivity].
Qed.

Lemma utf8_encode_ok_text (s : pystr) (b : bytes) :
  utf8_encode s = Ok b -> text s.
Proof.
  revert b; induction s as [|c s IH]; intros b; [constructor|].
  cbn [utf8_encode].
  destruct (utf8_encode_char c) as [bs|] eqn:Ec; [|discriminate].
  destruct (utf8_encode s) as [r|e]; [|discriminate].
  intros _. constructor; [exact (utf8_encode_char_some _ Ec) | exact (IH _ eq_refl)].
Qed.

Lemma utf8_encode_raise (s : pystr) (e : exn) :
  utf8_encode s = Raise e -> e = UnicodeEncodeError.
Proof.
  induction s as [|c s IH]; cbn [utf8_encode]; [discriminate|].
  destruct (utf8_encode_char c) as [bs|]; [|intros [= <-]; reflexivity].
  destruct (utf8_encode s) as [r|e']; [discriminate|].
  intros [= <-]. apply IH. reflexivity.
Qed.

Lemma utf8_encode_not_text (s : pystr) :
  ~ text s -> utf8_encode s = Raise UnicodeEncodeError.
Proof.
  intros Hn. destruct (utf8_encode s) as [b|e] eqn:E.
  - exfalso. apply Hn. exact (utf8_encode_ok_text _ E).
  - rewrite (utf8_encode_raise _ E). reflexivity.
Qed.

(** X4: when the snapshot file cannot be opened for writing,
    [save_chat_history] does not raise, for any value, writes nothing and
    prints one notice; [log_message] does the same for the log file; and
    [initialize_chat_history] with a valid seed still returns normally and
    still prints that the History was initialized, although the snapshot
    is unchanged. *)
Theorem write_failure_is_not_fatal (v seed : json) (w : World) :
  (record_writable w = false ->
   save_chat_history v w
   = (Ok tt, mkWorld (record_file w) (log_file w) (record_writable w)
                     (log_writable w) (trace w ++ [EvPrint ErrSaveHistory])))
  /\ (log_writable w = false ->
      log_message v w
      = (Ok tt, mkWorld (record_file w) (log_file w) (record_writable w)
                        (log_writable w) (trace w ++ [EvPrint ErrLogMessage])))
  /\ (record_writable w = false ->
      valid_seed (seed_or_default seed) ->
      initialize_chat_history seed w
      = (Ok tt,
         mkWorld (record_file w) (log_file w) (record_writable w)
                 (log_writable w)
                 (trace w ++ [EvPrint ErrSaveHistory;
                              EvPrint (HistoryInitialized
                                         (length (items_of (seed_or_default seed))))]))).
Proof.
  split; [apply save_chat_history_unwritable|].
  split; [apply log_message_unwritable|].
  intros Hw Hv. unfold initialize_chat_history. fold (seed_or_default seed).
  apply valid_seed_spec in Hv. rewrite Hv.
  erewrite bind_ok by (apply save_chat_history_unwritable; exact Hw).
  unfold print, emit. proj_world. rewrite <- app_assoc. reflexivity.
Qed.


(** ** Strings that cannot be encoded *)

Lemma escape_char_plain (c : Z) :
  32 <= c -> c <> c_quote -> c <> c_backslash -> escape_char c = [c].
Proof. intros H1 H2 H3. unfold escape_char. zbool. reflexivity. Qed.

Lemma In_escape_str (c : Z) (s : pystr) :
  In c s -> escape_char c = [c] -> In c (escape_str s).
Proof.
  intros Hin Hc. induction s as [|d s IH]; [contradiction|].
  cbn [escape_str]. apply in_or_app. destruct Hin as [->|Hin].
  - left. rewrite Hc. left. reflexivity.
  - right. auto.
Qed.

Lemma In_join (sep chunk : pystr) (chunks : list pystr) (x : Z) :
  In chunk chunks -> In x chunk -> In x (join sep chunks).
Proof.
  intros Hin Hx. induction chunks as [|y l IH]; [contradiction|].
  destruct l as [|z l'].
  - destruct Hin as [->|[]]. exact Hx.
  - cbn [join]. cbn [join] in IH. apply in_or_app. destruct Hin as [->|Hin].
    + left. exact Hx.
    + right. apply in_or_app. right. apply IH. exact Hin.
Qed.

Lemma In_dumps_history_content (c : Z) (m : Message) (h : list Message) :
  In m h -> In c (content m) -> escape_char c = [c] ->
  In c (json_dumps 4 (history_json h)).
Proof.
  intros Hm Hc Hesc. destruct h as [|m0 ms]; [contradiction|].
  rewrite json_dumps_history_cons.
  right. right. apply in_or_app. right. apply in_or_app. left.
  unfold encode_items.
  apply In_join with (chunk := iterencode 4 1 (message_dict m)).
  - apply in_map. apply in_map. exact Hm.
  - rewrite <- (app_nil_r (iterencode _ _ _)), iterencode_message.
    right. apply in_or_app. right. apply in_or_app. right.
    right. right. apply in_or_app. right.
    right. apply in_or_app. right. apply in_or_app. right.
    right. right. apply in_or_app. left.
    unfold encode_basestring. right. apply in_or_app. left.
    apply In_escape_str; assumption.
Qed.

Lemma save_chat_history_unencodable (v : json) (w : World) :
  record_writable w = true ->
  ~ text (json_dumps 4 v) ->
  save_chat_history v w
  = (Raise UnicodeEncodeError,
     mkWorld (Some []) (log_file w) (record_writable w) (log_writable w)
             (trace w)).
Proof.
  intros Hw Hn. apply utf8_encode_not_text in Hn.
  unfold save_chat_history, try_except, bind, open_record_wb, lift.
  rewrite Hw, Hn. cbv beta iota. cbn [is_IOError]. rewrite ?Hw. reflexivity.
Qed.

(** X6: a History in which some Message content holds a surrogate code
    point cannot be saved: on a writable snapshot file
    [save_chat_history] raises [UnicodeEncodeError] (its handler only
    takes [IOError]) after the file was opened for writing, so the
    previous snapshot is replaced by an empty file, and the next
    [load_chat_history] warns and returns the empty History. *)
Theorem save_surrogate_loses_snapshot (h : list Message) (m : Message)
    (c : Z) (w : World) :
  record_writable w = true ->
  In m h -> In c (content m) -> is_surrogate c = true ->
  exists w',
    save_chat_history (history_json h) w = (Raise UnicodeEncodeError, w')
    /\ record_file w' = Some []
    /\ log_file w' = log_file w
    /\ load_chat_history w'
       = (Ok (JArr []),
          mkWorld (Some []) (log_file w) (record_writable w) (log_writable w)
                  (trace w ++ [EvPrint WarnCorruptHistory])).
Proof.
  intros Hw Hm Hc Hs.
  assert (Hesc : escape_char c = [c]).
  { unfold is_surrogate in Hs. apply andb_true_iff in Hs as [H1 H2].
    apply Z.leb_le in H1. apply escape_char_plain; lia. }
  assert (Hn : ~ text (json_dumps 4 (history_json h))).
  { intros Ht. unfold text in Ht. rewrite Forall_forall in Ht.
    destruct (Ht c (In_dumps_history_content _ _ Hm Hc Hesc)) as [_ Hns].
    congruence. }
  eexists. split; [apply save_chat_history_unencodable; assumption|].
  split; [reflexivity|]. split; [reflexivity|].
  apply (@load_chat_history_corrupt
           (mkWorld (Some []) (log_file w) (record_writable w)
                    (log_writable w) (trace w)) []); reflexivity.
Qed.

(** ** Resetting and chaining *)

Lemma valid_seed_history_json (h : list Message) : valid_seed (history_json h).
Proof.
  exists (map message_dict h). split; [reflexivity|].
  apply Forall_forall. intros v Hv. apply in_map_iff in Hv as (m & <- & _).
  exists [(K_ROLE, JStr (role m)); (K_CONTENT, JStr (content m))],
         (JStr (role m)), (JStr (content m)).
  repeat split; reflexivity.
Qed.

(** X8: every History made of Messages passes the validation of
    [initialize_chat_history], and so does whatever
    [get_initial_chat_history] returns; resetting a writable store to a
    well-formed History and loading gives that History back, without
    touching the log file. *)
Theorem reset_then_load (h : list Message) (sm : option pystr) (w : World) :
  valid_seed (history_json h)
  /\ (forall v, get_initial_chat_history sm = Ok v -> valid_seed v)
  /\ (Forall wf_message h ->
      record_writable w = true ->
      exists w1,
        initialize_chat_history (history_json h) w = (Ok tt, w1)
        /\ load_chat_history w1 = (Ok (history_json h), w1)
        /\ log_file w1 = log_file w).
Proof.
  split; [apply valid_seed_history_json|]. split.
  - intros v Hv. unfold get_initial_chat_history in Hv.
    destruct (truthy sm).
    + cbn in Hv. injection Hv as <-.
      apply (valid_seed_history_json
               [mkMessage SYSTEM match sm with Some s => s | None => [] end]).
    + injection Hv as <-. apply (valid_seed_history_json []).
  - intros Hwf Hrw.
    destruct (json_loads_dumps_history Hwf) as (b & Eb & Lb).
    eexists. split.
    { apply (@initialize_chat_history_valid (history_json h) w b);
        [apply valid_seed_history_json | exact Hrw | exact Eb]. }
    split; [|reflexivity].
    apply load_chat_history_present with (b := b); [reflexivity | exact Lb].
Qed.

Lemma grows_In (w w' : World) (e : event) :
  grows w w' -> In e (trace w) -> In e (trace w').
Proof.
  intros (_ & _ & _ & (t & Ht)) Hin. rewrite Ht. apply in_or_app. left.
  exact Hin.
Qed.

(** X9: whenever the starting History is a list (of any JSON values) and
    the prompt is text, [chat] invokes the model capability with the
    starting History followed by the user Message, in this order, whatever
    the capability then answers and whatever happens afterwards. *)
Theorem chat_sends_history_and_prompt (client : Client) (model prompt : pystr)
    (uih : bool) (sm : option pystr) (w w0 : World) (items : list json) :
  starting_history uih sm w = (Ok (JArr items), w0) ->
  text prompt ->
  In (EvLlmCall model
        (JArr (items ++ [message_dict (mkMessage USER prompt)])))
     (trace (snd (chat client model prompt uih sm w))).
Proof.
  intros Hstart Hp.
  assert (Hu : wf_message (mkMessage USER prompt))
    by (split; [apply text_USER | assumption]).
  destruct (text_encodes (text_log_entry Hu)) as (bu & Ebu).
  unfold chat. fold (starting_history uih sm).
  rewrite (bind_ok _ _ _ Hstart).
  change (create_message_dict USER prompt)
    with (Ok (message_dict (mkMessage USER prompt))).
  step_pure.
  destruct (log_writable w0) eqn:Hlw; step_log;
    cbn [list_append]; step_pure;
    (erewrite bind_ok by (apply attempt_call_llm_api));
    match goal with
    | |- In ?e (trace (snd (?k ?w2))) =>
        apply (@grows_In w2 (snd (k w2)) e)
    end;
    try (proj_world; apply in_or_app; right; left; reflexivity);
    match goal with
    | |- grows ?w2 (snd (?k ?w2)) =>
        generalize w2; change (keeps grows k)
    end;
    unfold print;
    repeat first [ apply grows_save_chat_history | apply grows_log_message
                 | keeps_step grows_preorder grows_prim ].
Qed.

(** X10: non-fresh turns chain.  After a first turn on a writable
    snapshot, a second turn with [use_initial_history = False] sends the
    starting History, the first turn's two Messages and the new user
    Message to the model capability, and the snapshot then holds the
    starting History followed by the four Messages.  The starting History
    is well-formed, the prompts and the replies are text. *)
Theorem chat_turns_chain (client : Client) (model p1 p2 : pystr)
    (sm1 sm2 : option pystr) (w w0 : World) (h : list Message) :
  starting_history false sm1 w = (Ok (history_json h), w0) ->
  Forall wf_message h ->
  text p1 -> text p2 ->
  record_writable w = true ->
  (forall msgs s, client model msgs = Ok s -> text s) ->
  let u1 := mkMessage USER p1 in
  let a1 := mkMessage ASSISTANT
              (reply_content (client model (history_json (h ++ [u1])))) in
  let u2 := mkMessage USER p2 in
  let a2 := mkMessage ASSISTANT
              (reply_content
                 (client model (history_json ((h ++ [u1; a1]) ++ [u2])))) in
  exists w1 w2,
    chat client model p1 false sm1 w
    = (Ok (message_dict u1, message_dict a1), w1)
    /\ chat client model p2 false sm2 w1
       = (Ok (message_dict u2, message_dict a2), w2)
    /\ In (EvLlmCall model (history_json ((h ++ [u1; a1]) ++ [u2]))) (trace w2)
    /\ persisted w2 (history_json ((h ++ [u1; a1]) ++ [u2; a2])).
Proof.
  intros Hstart Hh Hp1 Hp2 Hrw Hreply u1 a1 u2 a2.
  destruct (starting_history_world _ _ _ Hstart) as (_ & _ & Hrw0 & _ & _).
  destruct (chat_run client model false sm1 w Hstart Hh Hp1 (Hreply _))
    as (bu1 & ba1 & bh1 & _ & _ & _ & Lbh1 & Hrun1).
  rewrite Hrw0, Hrw in Hrun1. fold u1 in Hrun1, Lbh1. fold a1 in Hrun1, Lbh1.
  match type of Hrun1 with
  | _ = (_, ?w1') => set (w1 := w1') in *
  end.
  assert (Hstart2 : starting_history false sm2 w1
                    = (Ok (history_json (h ++ [u1; a1])), w1)).
  { apply load_chat_history_present with (b := bh1); [reflexivity | exact Lbh1]. }
  assert (Hh2 : Forall wf_message (h ++ [u1; a1])).
  { apply Forall_app; split; [assumption|].
    apply Forall_cons; [split; [apply text_USER | assumption]|].
    apply Forall_cons; [|apply Forall_nil].
    split; [apply text_ASSISTANT|]. unfold a1, reply_content. cbn [content].
    destruct (client model (history_json (h ++ [u1]))) as [s|e] eqn:E;
      [exact (Hreply _ _ E) | apply text_FALLBACK]. }
  destruct (chat_run client model false sm2 w1 Hstart2 Hh2 Hp2 (Hreply _))
    as (bu2 & ba2 & bh2 & _ & _ & _ & Lbh2 & Hrun2).
  fold u2 in Hrun2, Lbh2. fold a2 in Hrun2, Lbh2.
  exists w1. eexists. split; [exact Hrun1|]. split; [exact Hrun2|].
  split.
  - cbn [trace]. apply in_or_app. right. right. left. reflexivity.
  - apply persisted_after_write with (b := bh2); [|exact Lbh2].
    subst w1. cbn [record_file record_writable]. reflexivity.
Qed.

(** ** The audit log as a file *)

Lemma utf8_decode_app (s : pystr) (b rest : bytes) :
  utf8_encode s = Ok b ->
  utf8_decode (b ++ rest)
  = match utf8_decode rest with
    | Ok r => Ok (s ++ r)
    | Raise e => Raise e
    end.
Proof.
  revert b; induction s as [|c s IH]; intros b; cbn [utf8_encode].
  - intros [= <-]. cbn [app]. destruct (utf8_decode rest); reflexivity.
  - destruct (utf8_encode_char c) as [bs|] eqn:Ec; [|discriminate].
    destruct (utf8_encode s) as [b'|e] eqn:Es; [|discriminate].
    intros [= <-]. rewrite <- app_assoc.
    rewrite (utf8_decode_encode_char _ _ Ec), (IH _ eq_refl).
    destruct (utf8_decode rest); reflexivity.
Qed.

Lemma utf8_encode_app (a b : pystr) (ba bb : bytes) :
  utf8_encode a = Ok ba -> utf8_encode b = Ok bb ->
  utf8_encode (a ++ b) = Ok (ba ++ bb).
Proof.
  revert ba; induction a as [|c a IH]; intros ba; cbn [app utf8_encode].
  - intros [= <-] Hb. exact Hb.
  - destruct (utf8_encode_char c) as [bs|]; [|discriminate].
    destruct (utf8_encode a) as [r|]; [|discriminate].
    intros [= <-] Hb. rewrite (IH _ eq_refl Hb), <- app_assoc. reflexivity.
Qed.

Lemma detect_encoding_plain (b0 b1 : Z) (rest : bytes) :
  b0 <> 0 -> b0 <> 0xFF -> b0 <> 0xFE -> b0 <> 0xEF -> b1 <> 0 ->
  detect_encoding (b0 :: b1 :: rest) = UTF8.
Proof.
  intros H0 H1 H2 H3 H4. unfold detect_encoding. cbn [starts_with].
  rewrite (proj2 (Z.eqb_neq 0 b0)) by lia.
  rewrite (proj2 (Z.eqb_neq 255 b0)) by lia.
  rewrite (proj2 (Z.eqb_neq 254 b0)) by lia.
  rewrite (proj2 (Z.eqb_neq 239 b0)) by lia.
  cbn [andb orb byte_at nth].
  rewrite (proj2 (Z.eqb_neq b0 0)) by lia.
  rewrite (proj2 (Z.eqb_neq b1 0)) by lia.
  destruct (Nat.leb _ _); [reflexivity|].
  destruct (Nat.eqb _ _); reflexivity.
Qed.

Lemma json_decode_message_then (m : Message) (rest : pystr) :
  wf_message m ->
  json_decode (json_dumps 4 (message_dict m) ++ rest)
  = match skip_ws rest with
    | [] => Ok (message_dict m)
    | _ :: _ => Raise JSONDecodeError
    end.
Proof.
  intros Hm. unfold json_decode, json_dumps.
  assert (Hs : exists tl, iterencode 4 0 (message_dict m) ++ rest
                          = c_lbrace :: tl)
    by (rewrite iterencode_message; eauto).
  destruct Hs as (tl & Hs).
  assert (Hfuel : exists f,
             (2 * length (iterencode 4 0 (message_dict m) ++ rest) + 2
              = 4 + f)%nat).
  { rewrite Hs. cbn [length]. exists (2 * length tl)%nat. lia. }
  destruct Hfuel as (f & ->).
  rewrite Hs. change (skip_ws (c_lbrace :: tl)) with (c_lbrace :: tl).
  rewrite <- Hs. rewrite (scan_once_message f 0 rest Hm). reflexivity.
Qed.

Lemma utf8_encode_message_head (m : Message) (rest : pystr) (b : bytes) :
  utf8_encode (json_dumps 4 (message_dict m) ++ rest) = Ok b ->
  exists b', b = c_lbrace :: c_nl :: b'.
Proof.
  unfold json_dumps. rewrite iterencode_message. intros E.
  apply utf8_encode_ascii_cons in E as (b1 & -> & E); [|lia].
  unfold newline_indent in E. cbn [app] in E.
  apply utf8_encode_ascii_cons in E as (b2 & -> & E); [|lia].
  eauto.
Qed.

(** X11: what [log_message] appends for a well-formed Message is the
    Message dumped as JSON, a comma and a newline.  Without that separator
    the entry is a JSON document that [json.loads] reads back as the
    Message; with it, a file that begins with an entry is never one:
    [json.loads] raises on it whatever follows, and raises
    [JSONDecodeError] when what follows is decodable. *)
Theorem log_entry_parses_log_does_not (m : Message) (w : World) :
  wf_message m ->
  log_writable w = true ->
  exists bm,
    utf8_encode (json_dumps 4 (message_dict m)) = Ok bm
    /\ log_file (snd (log_message (message_dict m) w))
       = log_file w ++ bm ++ [c_comma; c_nl]
    /\ json_loads bm = Ok (message_dict m)
    /\ (forall rest, exists e,
          json_loads ((bm ++ [c_comma; c_nl]) ++ rest) = Raise e)
    /\ (forall rest r, utf8_decode rest = Ok r ->
          json_loads ((bm ++ [c_comma; c_nl]) ++ rest) = Raise JSONDecodeError).
Proof.
  intros Hm Hlw.
  assert (Htm : text (json_dumps 4 (message_dict m)))
    by (apply text_iterencode_message; exact Hm).
  destruct (utf8_roundtrip Htm) as (bm & Ebm & Dbm).
  assert (Ee : utf8_encode (log_entry (message_dict m))
               = Ok (bm ++ [c_comma; c_nl])).
  { unfold log_entry. apply utf8_encode_app; [exact Ebm | reflexivity]. }
  destruct (utf8_encode_message_head m [] (b := bm)) as (b' & Hb').
  { rewrite app_nil_r. exact Ebm. }
  assert (Hdet : forall rest, detect_encoding (bm ++ rest) = UTF8).
  { intros rest. rewrite Hb'. cbn [app]. apply detect_encoding_plain; lia. }
  exists bm. split; [exact Ebm|]. split.
  { rewrite (log_message_ok _ _ Hlw Ee). reflexivity. }
  split.
  { pose proof (Hdet []) as Hd0. rewrite app_nil_r in Hd0.
    unfold json_loads. rewrite Hd0. cbn [bytes_decode]. rewrite Dbm.
    pose proof (json_decode_message_then [] Hm) as Hj.
    rewrite app_nil_r in Hj. exact Hj. }
  assert (Hloads : forall rest,
             json_loads ((bm ++ [c_comma; c_nl]) ++ rest)
             = match utf8_decode rest with
               | Ok r => Raise JSONDecodeError
               | Raise e => Raise e
               end).
  { intros rest. unfold json_loads. rewrite <- app_assoc, Hdet.
    cbn [bytes_decode]. rewrite app_assoc.
    rewrite (utf8_decode_app _ rest Ee).
    destruct (utf8_decode rest) as [r|e]; [|reflexivity].
    unfold log_entry. rewrite <- app_assoc.
    rewrite (json_decode_message_then _ Hm). reflexivity. }
  split.
  - intros rest. rewrite Hloads. destruct (utf8_decode rest); eauto.
  - intros rest r Hr. rewrite Hloads, Hr. reflexivity.
Qed.

(** ** More on the response extractor *)

Lemma find_fence_no_fence (s b p x y : pystr) :
  find_fence s = Some (b, p) -> b <> x ++ FENCE ++ y.
Proof.
  intros Hf Hb. pose proof (find_fence_sound _ Hf) as Hs.
  destruct (find_fence_complete x (y ++ FENCE ++ p)) as (b' & p' & Hf' & Hlen).
  assert (Hs' : s = x ++ FENCE ++ y ++ FENCE ++ p).
  { rewrite Hs, Hb. rewrite <- !app_assoc. reflexivity. }
  rewrite <- Hs' in Hf'. rewrite Hf in Hf'. injection Hf' as <- _.
  rewrite Hb in Hlen. rewrite !length_app in Hlen. cbn [FENCE length] in Hlen.
  lia.
Qed.

Lemma block_here_find (t b : pystr) :
  block_here t = Some b -> exists s3 p, find_fence s3 = Some (b, p).
Proof.
  unfold block_here. destruct (starts_with FENCE t); [|discriminate].
  destruct (drop_word (skipn 3 t)) as [|c s3]; [discriminate|].
  destruct (c =? c_nl); [|discriminate].
  destruct (find_fence s3) as [[b' p]|] eqn:E; [|discriminate].
  intros [= <-]. eauto.
Qed.

Lemma first_block_find (s b : pystr) :
  first_block s = Some b -> exists s3 p, find_fence s3 = Some (b, p).
Proof.
  induction s as [|c t IH]; cbn [first_block].
  - destruct (block_here []) eqn:E; [|discriminate].
    intros [= <-]. exact (block_here_find _ E).
  - destruct (block_here (c :: t)) eqn:E.
    + intros [= <-]. exact (block_here_find _ E).
    + exact IH.
Qed.

Lemma lstrip_split (s : pystr) : exists ws, s = ws ++ lstrip s.
Proof.
  induction s as [|c t (ws & IH)]; [exists []; reflexivity|].
  cbn [lstrip]. destruct (py_isspace c).
  - exists (c :: ws). cbn [app]. f_equal. exact IH.
  - exists []. reflexivity.
Qed.

Lemma lstrip_head (s t : pystr) (c : Z) :
  lstrip s = c :: t -> py_isspace c = false.
Proof.
  induction s as [|d s IH]; cbn [lstrip]; [discriminate|].
  destruct (py_isspace d) eqn:E; [exact IH|].
  intros [= <- _]. exact E.
Qed.

Lemma strip_split (s : pystr) :
  exists l r, s = l ++ strip s ++ r /\ lstrip s = strip s ++ r.
Proof.
  destruct (lstrip_split s) as (l & Hl).
  destruct (lstrip_split (rev (lstrip s))) as (r & Hr).
  exists l, (rev r).
  assert (H : lstrip s = strip s ++ rev r).
  { unfold strip. rewrite <- rev_app_distr, <- Hr, rev_involutive.
    reflexivity. }
  split; [rewrite <- H; exact Hl | exact H].
Qed.

Lemma strip_ends (s : pystr) :
  (forall c t, strip s = c :: t -> py_isspace c = false)
  /\ (forall t c, strip s = t ++ [c] -> py_isspace c = false).
Proof.
  split.
  - intros c t Hs. destruct (strip_split s) as (l & r & _ & H).
    rewrite Hs in H. cbn [app] in H. exact (lstrip_head _ H).
  - intros t c Hs. unfold strip in Hs.
    apply (f_equal (@rev Z)) in Hs. rewrite rev_involutive, rev_app_distr in Hs.
    cbn [rev app] in Hs. exact (lstrip_head _ Hs).
Qed.

Lemma first_block_strip_no_fence (s b x y : pystr) :
  first_block s = Some b -> strip b <> x ++ FENCE ++ y.
Proof.
  intros Hb Hx. destruct (first_block_find _ Hb) as (s3 & p & Hf).
  destruct (strip_split b) as (l & r & Hsplit & _).
  apply (@find_fence_no_fence s3 b p (l ++ x) (y ++ r) Hf).
  rewrite Hsplit at 1. rewrite Hx. rewrite <- !app_assoc. reflexivity.
Qed.

Lemma first_block_no_two_fences (s : pystr) :
  (forall a b c, s <> a ++ FENCE ++ b ++ FENCE ++ c) -> first_block s = None.
Proof.
  intros Hn. destruct (first_block s) as [b|] eqn:E; [|reflexivity].
  destruct (first_block_sound _ E) as (pre & tag & post & [Hs _] & _).
  exfalso. apply (Hn pre (tag ++ [c_nl] ++ b) post).
  rewrite Hs. rewrite <- !app_assoc. reflexivity.
Qed.

Lemma extract_code_snippet_unfenced (txt : pystr) :
  (forall a b c, txt <> a ++ FENCE ++ b ++ FENCE ++ c) ->
  extract_code_snippet txt = Ok txt.
Proof.
  intros Hn. rewrite extract_code_snippet_first_block,
    (first_block_no_two_fences Hn). reflexivity.
Qed.

(** X12: [extract_code_snippet] never raises, and a text in which the
    delimiter does not occur twice (no fence at all, or an opening fence
    that is never closed) is returned as it is. *)
Theorem extract_code_snippet_total (txt : pystr) :
  (exists out, extract_code_snippet txt = Ok out)
  /\ ((forall a b c, txt <> a ++ FENCE ++ b ++ FENCE ++ c) ->
      extract_code_snippet txt = Ok txt).
Proof.
  split.
  - rewrite extract_code_snippet_first_block. eauto.
  - apply extract_code_snippet_unfenced.
Qed.

(** X13: when the text has a fenced block, what [extract_code_snippet]
    returns contains no delimiter and neither begins nor ends with a
    whitespace character. *)
Theorem extract_code_snippet_clean (txt out pre tag body post : pystr) :
  fenced txt pre tag body post ->
  extract_code_snippet txt = Ok out ->
  (forall x y, out <> x ++ FENCE ++ y)
  /\ (forall c t, out = c :: t -> py_isspace c = false)
  /\ (forall t c, out = t ++ [c] -> py_isspace c = false).
Proof.
  intros Hf. rewrite extract_code_snippet_first_block.
  destruct (first_block txt) as [b|] eqn:E.
  - intros [= <-]. split; [|apply strip_ends].
    intros x y. exact (@first_block_strip_no_fence txt b x y E).
  - exfalso. eapply first_block_none; eassumption.
Qed.

(** X14: [extract_code_snippet] is idempotent: applied to its own result
    it returns that result. *)
Theorem extract_code_snippet_idempotent (txt out : pystr) :
  extract_code_snippet txt = Ok out ->
  extract_code_snippet out = Ok out.
Proof.
  rewrite extract_code_snippet_first_block.
  destruct (first_block txt) as [b|] eqn:E; intros [= <-].
  - apply extract_code_snippet_unfenced. intros a b' c H.
    apply (@first_block_strip_no_fence txt b a (b' ++ FENCE ++ c) E). exact H.
  - rewrite extract_code_snippet_first_block, E. reflexivity.
Qed.

(** ** More on the grammar turn *)

Lemma modify_grammer_prompt_raises (CLIENT : Client) (BASE_DIR : pystr)
    (json_reader : pystr -> result json) (im es : pystr) (w : World)
    (e : exn) :
  grammar_prompt BASE_DIR json_reader im es = Raise e ->
  modify_grammer CLIENT BASE_DIR json_reader im es w = (Raise e, w).
Proof.
  intros H. rewrite modify_grammer_unfold, H. reflexivity.
Qed.

(** X15: [modify_grammer] fails before it touches the store or the model
    capability when the template cannot be used: an exception of the
    template reader is passed on; a template that is not a dict, or whose
    entry [current_correction_context] is not a dict, gives [TypeError]. *)
Theorem modify_grammer_template_errors (CLIENT : Client) (BASE_DIR : pystr)
    (json_reader : pystr -> result json) (im es : pystr) (w : World) :
  (forall e, json_reader (grammar_template_path BASE_DIR) = Raise e ->
     modify_grammer CLIENT BASE_DIR json_reader im es w = (Raise e, w))
  /\ (forall d, json_reader (grammar_template_path BASE_DIR) = Ok d ->
        (forall f, d <> JObj f) ->
        modify_grammer CLIENT BASE_DIR json_reader im es w
        = (Raise TypeError, w))
  /\ (forall f c, json_reader (grammar_template_path BASE_DIR) = Ok (JObj f) ->
        dict_get K_CONTEXT f = Some c ->
        (forall g, c <> JObj g) ->
        modify_grammer CLIENT BASE_DIR json_reader im es w
        = (Raise TypeError, w)).
Proof.
  unfold grammar_template_path. split; [|split].
  - intros e He. apply modify_grammer_prompt_raises.
    unfold grammar_prompt. rewrite He. reflexivity.
  - intros d Hd Hn. apply modify_grammer_prompt_raises.
    unfold grammar_prompt. rewrite Hd.
    destruct d; try reflexivity. exfalso. eapply Hn. reflexivity.
  - intros f c Hd Hc Hn. apply modify_grammer_prompt_raises.
    unfold grammar_prompt. rewrite Hd. cbn [lacks_key].
    assert (Hh : dict_has K_CONTEXT f = true) by (apply dict_has_get; eauto).
    rewrite Hh. cbn [negb]. unfold setitem2. cbn [getitem]. rewrite Hc.
    destruct c; try reflexivity. exfalso. eapply Hn. reflexivity.
Qed.

Lemma dict_get_set_same (k : pystr) (v : json) (d : list (pystr * json)) :
  dict_get k (dict_set k v d) = Some v.
Proof.
  induction d as [|[k' v'] d IH]; cbn [dict_set dict_get].
  - rewrite str_eqb_refl. reflexivity.
  - destruct (str_eqb k k') eqn:E; cbn [dict_get]; rewrite E;
      [reflexivity | exact IH].
Qed.

Lemma dict_get_set_other (k k' : pystr) (v : json) (d : list (pystr * json)) :
  k <> k' -> dict_get k (dict_set k' v d) = dict_get k d.
Proof.
  intros Hne. induction d as [|[k0 v0] d IH]; cbn [dict_set dict_get].
  - destruct (str_eqb k k') eqn:E; [|reflexivity].
    apply str_eqb_eq in E. contradiction.
  - destruct (str_eqb k' k0) eqn:E'; cbn [dict_get].
    + apply str_eqb_eq in E'. subst k0.
      destruct (str_eqb k k') eqn:E; [|reflexivity].
      apply str_eqb_eq in E. contradiction.
    + rewrite IH. reflexivity.
Qed.

Lemma dict_get_In (k : pystr) (v : json) (d : list (pystr * json)) :
  dict_get k d = Some v -> exists k', In (k', v) d.
Proof.
  induction d as [|[k0 v0] d IH]; cbn [dict_get]; [discriminate|].
  destruct (str_eqb k k0).
  - intros [= ->]. exists k0. left. reflexivity.
  - intros H. destruct (IH H) as (k' & Hin). exists k'. right. exact Hin.
Qed.

Lemma contains_refl (s : pystr) : contains s s.
Proof. exists [], []. rewrite app_nil_r. reflexivity. Qed.

Lemma contains_trans (s t u : pystr) :
  contains s t -> contains t u -> contains s u.
Proof.
  intros (a & b & ->) (a' & b' & ->). exists (a ++ a'), (b' ++ b).
  rewrite <- !app_assoc. reflexivity.
Qed.

Lemma contains_app_l (s t x : pystr) : contains t x -> contains (s ++ t) x.
Proof.
  intros (a & b & ->). exists (s ++ a), b. rewrite <- !app_assoc. reflexivity.
Qed.

Lemma contains_app_r (s t x : pystr) : contains s x -> contains (s ++ t) x.
Proof.
  intros (a & b & ->). exists a, (b ++ t). rewrite <- !app_assoc. reflexivity.
Qed.

Lemma contains_join (sep chunk : pystr) (chunks : list pystr) :
  In chunk chunks -> contains (join sep chunks) chunk.
Proof.
  intros Hin. induction chunks as [|y l IH]; [contradiction|].
  destruct l as [|z l'].
  - destruct Hin as [->|[]]. apply contains_refl.
  - cbn [join]. cbn [join] in IH. destruct Hin as [->|Hin].
    + apply contains_app_r, contains_refl.
    + apply contains_app_l, contains_app_l, IH. exact Hin.
Qed.

Lemma contains_iterencode_field (indent level : nat) (k : pystr) (v : json)
    (d : list (pystr * json)) :
  dict_get k d = Some v ->
  contains (iterencode indent level (JObj d)) (iterencode indent (S level) v).
Proof.
  intros Hg. destruct (dict_get_In _ _ Hg) as (k' & Hin).
  destruct d as [|p d']; [contradiction|].
  cbn [iterencode]. apply contains_app_l, contains_app_l, contains_app_r.
  eapply contains_trans.
  - apply contains_join.
    apply (in_map (fun kv : pystr * json =>
                     let (k0, x) := kv in
                     encode_basestring k0 ++ [c_colon; c_space]
                     ++ iterencode indent (S level) x) _ _ Hin).
  - cbn beta iota. apply contains_app_l, contains_app_l, contains_refl.
Qed.

Lemma setitem2_dict (f g : list (pystr * json)) (k1 k2 : pystr) (v : json) :
  dict_get k1 f = Some (JObj g) ->
  setitem2 (JObj f) k1 k2 v
  = Ok (JObj (dict_set k1 (JObj (dict_set k2 v g)) f)).
Proof. intros H. unfold setitem2. cbn [getitem]. rewrite H. reflexivity. Qed.

(** The dict that [modify_grammer] dumps, for a template that is a dict
    whose context entry, if any, is a dict. *)
Lemma grammar_prompt_dict (BASE_DIR : pystr)
    (json_reader : pystr -> result json) (im es : pystr)
    (f : list (pystr * json)) :
  json_reader (grammar_template_path BASE_DIR) = Ok (JObj f) ->
  (dict_get K_CONTEXT f = None
   \/ exists g, dict_get K_CONTEXT f = Some (JObj g)) ->
  exists f' g',
    grammar_prompt BASE_DIR json_reader im es = Ok (json_dumps 2 (JObj f'))
    /\ dict_get K_CONTEXT f' = Some (JObj g')
    /\ dict_get (str_of "error_instruction") g'
       = Some (JStr error_instruction_with_id_prompt)
    /\ dict_get (str_of "compilation_error_message") g' = Some (JStr es)
    /\ dict_get (str_of "model_to_correct") g' = Some (JStr im)
    /\ (forall k, k <> K_CONTEXT -> dict_get k f' = dict_get k f).
Proof.
  intros Hr Hc. unfold grammar_template_path in Hr.
  unfold grammar_prompt. rewrite Hr. cbn [lacks_key].
  assert (Hstart : exists f1 g1,
             (if negb (dict_has K_CONTEXT f)
              then setitem (JObj f) K_CONTEXT (JObj [])
              else Ok (JObj f)) = Ok (JObj f1)
             /\ dict_get K_CONTEXT f1 = Some (JObj g1)
             /\ (forall k, k <> K_CONTEXT -> dict_get k f1 = dict_get k f)).
  { destruct Hc as [Hnone | (g & Hg)].
    - assert (Hh : dict_has K_CONTEXT f = false).
      { destruct (dict_has K_CONTEXT f) eqn:E; [|reflexivity].
        apply dict_has_get in E as (x & Hx). congruence. }
      rewrite Hh. cbn [negb setitem]. eexists _, []. split; [reflexivity|].
      split; [apply dict_get_set_same|].
      intros k Hk. apply dict_get_set_other. exact Hk.
    - assert (Hh : dict_has K_CONTEXT f = true) by (apply dict_has_get; eauto).
      rewrite Hh. cbn [negb]. exists f, g. auto. }
  destruct Hstart as (f1 & g1 & -> & Hg1 & Hk1).
  erewrite setitem2_dict by exact Hg1.
  erewrite setitem2_dict by apply dict_get_set_same.
  erewrite setitem2_dict by apply dict_get_set_same.
  eexists _, _. split; [reflexivity|].
  split; [apply dict_get_set_same|].
  split.
  { rewrite !dict_get_set_other by discriminate. apply dict_get_set_same. }
  split.
  { rewrite dict_get_set_other by discriminate. apply dict_get_set_same. }
  split; [apply dict_get_set_same|].
  intros k Hk. rewrite !dict_get_set_other by exact Hk. apply Hk1. exact Hk.
Qed.

(** X16: for a template that is a dict whose entry
    [current_correction_context], if present, is a dict, [modify_grammer]
    builds a prompt: the dump of the template in which that entry holds the
    error instruction, the compiler message and the model text, every
    other top-level entry being kept; the prompt contains the compiler
    message and the model text as JSON strings. *)
Theorem grammar_prompt_contents (BASE_DIR : pystr)
    (json_reader : pystr -> result json) (im es : pystr)
    (f : list (pystr * json)) :
  json_reader (grammar_template_path BASE_DIR) = Ok (JObj f) ->
  (dict_get K_CONTEXT f = None
   \/ exists g, dict_get K_CONTEXT f = Some (JObj g)) ->
  exists p f' g',
    grammar_prompt BASE_DIR json_reader im es = Ok p
    /\ p = json_dumps 2 (JObj f')
    /\ dict_get K_CONTEXT f' = Some (JObj g')
    /\ dict_get (str_of "compilation_error_message") g' = Some (JStr es)
    /\ dict_get (str_of "model_to_correct") g' = Some (JStr im)
    /\ (forall k, k <> K_CONTEXT -> dict_get k f' = dict_get k f)
    /\ contains p (encode_basestring es)
    /\ contains p (encode_basestring im).
Proof.
  intros Hr Hc.
  destruct (grammar_prompt_dict BASE_DIR json_reader im es Hr Hc)
    as (f' & g' & Hp & Hctx & _ & Hes & Him & Hk).
  exists (json_dumps 2 (JObj f')), f', g'.
  repeat (split; [assumption || reflexivity|]).
  unfold json_dumps. split.
  - eapply contains_trans; [apply (contains_iterencode_field 2 0 _ _ Hctx)|].
    apply (contains_iterencode_field 2 1 _ _ Hes).
  - eapply contains_trans; [apply (contains_iterencode_field 2 0 _ _ Hctx)|].
    apply (contains_iterencode_field 2 1 _ _ Him).
Qed.

Lemma extract_code_snippet_FALLBACK : extract_code_snippet FALLBACK = Ok FALLBACK.
Proof. reflexivity. Qed.

(** X17: what [modify_grammer] returns as the suggested model is
    [extract_code_snippet] of the assistant's content; so when the model
    capability raises, the turn still returns normally and the suggested
    model is the fallback notice itself.  The prompt and the reply are
    text; the files need not be writable. *)
Theorem modify_grammer_suggestion (CLIENT : Client) (BASE_DIR : pystr)
    (json_reader : pystr -> result json) (im es prompt : pystr) (w : World) :
  grammar_prompt BASE_DIR json_reader im es = Ok prompt ->
  text prompt ->
  let sys := mkMessage SYSTEM GRAMMAR_SYSTEM_MESSAGE in
  let u := mkMessage USER prompt in
  let outcome := CLIENT MODEL (history_json [sys; u]) in
  (forall s, outcome = Ok s -> text s) ->
  let a := mkMessage ASSISTANT (reply_content outcome) in
  exists w' sug,
    modify_grammer CLIENT BASE_DIR json_reader im es w
    = (Ok (message_dict u, message_dict a, sug), w')
    /\ extract_code_snippet (reply_content outcome) = Ok sug
    /\ (forall e, outcome = Raise e -> sug = FALLBACK).
Proof.
  intros Hp Ht sys u outcome Hreply a.
  assert (Hstart : starting_history true (Some GRAMMAR_SYSTEM_MESSAGE) w
                   = (Ok (history_json [sys]), w)) by reflexivity.
  assert (Hh : Forall wf_message [sys]).
  { apply Forall_cons; [|apply Forall_nil].
    split; [apply text_SYSTEM | apply text_GRAMMAR_SYSTEM_MESSAGE]. }
  destruct (chat_run CLIENT MODEL true (Some GRAMMAR_SYSTEM_MESSAGE) w
              Hstart Hh Ht Hreply)
    as (bu & ba & bh & _ & _ & _ & _ & Hrun).
  match type of Hrun with
  | _ = (_, ?w0) =>
      destruct (grammar_finish_run u a w0) as (sug & Hsug & Hfin);
      exists w0, sug
  end.
  split.
  - rewrite modify_grammer_unfold, Hp.
    unfold lift at 1. erewrite bind_ok by reflexivity.
    erewrite bind_ok by exact Hrun. exact Hfin.
  - split; [exact Hsug|].
    intros e He. cbn [content a] in Hsug. fold outcome in Hsug.
    rewrite He in Hsug. cbn [reply_content] in Hsug.
    rewrite extract_code_snippet_FALLBACK in Hsug. congruence.
Qed.

(** ** The spelling turn *)

Lemma text_SPELL_SYSTEM_MESSAGE : text SPELL_SYSTEM_MESSAGE.
Proof. apply text_of_scalarb. vm_compute. reflexivity. Qed.

Lemma text_SPELL_HEADING : text SPELL_HEADING.
Proof. apply text_of_scalarb. vm_compute. reflexivity. Qed.

Lemma modify_spell_unfold (CLIENT : Client) (BASE_DIR : pystr)
    (json_reader : pystr -> result json) (im : pystr) (w : World) :
  modify_spell CLIENT BASE_DIR json_reader im w
  = bind (lift (json_reader (spell_template_path BASE_DIR)))
      (fun t =>
         bind (lift (py_copy t))
           (fun d =>
              bind (chat CLIENT MODEL (json_dumps 2 d ++ SPELL_HEADING ++ im)
                      true (Some SPELL_SYSTEM_MESSAGE))
                   grammar_finish)) w.
Proof. reflexivity. Qed.

(** X18: [modify_spell] fails before it touches the store or the model
    capability when the template cannot be used: an exception of the
    template reader is passed on, and a template that is neither a dict
    nor a list gives [AttributeError]. *)
Theorem modify_spell_template_errors (CLIENT : Client) (BASE_DIR : pystr)
    (json_reader : pystr -> result json) (im : pystr) (w : World) :
  (forall e, json_reader (spell_template_path BASE_DIR) = Raise e ->
     modify_spell CLIENT BASE_DIR json_reader im w = (Raise e, w))
  /\ (forall t, json_reader (spell_template_path BASE_DIR) = Ok t ->
        (forall f, t <> JObj f) -> (forall l, t <> JArr l) ->
        modify_spell CLIENT BASE_DIR json_reader im w
        = (Raise AttributeError, w)).
Proof.
  split.
  - intros e He. rewrite modify_spell_unfold, He. reflexivity.
  - intros t Ht Hf Hl. rewrite modify_spell_unfold, Ht.
    destruct t; try reflexivity; exfalso.
    + eapply Hl; reflexivity.
    + eapply Hf; reflexivity.
Qed.

(** X19: a spelling turn starts afresh.  For a template that is a dict or
    a list, whatever the snapshot holds, [modify_spell] sends to the model
    capability the spelling system message and one user Message: the
    2-space dump of the template, a heading and the model text as it is.
    It returns that Message, the assistant's Message and
    [extract_code_snippet] of its content, which is the fallback notice
    when the capability raises; on a writable snapshot file the three
    Messages are then the History.  The dump, the model text and the
    reply are text. *)
Theorem modify_spell_turn (CLIENT : Client) (BASE_DIR : pystr)
    (json_reader : pystr -> result json) (im : pystr) (t : json)
    (w : World) :
  json_reader (spell_template_path BASE_DIR) = Ok t ->
  ((exists f, t = JObj f) \/ (exists l, t = JArr l)) ->
  text (json_dumps 2 t) ->
  text im ->
  let sys := mkMessage SYSTEM SPELL_SYSTEM_MESSAGE in
  let u := mkMessage USER (json_dumps 2 t ++ SPELL_HEADING ++ im) in
  let outcome := CLIENT MODEL (history_json [sys; u]) in
  (forall s, outcome = Ok s -> text s) ->
  let a := mkMessage ASSISTANT (reply_content outcome) in
  exists w' sug,
    modify_spell CLIENT BASE_DIR json_reader im w
    = (Ok (message_dict u, message_dict a, sug), w')
    /\ extract_code_snippet (reply_content outcome) = Ok sug
    /\ (forall e, outcome = Raise e -> sug = FALLBACK)
    /\ In (EvLlmCall MODEL (history_json [sys; u])) (trace w')
    /\ (record_writable w = true -> persisted w' (history_json [sys; u; a])).
Proof.
  intros Ht Hshape Hd Him sys u outcome Hreply a.
  assert (Hcopy : py_copy t = Ok t)
    by (destruct Hshape as [[f ->]|[l ->]]; reflexivity).
  assert (Hstart : starting_history true (Some SPELL_SYSTEM_MESSAGE) w
                   = (Ok (history_json [sys]), w)) by reflexivity.
  assert (Hh : Forall wf_message [sys]).
  { apply Forall_cons; [|apply Forall_nil].
    split; [apply text_SYSTEM | apply text_SPELL_SYSTEM_MESSAGE]. }
  assert (Hp : text (json_dumps 2 t ++ SPELL_HEADING ++ im)).
  { apply text_app; [exact Hd|].
    apply text_app; [apply text_SPELL_HEADING | exact Him]. }
  destruct (chat_run CLIENT MODEL true (Some SPELL_SYSTEM_MESSAGE) w
              Hstart Hh Hp Hreply)
    as (bu & ba & bh & _ & _ & _ & Hload & Hrun).
  match type of Hrun with
  | _ = (_, ?w0) =>
      destruct (grammar_finish_run u a w0) as (sug & Hsug & Hfin);
      exists w0, sug
  end.
  split; [|split; [|split; [|split]]].
  - rewrite modify_spell_unfold, Ht.
    unfold lift at 1. erewrite bind_ok by reflexivity.
    rewrite Hcopy. unfold lift at 1. erewrite bind_ok by reflexivity.
    erewrite bind_ok by exact Hrun. exact Hfin.
  - exact Hsug.
  - intros e He. cbn [content a] in Hsug. fold outcome in Hsug.
    rewrite He in Hsug. cbn [reply_content] in Hsug.
    rewrite extract_code_snippet_FALLBACK in Hsug. congruence.
  - cbn [trace]. apply in_or_app. right. apply in_or_app. left.
    right. left. reflexivity.
  - intros Hw. eapply persisted_after_write; [|exact Hload].
    cbn [record_file]. rewrite Hw. reflexivity.
Qed.

(** ** The readers of the prompt templates and of the model file *)

Lemma utf8_decode_bom (b : bytes) :
  utf8_decode (0xEF :: 0xBB :: 0xBF :: b) = cons_ok 0xFEFF (utf8_decode b).
Proof. reflexivity. Qed.

Lemma json_loads_bom (b : bytes) :
  json_loads (0xEF :: 0xBB :: 0xBF :: b)
  = match utf8_decode b with Ok s => json_decode s | Raise e => Raise e end.
Proof. reflexivity. Qed.

Lemma utf8_decode_strict_ok (b : bytes) (s : pystr) :
  utf8_decode_strict b = Ok s ->
  utf8_decode b = Ok s /\ existsb is_surrogate s = false.
Proof.
  unfold utf8_decode_strict.
  destruct (utf8_decode b) as [s0|e]; [|discriminate].
  destruct (existsb is_surrogate s0) eqn:E; [discriminate|].
  intros [= <-]. split; [reflexivity | exact E].
Qed.

Lemma json_reader_bom (disk : Disk) (p : pystr) (b : bytes) (s : pystr) :
  disk p = Some (0xEF :: 0xBB :: 0xBF :: b) ->
  utf8_decode_strict b = Ok s ->
  json_reader disk p = Raise JSONDecodeError.
Proof.
  intros Hp Hs. destruct (utf8_decode_strict_ok _ Hs) as [Hd Hn].
  unfold json_reader. rewrite Hp. unfold utf8_decode_strict.
  rewrite utf8_decode_bom, Hd. cbn [cons_ok existsb]. rewrite Hn.
  reflexivity.
Qed.

(** X20: a byte order mark separates the two JSON readers of the
    program.  When a file is the UTF-8 byte order mark followed by a JSON
    document in UTF-8, [load_chat_history] returns the document, whereas
    [json_reader] raises [JSONDecodeError]; as a template it makes
    [modify_grammer] and [modify_spell] raise that error before they touch
    the store or the model capability. *)
Theorem byte_order_mark_splits_the_readers (CLIENT : Client)
    (BASE_DIR : pystr) (disk : Disk) (p : pystr) (b : bytes) (s : pystr)
    (v : json) (im es : pystr) (w : World) :
  utf8_decode_strict b = Ok s ->
  json_decode s = Ok v ->
  (record_file w = Some (0xEF :: 0xBB :: 0xBF :: b) ->
   load_chat_history w = (Ok v, w))
  /\ (disk p = Some (0xEF :: 0xBB :: 0xBF :: b) ->
      json_reader disk p = Raise JSONDecodeError)
  /\ (disk (grammar_template_path BASE_DIR) = Some (0xEF :: 0xBB :: 0xBF :: b) ->
      modify_grammer CLIENT BASE_DIR (json_reader disk) im es w
      = (Raise JSONDecodeError, w))
  /\ (disk (spell_template_path BASE_DIR) = Some (0xEF :: 0xBB :: 0xBF :: b) ->
      modify_spell CLIENT BASE_DIR (json_reader disk) im w
      = (Raise JSONDecodeError, w)).
Proof.
  intros Hs Hv. destruct (utf8_decode_strict_ok _ Hs) as [Hd _].
  split; [|split; [|split]].
  - intros Hf. eapply load_chat_history_present; [exact Hf|].
    rewrite json_loads_bom, Hd. exact Hv.
  - intros Hp. eapply json_reader_bom; eassumption.
  - intros Hp. apply modify_grammer_prompt_raises.
    unfold grammar_prompt. fold (grammar_template_path BASE_DIR).
    erewrite json_reader_bom by eassumption. reflexivity.
  - intros Hp. rewrite modify_spell_unfold.
    erewrite json_reader_bom by eassumption. reflexivity.
Qed.

(** ** The interactive workflow *)

Lemma sbind_done {A B} (m : Script A) (f : A -> Script B) (s s' : Session)
    (a : A) :
  m s = (Done a, s') -> sbind m f s = f a s'.
Proof. intros H. unfold sbind. rewrite H. reflexivity. Qed.

Lemma sbind_halt {A B} (m : Script A) (f : A -> Script B) (s s' : Session)
    (h : halt) :
  m s = (Halt h, s') -> sbind m f s = (Halt h, s').
Proof. intros H. unfold sbind. rewrite H. reflexivity. Qed.

Ltac proj_session := cbn [store disk pending console fst snd].

(** One iteration of the loop that waits for the user. *)
Lemma confirm_loop_step (BASE_DIR : pystr)
    (locale_decode : bytes -> result pystr) (f : nat) (q : question)
    (retry : shown) (s : Session) :
  confirm_loop BASE_DIR locale_decode (S f) q retry s
  = match pending s with
    | [] =>
        (Halt EOFError,
         mkSession (store s) (disk s) [] (console s ++ [Asked q]))
    | a :: rest =>
        if upper_is_Y (typed a) then
          match txt_reader (disk_then a) locale_decode
                  (current_model_path BASE_DIR) with
          | Ok m =>
              (Done m, mkSession (store s) (disk_then a) rest
                         ((console s ++ [Asked q]) ++ [Reloaded]))
          | Raise e =>
              (Halt (Uncaught e),
               mkSession (store s) (disk_then a) rest
                 (console s ++ [Asked q]))
          end
        else
          confirm_loop BASE_DIR locale_decode f q retry
            (mkSession (store s) (disk_then a) rest
               ((console s ++ [Asked q]) ++ [retry]))
    end.
Proof.
  cbn [confirm_loop]. unfold sbind at 1, input.
  destruct (pending s) as [|a rest]; [reflexivity|].
  destruct (upper_is_Y (typed a)); [|reflexivity].
  unfold sbind, with_disk, pure, say, sret. proj_session.
  destruct (txt_reader _ _ _); reflexivity.
Qed.

(** One iteration of the grammar loop. *)
Lemma grammar_loop_step (CLIENT : Client) (BASE_DIR : pystr)
    (locale_decode : bytes -> result pystr) (f : nat) (m : pystr)
    (s : Session) :
  grammar_loop CLIENT BASE_DIR locale_decode (S f) m s
  = match pending s with
    | [] =>
        (Halt EOFError,
         mkSession (store s) (disk s) [] (console s ++ [Asked AskCompiled]))
    | a :: rest =>
        let c1 := console s ++ [Asked AskCompiled] in
        if upper_is_Y (typed a) then
          (Done m, mkSession (store s) (disk_then a) rest
                     (c1 ++ [SyntaxCorrected]))
        else if upper_is_N (typed a) then
          match rest with
          | [] =>
              (Halt EOFError,
               mkSession (store s) (disk_then a) []
                 (c1 ++ [Asked AskCompilationError]))
          | b :: rest' =>
              let c2 := c1 ++ [Asked AskCompilationError] in
              match modify_grammer CLIENT BASE_DIR (json_reader (disk_then b))
                      m (typed b) (store s) with
              | (Raise e, w1) =>
                  (Halt (Uncaught e), mkSession w1 (disk_then b) rest' c2)
              | (Ok (p, r, sug), w1) =>
                  let c3 := (c2 ++ [GrammarSuggestion]) ++ [ShowPrompt p] in
                  match getitem r K_CONTENT with
                  | Raise e =>
                      (Halt (Uncaught e), mkSession w1 (disk_then b) rest' c3)
                  | Ok c =>
                      sbind (confirm_loop BASE_DIR locale_decode f
                               AskGrammarDone InputY)
                        (fun m' =>
                           sbind (say (ShowNext m'))
                             (fun _ =>
                                grammar_loop CLIENT BASE_DIR locale_decode
                                  f m'))
                        (mkSession w1 (disk_then b) rest'
                           ((c3 ++ [ShowResponse c]) ++ [ShowSuggested sug]))
                  end
              end
          end
        else
          grammar_loop CLIENT BASE_DIR locale_decode f m
            (mkSession (store s) (disk_then a) rest (c1 ++ [InvalidInput]))
    end.
Proof.
  cbn [grammar_loop]. unfold sbind at 1, input at 1.
  destruct (pending s) as [|a rest]; [reflexivity|]. cbv zeta.
  destruct (upper_is_Y (typed a)); [reflexivity|].
  destruct (upper_is_N (typed a)); [|reflexivity].
  unfold sbind at 1, input at 1. proj_session.
  destruct rest as [|b rest']; [reflexivity|].
  unfold sbind at 1, with_disk, in_store. proj_session.
  destruct (modify_grammer _ _ _ _ _ _) as [[[[p r] sug]|e] w1]; [|reflexivity].
  unfold sbind at 1, say at 1. proj_session.
  unfold sbind at 1, say at 1. proj_session.
  unfold sbind at 1, pure at 1.
  destruct (getitem r K_CONTENT) as [c|e]; [|reflexivity].
  unfold sbind at 1, say at 1. proj_session.
  unfold sbind at 1, say at 1. proj_session.
  reflexivity.
Qed.

(** What the loops do to the standard input and to the store. *)
Lemma confirm_loop_pending (BASE_DIR : pystr)
    (locale_decode : bytes -> result pystr) (f : nat) (q : question)
    (retry : shown) (s : Session) :
  exists used,
    pending s
    = used ++ pending (snd (confirm_loop BASE_DIR locale_decode f q retry s))
    /\ store (snd (confirm_loop BASE_DIR locale_decode f q retry s)) = store s.
Proof.
  revert s; induction f as [|f IH]; intros s.
  - exists []. split; reflexivity.
  - rewrite confirm_loop_step.
    destruct (pending s) as [|a rest] eqn:Ep.
    + exists []. split; reflexivity.
    + destruct (upper_is_Y (typed a)).
      * exists [a].
        destruct (txt_reader _ _ _); split; reflexivity.
      * match goal with
        | |- context [confirm_loop _ _ f q retry ?s1] =>
            destruct (IH s1) as (used & Hu & Hs)
        end.
        exists (a :: used). cbn [store disk pending console fst snd] in Hu. rewrite Hu at 1.
        split; [reflexivity | exact Hs].
Qed.

Lemma confirm_loop_fuel (BASE_DIR : pystr)
    (locale_decode : bytes -> result pystr) (f f' : nat) (q : question)
    (retry : shown) (s : Session) :
  (length (pending s) < f)%nat -> (length (pending s) < f')%nat ->
  confirm_loop BASE_DIR locale_decode f q retry s
  = confirm_loop BASE_DIR locale_decode f' q retry s
  /\ fst (confirm_loop BASE_DIR locale_decode f q retry s) <> Halt OutOfFuel.
Proof.
  revert f' s; induction f as [|f IH]; intros f' s Hf Hf'; [lia|].
  destruct f' as [|f']; [lia|].
  rewrite !confirm_loop_step.
  destruct (pending s) as [|a rest] eqn:Ep.
  - split; [reflexivity | discriminate].
  - cbn [length] in Hf, Hf'.
    destruct (upper_is_Y (typed a)).
    + destruct (txt_reader _ _ _); split; try reflexivity; discriminate.
    + apply IH; proj_session; lia.
Qed.

Lemma grammar_loop_fuel (CLIENT : Client) (BASE_DIR : pystr)
    (locale_decode : bytes -> result pystr) (f f' : nat) (m : pystr)
    (s : Session) :
  (length (pending s) < f)%nat -> (length (pending s) < f')%nat ->
  grammar_loop CLIENT BASE_DIR locale_decode f m s
  = grammar_loop CLIENT BASE_DIR locale_decode f' m s
  /\ fst (grammar_loop CLIENT BASE_DIR locale_decode f m s) <> Halt OutOfFuel.
Proof.
  revert f' m s; induction f as [|f IH]; intros f' m s Hf Hf'; [lia|].
  destruct f' as [|f']; [lia|].
  rewrite !grammar_loop_step.
  destruct (pending s) as [|a rest] eqn:Ep.
  - split; [reflexivity | discriminate].
  - cbn [length] in Hf, Hf'. cbv zeta.
    destruct (upper_is_Y (typed a)); [split; [reflexivity | discriminate]|].
    destruct (upper_is_N (typed a)); [|apply IH; proj_session; lia].
    destruct rest as [|b rest']; [split; [reflexivity | discriminate]|].
    cbn [length] in Hf, Hf'.
    destruct (modify_grammer _ _ _ _ _ _) as [[[[p r] sug]|e] w1];
      [|split; [reflexivity | discriminate]].
    destruct (getitem r K_CONTENT) as [c|e];
      [|split; [reflexivity | discriminate]].
    match goal with
    | |- context [sbind (confirm_loop _ _ f _ _) _ ?s2] =>
        destruct (@confirm_loop_fuel BASE_DIR locale_decode f f'
                    AskGrammarDone InputY s2) as [Heq Hne];
          [proj_session; lia | proj_session; lia |];
        destruct (confirm_loop_pending BASE_DIR locale_decode f
                    AskGrammarDone InputY s2) as (used & Hu & _);
        unfold sbind, say; rewrite <- Heq;
        destruct (confirm_loop BASE_DIR locale_decode f AskGrammarDone
                    InputY s2) as [[m'|h] s3]
    end.
    + cbn [snd pending] in Hu.
      apply IH; proj_session;
        apply (f_equal (@length answer)) in Hu; rewrite length_app in Hu; lia.
    + split; [reflexivity|]. cbn [fst] in *. exact Hne.
Qed.

Lemma no_answers_app (a b : list answer) :
  no_answers (a ++ b) = (no_answers a + no_answers b)%nat.
Proof. unfold no_answers. rewrite filter_app, length_app. reflexivity. Qed.

Lemma no_answers_cons (a : answer) (l : list answer) :
  no_answers (a :: l)
  = ((if upper_is_N (typed a) then 1 else 0) + no_answers l)%nat.
Proof.
  unfold no_answers. cbn [filter].
  destruct (upper_is_N (typed a)); reflexivity.
Qed.

Lemma grows_llm_calls (w w' : World) :
  grows w w' -> (llm_calls (trace w) <= llm_calls (trace w'))%nat.
Proof.
  intros (_ & _ & _ & (t & Ht)). rewrite Ht, llm_calls_app. lia.
Qed.

Lemma same_calls_grammar_finish (pr : json * json) :
  keeps same_calls (grammar_finish pr).
Proof.
  unfold grammar_finish. destruct pr as [p r].
  repeat keeps_step same_calls_preorder fail.
Qed.

Lemma grows_grammar_finish (pr : json * json) :
  keeps grows (grammar_finish pr).
Proof.
  unfold grammar_finish. destruct pr as [p r].
  repeat keeps_step grows_preorder fail.
Qed.

Lemma grows_modify_grammer (CLIENT : Client) (BASE_DIR : pystr)
    (json_reader : pystr -> result json) (im es : pystr) :
  keeps grows (modify_grammer CLIENT BASE_DIR json_reader im es).
Proof.
  intros w. rewrite modify_grammer_unfold. revert w.
  apply (keeps_bind grows_preorder); [apply (keeps_lift grows_preorder)|].
  intros prompt.
  apply (keeps_bind grows_preorder); [apply grows_chat|].
  apply grows_grammar_finish.
Qed.

Lemma grows_modify_spell (CLIENT : Client) (BASE_DIR : pystr)
    (json_reader : pystr -> result json) (im : pystr) :
  keeps grows (modify_spell CLIENT BASE_DIR json_reader im).
Proof.
  intros w. rewrite modify_spell_unfold. revert w.
  apply (keeps_bind grows_preorder); [apply (keeps_lift grows_preorder)|].
  intros t.
  apply (keeps_bind grows_preorder); [apply (keeps_lift grows_preorder)|].
  intros d.
  apply (keeps_bind grows_preorder); [apply grows_chat|].
  apply grows_grammar_finish.
Qed.

Lemma turn_then_finish_calls (client : Client) (prompt : pystr)
    (sm : option pystr) (k : nat) :
  triple (calls_are k)
    (bind (chat client MODEL prompt true sm) grammar_finish)
    (fun _ => calls_are (S k)) (fun _ => calls_at_most (S k)).
Proof.
  eapply triple_bind; [apply chat_calls|].
  intros pr. apply triple_call_free;
    [apply same_calls_grammar_finish | apply Nat.le_refl].
Qed.

Lemma modify_grammer_calls (CLIENT : Client) (BASE_DIR : pystr)
    (json_reader : pystr -> result json) (im es : pystr) (k : nat) :
  triple (calls_are k) (modify_grammer CLIENT BASE_DIR json_reader im es)
    (fun _ => calls_are (S k)) (fun _ => calls_at_most (S k)).
Proof.
  intros w Hw. rewrite modify_grammer_unfold. revert w Hw.
  eapply triple_bind.
  { apply triple_call_free; [apply same_calls_lift | apply Nat.le_succ_diag_r]. }
  intros prompt. apply turn_then_finish_calls.
Qed.

Lemma modify_spell_calls (CLIENT : Client) (BASE_DIR : pystr)
    (json_reader : pystr -> result json) (im : pystr) (k : nat) :
  triple (calls_are k) (modify_spell CLIENT BASE_DIR json_reader im)
    (fun _ => calls_are (S k)) (fun _ => calls_at_most (S k)).
Proof.
  intros w Hw. rewrite modify_spell_unfold. revert w Hw.
  eapply triple_bind.
  { apply triple_call_free; [apply same_calls_lift | apply Nat.le_succ_diag_r]. }
  intros t. eapply triple_bind.
  { apply triple_call_free; [apply same_calls_lift | apply Nat.le_succ_diag_r]. }
  intros d. apply turn_then_finish_calls.
Qed.

(** What a run of the grammar loop does to the standard input and to the
    store, whatever its outcome. *)
Lemma grammar_loop_effects (CLIENT : Client) (BASE_DIR : pystr)
    (locale_decode : bytes -> result pystr) (f : nat) (m : pystr)
    (s : Session) :
  exists used,
    pending s
    = used ++ pending (snd (grammar_loop CLIENT BASE_DIR locale_decode f m s))
    /\ grows (store s)
         (store (snd (grammar_loop CLIENT BASE_DIR locale_decode f m s)))
    /\ (llm_calls (trace (store (snd (grammar_loop CLIENT BASE_DIR
                                        locale_decode f m s))))
        <= llm_calls (trace (store s)) + no_answers used)%nat.
Proof.
  revert m s; induction f as [|f IH]; intros m s.
  - exists []. split; [reflexivity|].
    split; [apply (pre_refl grows_preorder) | cbn; lia].
  - rewrite grammar_loop_step.
    destruct (pending s) as [|a rest] eqn:Ep.
    { exists []. split; [reflexivity|].
      split; [apply (pre_refl grows_preorder) | cbn; lia]. }
    cbv zeta. destruct (upper_is_Y (typed a)).
    { exists [a]. split; [reflexivity|].
      split; [apply (pre_refl grows_preorder) | proj_session; lia]. }
    destruct (upper_is_N (typed a)) eqn:EN.
    2:{ match goal with
        | |- context [grammar_loop _ _ _ f m ?s1] =>
            destruct (IH m s1) as (used & Hu & Hg & Hc)
        end.
        cbn [store disk pending console] in Hu, Hg, Hc.
        exists (a :: used). split; [rewrite Hu at 1; reflexivity|].
        split; [exact Hg|]. rewrite no_answers_cons. lia. }
    destruct rest as [|b rest'].
    { exists [a]. split; [reflexivity|].
      split; [apply (pre_refl grows_preorder) | proj_session; lia]. }
    pose proof (@grows_modify_grammer CLIENT BASE_DIR
                  (json_reader (disk_then b)) m (typed b) (store s)) as Hg1.
    pose proof (@modify_grammer_calls CLIENT BASE_DIR
                  (json_reader (disk_then b)) m (typed b)
                  (llm_calls (trace (store s))) (store s) eq_refl) as Hc1.
    destruct (modify_grammer _ _ _ _ _ _) as [[[[p r] sug]|e] w1];
      cbn [snd] in Hg1.
    2:{ exists [a; b]. split; [reflexivity|]. split; [exact Hg1|].
        proj_session. unfold calls_at_most in Hc1.
        rewrite no_answers_cons, EN. lia. }
    unfold calls_are in Hc1.
    destruct (getitem r K_CONTENT) as [c|e].
    2:{ exists [a; b]. split; [reflexivity|]. split; [exact Hg1|].
        proj_session. rewrite no_answers_cons, EN. lia. }
    match goal with
    | |- context [sbind (confirm_loop _ _ f _ _) _ ?s2] =>
        destruct (confirm_loop_pending BASE_DIR locale_decode f
                    AskGrammarDone InputY s2) as (u1 & Hu1 & Hs1);
        unfold sbind, say;
        destruct (confirm_loop BASE_DIR locale_decode f AskGrammarDone
                    InputY s2) as [[m'|h] s3]
    end; cbn [snd store pending] in Hu1, Hs1.
    + match goal with
      | |- context [grammar_loop _ _ _ f m' ?s4] =>
          destruct (IH m' s4) as (u2 & Hu2 & Hg2 & Hc2)
      end.
      cbn [store disk pending console] in Hu2, Hg2, Hc2.
      exists (a :: b :: u1 ++ u2).
      split; [rewrite Hu1, Hu2 at 1; cbn [app]; rewrite <- app_assoc; reflexivity|].
      subst w1.
      split; [exact (pre_trans grows_preorder _ _ _ Hg1 Hg2)|].
      rewrite !no_answers_cons, no_answers_app, EN. lia.
    + exists (a :: b :: u1). cbn [snd store pending].
      split; [rewrite Hu1 at 1; reflexivity|].
      subst w1. split; [exact Hg1|].
      rewrite !no_answers_cons, EN. lia.
Qed.

(** The script up to its first loop. *)
Lemma workflow_step (CLIENT : Client) (BASE_DIR : pystr)
    (locale_decode : bytes -> result pystr) (fuel : nat) (s : Session) :
  workflow CLIENT BASE_DIR locale_decode fuel s
  = match txt_reader (disk s) locale_decode (current_model_path BASE_DIR) with
    | Raise e => (Halt (Uncaught e), s)
    | Ok m0 =>
        let c1 := console s ++ [SpellingPhase] in
        match modify_spell CLIENT BASE_DIR (json_reader (disk s)) m0
                (store s) with
        | (Raise e, w1) =>
            (Halt (Uncaught e), mkSession w1 (disk s) (pending s) c1)
        | (Ok (p, r, sug), w1) =>
            let c2 := (c1 ++ [SpellingResult]) ++ [ShowPrompt p] in
            match getitem r K_CONTENT with
            | Raise e =>
                (Halt (Uncaught e), mkSession w1 (disk s) (pending s) c2)
            | Ok c =>
                sbind (confirm_loop BASE_DIR locale_decode fuel
                         AskSpellingDone PleaseModify)
                  (fun m =>
                     sbind (say GrammarPhase)
                       (fun _ =>
                          sbind (grammar_loop CLIENT BASE_DIR locale_decode
                                   fuel m)
                            (fun m' =>
                               sbind (say FinalModelBanner)
                                 (fun _ =>
                                    sbind (say (ShowFinal m'))
                                      (fun _ => sret m')))))
                  (mkSession w1 (disk s) (pending s)
                     ((c2 ++ [ShowResponse c]) ++ [ShowSpellChecked sug]))
            end
        end
    end.
Proof.
  unfold workflow. unfold sbind at 1, with_disk at 1, pure at 1.
  destruct (txt_reader _ _ _) as [m0|e]; [|reflexivity]. cbv zeta.
  unfold sbind at 1, say at 1. proj_session.
  unfold sbind at 1, with_disk, in_store. proj_session.
  destruct (modify_spell _ _ _ _ _) as [[[[p r] sug]|e] w1]; [|reflexivity].
  unfold sbind at 1, say at 1. proj_session.
  unfold sbind at 1, say at 1. proj_session.
  unfold sbind at 1, pure at 1.
  destruct (getitem r K_CONTENT) as [c|e]; [|reflexivity].
  unfold sbind at 1, say at 1. proj_session.
  unfold sbind at 1, say at 1. proj_session.
  reflexivity.
Qed.

Lemma workflow_fuel (CLIENT : Client) (BASE_DIR : pystr)
    (locale_decode : bytes -> result pystr) (f f' : nat) (s : Session) :
  (length (pending s) < f)%nat -> (length (pending s) < f')%nat ->
  workflow CLIENT BASE_DIR locale_decode f s
  = workflow CLIENT BASE_DIR locale_decode f' s
  /\ fst (workflow CLIENT BASE_DIR locale_decode f s) <> Halt OutOfFuel.
Proof.
  intros Hf Hf'. rewrite !workflow_step.
  destruct (txt_reader _ _ _) as [m0|e]; [|split; [reflexivity | discriminate]].
  cbv zeta.
  destruct (modify_spell _ _ _ _ _) as [[[[p r] sug]|e] w1];
    [|split; [reflexivity | discriminate]].
  destruct (getitem r K_CONTENT) as [c|e];
    [|split; [reflexivity | discriminate]].
  match goal with
  | |- context [sbind (confirm_loop _ _ f _ _) _ ?s2] =>
      destruct (@confirm_loop_fuel BASE_DIR locale_decode f f'
                  AskSpellingDone PleaseModify s2) as [Heq Hne];
        [proj_session; lia | proj_session; lia |];
      destruct (confirm_loop_pending BASE_DIR locale_decode f
                  AskSpellingDone PleaseModify s2) as (used & Hu & _);
      unfold sbind, say, sret; rewrite <- Heq;
      destruct (confirm_loop BASE_DIR locale_decode f AskSpellingDone
                  PleaseModify s2) as [[m|h] s3]
  end.
  - cbn [snd pending] in Hu.
    match goal with
    | |- context [grammar_loop _ _ _ f m ?s4] =>
        destruct (@grammar_loop_fuel CLIENT BASE_DIR locale_decode f f' m s4)
          as [Heq2 Hne2];
          [proj_session; apply (f_equal (@length answer)) in Hu;
           rewrite length_app in Hu; lia
          |proj_session; apply (f_equal (@length answer)) in Hu;
           rewrite length_app in Hu; lia|];
        rewrite <- Heq2;
        destruct (grammar_loop CLIENT BASE_DIR locale_decode f m s4)
          as [[m'|h] s5]
    end.
    + split; [reflexivity | discriminate].
    + split; [reflexivity | exact Hne2].
  - split; [reflexivity | exact Hne].
Qed.

(** X21: with finitely many lines on the standard input the workflow
    always ends, normally, by an exception that nothing catches or by
    [EOFError]: once the fuel exceeds the number of lines, the loops of the
    model never use it up, and more fuel gives the same run. *)
Theorem workflow_always_ends (CLIENT : Client) (BASE_DIR : pystr)
    (locale_decode : bytes -> result pystr) (fuel : nat) (s : Session) :
  (length (pending s) < fuel)%nat ->
  fst (workflow CLIENT BASE_DIR locale_decode fuel s) <> Halt OutOfFuel
  /\ workflow CLIENT BASE_DIR locale_decode fuel s
     = workflow CLIENT BASE_DIR locale_decode (S (length (pending s))) s.
Proof.
  intros Hf.
  destruct (@workflow_fuel CLIENT BASE_DIR locale_decode fuel
              (S (length (pending s))) s Hf (Nat.lt_succ_diag_r _))
    as [Heq Hne].
  split; [exact Hne | exact Heq].
Qed.

(** X22: the workflow contacts the model capability only when asked to:
    whatever the outcome of the run, it makes at most one call for the
    spelling turn and one for each answer 'N' or 'n' on the standard
    input; it only appends to the audit log; and a run that ends normally
    has made the call of the spelling turn. *)
Theorem workflow_calls_bound (CLIENT : Client) (BASE_DIR : pystr)
    (locale_decode : bytes -> result pystr) (fuel : nat) (s : Session) :
  let run := workflow CLIENT BASE_DIR locale_decode fuel s in
  (llm_calls (trace (store (snd run)))
   <= llm_calls (trace (store s)) + 1 + no_answers (pending s))%nat
  /\ grows (store s) (store (snd run))
  /\ (forall m, fst run = Done m ->
        (S (llm_calls (trace (store s)))
         <= llm_calls (trace (store (snd run))))%nat).
Proof.
  cbv zeta. rewrite workflow_step.
  destruct (txt_reader _ _ _) as [m0|e].
  2:{ cbn [fst snd]. split; [lia|].
      split; [apply (pre_refl grows_preorder) | discriminate]. }
  cbv zeta.
  pose proof (@grows_modify_spell CLIENT BASE_DIR (json_reader (disk s)) m0
                (store s)) as Hg1.
  pose proof (@modify_spell_calls CLIENT BASE_DIR (json_reader (disk s)) m0
                (llm_calls (trace (store s))) (store s) eq_refl) as Hc1.
  destruct (modify_spell _ _ _ _ _) as [[[[p r] sug]|e] w1]; cbn [snd] in Hg1.
  2:{ cbn [fst snd store]. unfold calls_at_most in Hc1.
      split; [lia|]. split; [exact Hg1 | discriminate]. }
  unfold calls_are in Hc1.
  destruct (getitem r K_CONTENT) as [c|e].
  2:{ cbn [fst snd store].
      split; [lia|]. split; [exact Hg1 | discriminate]. }
  match goal with
  | |- context [sbind (confirm_loop _ _ fuel _ _) _ ?s2] =>
      destruct (confirm_loop_pending BASE_DIR locale_decode fuel
                  AskSpellingDone PleaseModify s2) as (u1 & Hu1 & Hs1);
      unfold sbind, say, sret;
      destruct (confirm_loop BASE_DIR locale_decode fuel AskSpellingDone
                  PleaseModify s2) as [[m|h] s3]
  end; cbn [snd store pending] in Hu1, Hs1; subst w1.
  2:{ cbn [fst snd]. split; [lia|]. split; [exact Hg1 | discriminate]. }
  match goal with
  | |- context [grammar_loop _ _ _ fuel m ?s4] =>
      destruct (grammar_loop_effects CLIENT BASE_DIR locale_decode fuel m s4)
        as (u2 & Hu2 & Hg2 & Hc2);
      destruct (grammar_loop CLIENT BASE_DIR locale_decode fuel m s4)
        as [[m'|h] s5]
  end; cbn [snd store pending] in Hu2, Hg2, Hc2; cbn [fst snd store].
  - assert (Hn : (no_answers u2 <= no_answers (pending s))%nat)
      by (rewrite Hu1, Hu2, !no_answers_app; lia).
    pose proof (grows_llm_calls Hg2).
    split; [lia|].
    split; [exact (pre_trans grows_preorder _ _ _ Hg1 Hg2) | intros; lia].
  - assert (Hn : (no_answers u2 <= no_answers (pending s))%nat)
      by (rewrite Hu1, Hu2, !no_answers_app; lia).
    split; [lia|].
    split; [exact (pre_trans grows_preorder _ _ _ Hg1 Hg2) | discriminate].
Qed.

Lemma universal_newlines_no_cr (s : pystr) : ~ In c_cr (universal_newlines s).
Proof.
  assert (H : forall n s, (length s <= n)%nat ->
                          ~ In c_cr (universal_newlines s)).
  { induction n as [|n IH]; intros [|c t] Hl; try (intros []);
      cbn [length] in Hl; [lia|].
    cbn [universal_newlines].
    destruct (Z.eqb_spec c c_cr) as [->|Hc].
    - intros [H|H]; [discriminate H|].
      destruct t as [|d t']; [exact H|].
      cbn [length] in Hl.
      destruct (d =? c_nl); revert H; apply IH; cbn [length]; lia.
    - intros [H|H]; [congruence|].
      revert H; apply IH; lia. }
  exact (H (length s) s (Nat.le_refl _)).
Qed.

Lemma txt_reader_no_cr (d : Disk) (locale_decode : bytes -> result pystr)
    (p m : pystr) :
  txt_reader d locale_decode p = Ok m -> ~ In c_cr m.
Proof.
  unfold txt_reader. destruct (d p) as [b|]; [|discriminate].
  destruct (locale_decode b) as [s|e]; [|discriminate].
  intros [= <-]. apply universal_newlines_no_cr.
Qed.

Lemma confirm_loop_done (BASE_DIR : pystr)
    (locale_decode : bytes -> result pystr) (f : nat) (q : question)
    (retry : shown) (s s' : Session) (m : pystr) :
  confirm_loop BASE_DIR locale_decode f q retry s = (Done m, s') ->
  exists used a,
    pending s = used ++ a :: pending s'
    /\ upper_is_Y (typed a) = true
    /\ txt_reader (disk_then a) locale_decode (current_model_path BASE_DIR)
       = Ok m.
Proof.
  revert s; induction f as [|f IH]; intros s; [discriminate|].
  rewrite confirm_loop_step.
  destruct (pending s) as [|a rest] eqn:Ep; [discriminate|].
  destruct (upper_is_Y (typed a)) eqn:EY.
  - destruct (txt_reader _ _ _) as [m1|e] eqn:Er; [|discriminate].
    intros [= <- <-]. exists [], a. repeat split; assumption.
  - intros H. destruct (IH _ H) as (used & b & Hu & Hb & Hr).
    cbn [pending] in Hu. exists (a :: used), b. rewrite Hu.
    repeat split; assumption.
Qed.

Lemma grammar_loop_done (CLIENT : Client) (BASE_DIR : pystr)
    (locale_decode : bytes -> result pystr) (f : nat) (m0 m : pystr)
    (s s' : Session) :
  grammar_loop CLIENT BASE_DIR locale_decode f m0 s = (Done m, s') ->
  m = m0
  \/ exists used a rest,
       pending s = used ++ a :: rest
       /\ upper_is_Y (typed a) = true
       /\ txt_reader (disk_then a) locale_decode (current_model_path BASE_DIR)
          = Ok m.
Proof.
  revert m0 s; induction f as [|f IH]; intros m0 s; [discriminate|].
  rewrite grammar_loop_step.
  destruct (pending s) as [|a rest] eqn:Ep; [discriminate|]. cbv zeta.
  destruct (upper_is_Y (typed a)); [intros [= <- <-]; left; reflexivity|].
  destruct (upper_is_N (typed a)).
  2:{ intros H. destruct (IH _ _ H) as [->|(used & b & r & Hu & Hb & Hr)];
        [left; reflexivity|].
      right. cbn [pending] in Hu. exists (a :: used), b, r. rewrite Hu.
      repeat split; assumption. }
  destruct rest as [|b rest']; [discriminate|].
  destruct (modify_grammer _ _ _ _ _ _) as [[[[p r] sug]|e] w1];
    [|discriminate].
  destruct (getitem r K_CONTENT) as [c|e]; [|discriminate].
  unfold sbind at 1.
  destruct (confirm_loop _ _ _ _ _ _) as [[m1|h] s3] eqn:Ec; [|discriminate].
  destruct (confirm_loop_done _ _ _ _ _ _ Ec) as (u1 & y & Hu1 & Hy & Hr1).
  cbn [pending] in Hu1.
  unfold sbind at 1, say. intros H.
  destruct (IH _ _ H) as [->|(u2 & y2 & r2 & Hu2 & Hy2 & Hr2)]; right.
  - exists (a :: b :: u1), y, (pending s3). rewrite Hu1.
    repeat split; assumption.
  - cbn [pending] in Hu2.
    exists (a :: b :: u1 ++ y :: u2), y2, r2. rewrite Hu1, Hu2.
    cbn [app]. rewrite <- app_assoc. repeat split; assumption.
Qed.

(** X23: the model that the workflow prints at the end is never a
    suggestion of the model capability.  When a run ends normally, its
    final model is what [txt_reader] read from the model file as it was
    when the user typed one of the answers 'Y' or 'y'; it holds no carriage
    return; and the last two things written to the standard output are the
    banner and that model. *)
Theorem workflow_final_model_is_the_file (CLIENT : Client) (BASE_DIR : pystr)
    (locale_decode : bytes -> result pystr) (fuel : nat) (s s' : Session)
    (m : pystr) :
  workflow CLIENT BASE_DIR locale_decode fuel s = (Done m, s') ->
  (exists used a rest,
     pending s = used ++ a :: rest
     /\ upper_is_Y (typed a) = true
     /\ txt_reader (disk_then a) locale_decode (current_model_path BASE_DIR)
        = Ok m)
  /\ ~ In c_cr m
  /\ exists c, console s' = c ++ [FinalModelBanner; ShowFinal m].
Proof.
  rewrite workflow_step.
  destruct (txt_reader _ _ _) as [m0|e]; [|discriminate]. cbv zeta.
  destruct (modify_spell _ _ _ _ _) as [[[[p r] sug]|e] w1]; [|discriminate].
  destruct (getitem r K_CONTENT) as [c|e]; [|discriminate].
  unfold sbind at 1.
  destruct (confirm_loop _ _ _ _ _ _) as [[m1|h] s3] eqn:Ec; [|discriminate].
  destruct (confirm_loop_done _ _ _ _ _ _ Ec) as (u1 & y & Hu1 & Hy & Hr1).
  cbn [pending] in Hu1.
  unfold sbind at 1, say at 1. unfold sbind at 1.
  destruct (grammar_loop _ _ _ _ _ _) as [[m2|h] s5] eqn:Eg; [|discriminate].
  unfold sbind, say, sret. intros [= <- <-]. proj_session.
  assert (Hfrom : exists used a rest,
             pending s = used ++ a :: rest
             /\ upper_is_Y (typed a) = true
             /\ txt_reader (disk_then a) locale_decode
                  (current_model_path BASE_DIR) = Ok m2).
  { destruct (grammar_loop_done _ _ _ _ _ _ Eg)
      as [->|(u2 & y2 & r2 & Hu2 & Hy2 & Hr2)].
    - exists u1, y, (pending s3). repeat split; assumption.
    - cbn [pending] in Hu2. exists (u1 ++ y :: u2), y2, r2.
      rewrite Hu1, Hu2, <- app_assoc. repeat split; assumption. }
  split; [exact Hfrom|].
  split.
  - destruct Hfrom as (_ & a & _ & _ & _ & Hr).
    exact (txt_reader_no_cr _ _ _ Hr).
  - exists (console s5). rewrite <- app_assoc. reflexivity.
Qed.

Lemma confirm_loop_user (BASE_DIR : pystr)
    (locale_decode : bytes -> result pystr) (f : nat) (q q' : question)
    (retry retry' : shown) (s1 s2 : Session) :
  pending s1 = pending s2 -> disk s1 = disk s2 ->
  fst (confirm_loop BASE_DIR locale_decode f q retry s1)
  = fst (confirm_loop BASE_DIR locale_decode f q' retry' s2)
  /\ pending (snd (confirm_loop BASE_DIR locale_decode f q retry s1))
     = pending (snd (confirm_loop BASE_DIR locale_decode f q' retry' s2))
  /\ disk (snd (confirm_loop BASE_DIR locale_decode f q retry s1))
     = disk (snd (confirm_loop BASE_DIR locale_decode f q' retry' s2)).
Proof.
  revert s1 s2; induction f as [|f IH]; intros s1 s2 Hp Hd.
  - cbn. repeat split; assumption.
  - rewrite !confirm_loop_step. rewrite Hp.
    destruct (pending s2) as [|a rest].
    + cbn. repeat split; assumption.
    + destruct (upper_is_Y (typed a)).
      * destruct (txt_reader _ _ _); cbn; repeat split; reflexivity.
      * apply IH; reflexivity.
Qed.

Lemma grammar_loop_user (c1 c2 : Client) (BASE_DIR : pystr)
    (locale_decode : bytes -> result pystr) (f : nat) (m m1 m2 : pystr)
    (s1 s2 s1' s2' : Session) :
  pending s1 = pending s2 -> disk s1 = disk s2 ->
  grammar_loop c1 BASE_DIR locale_decode f m s1 = (Done m1, s1') ->
  grammar_loop c2 BASE_DIR locale_decode f m s2 = (Done m2, s2') ->
  m1 = m2 /\ pending s1' = pending s2' /\ disk s1' = disk s2'.
Proof.
  revert m s1 s2; induction f as [|f IH]; intros m s1 s2 Hp Hd;
    [discriminate|].
  rewrite !grammar_loop_step. rewrite Hp.
  destruct (pending s2) as [|a rest]; [discriminate|]. cbv zeta.
  destruct (upper_is_Y (typed a)).
  { intros [= <- <-] [= <- <-]. repeat split; reflexivity. }
  destruct (upper_is_N (typed a)); [|apply IH; reflexivity].
  destruct rest as [|b rest']; [discriminate|].
  destruct (modify_grammer c1 _ _ _ _ _) as [[[[p1 r1] sug1]|e1] w1];
    [|discriminate].
  destruct (modify_grammer c2 _ _ _ _ _) as [[[[p2 r2] sug2]|e2] w2];
    [|intros _; discriminate].
  destruct (getitem r1 K_CONTENT) as [x1|e1]; [|discriminate].
  destruct (getitem r2 K_CONTENT) as [x2|e2]; [|intros _; discriminate].
  unfold sbind at 1 3.
  match goal with
  | |- context [confirm_loop _ _ f _ _ ?a1] =>
      match goal with
      | |- _ -> match confirm_loop _ _ f _ _ ?a2 with _ => _ end = _ -> _ =>
          destruct (@confirm_loop_user BASE_DIR locale_decode f AskGrammarDone
                      AskGrammarDone InputY InputY a1 a2 eq_refl eq_refl)
            as (Hfst & Hpend & Hdisk)
      end
  end.
  destruct (confirm_loop _ _ _ _ _ _) as [[n1|h1] t1]; [|discriminate].
  destruct (confirm_loop _ _ _ _ _ _) as [[n2|h2] t2]; [|intros _; discriminate].
  cbn [fst snd] in Hfst, Hpend, Hdisk. injection Hfst as <-.
  unfold sbind, say. apply IH; assumption.
Qed.

(** X24: the replies of the model capability and the content of the store
    never reach the final model.  Two runs of the workflow on the same
    files and the same standard input, with any two model capabilities
    and any two stores, that both end normally end with the same final
    model, having read the same lines. *)
Theorem workflow_ignores_the_replies (c1 c2 : Client) (BASE_DIR : pystr)
    (locale_decode : bytes -> result pystr) (fuel : nat)
    (s1 s2 s1' s2' : Session) (m1 m2 : pystr) :
  pending s1 = pending s2 -> disk s1 = disk s2 ->
  workflow c1 BASE_DIR locale_decode fuel s1 = (Done m1, s1') ->
  workflow c2 BASE_DIR locale_decode fuel s2 = (Done m2, s2') ->
  m1 = m2 /\ pending s1' = pending s2' /\ disk s1' = disk s2'.
Proof.
  intros Hp Hd. rewrite !workflow_step. rewrite Hp, Hd.
  destruct (txt_reader _ _ _) as [m0|e]; [|discriminate]. cbv zeta.
  destruct (modify_spell c1 _ _ _ _) as [[[[p1 r1] sug1]|e1] w1];
    [|discriminate].
  destruct (modify_spell c2 _ _ _ _) as [[[[p2 r2] sug2]|e2] w2];
    [|intros _; discriminate].
  destruct (getitem r1 K_CONTENT) as [x1|e1]; [|discriminate].
  destruct (getitem r2 K_CONTENT) as [x2|e2]; [|intros _; discriminate].
  unfold sbind at 1 6.
  match goal with
  | |- context [confirm_loop _ _ fuel _ _ ?a1] =>
      match goal with
      | |- _ -> match confirm_loop _ _ fuel _ _ ?a2 with _ => _ end = _ -> _ =>
          destruct (@confirm_loop_user BASE_DIR locale_decode fuel
                      AskSpellingDone AskSpellingDone PleaseModify
                      PleaseModify a1 a2 eq_refl eq_refl)
            as (Hfst & Hpend & Hdisk)
      end
  end.
  destruct (confirm_loop _ _ _ _ _ _) as [[n1|h1] t1]; [|discriminate].
  destruct (confirm_loop _ _ _ _ _ _) as [[n2|h2] t2]; [|intros _; discriminate].
  cbn [fst snd] in Hfst, Hpend, Hdisk. injection Hfst as <-.
  unfold sbind at 1 5, say at 1 4. unfold sbind at 1 4.
  destruct (grammar_loop c1 _ _ _ _ _) as [[k1|h1] g1] eqn:E1; [|discriminate].
  destruct (grammar_loop c2 _ _ _ _ _) as [[k2|h2] g2] eqn:E2;
    [|intros _; discriminate].
  pose proof (fun H1 H2 =>
                @grammar_loop_user c1 c2 BASE_DIR locale_decode fuel n1 k1 k2
                  _ _ g1 g2 H1 H2 E1 E2) as Huser.
  destruct (Huser Hpend Hdisk) as (Hm & Hp' & Hd').
  unfold sbind, say, sret. intros [= <- <-] [= <- <-]. proj_session.
  repeat split; assumption.
Qed.

(** ** What the workflow sends to the model capability *)

Lemma requests_satisfy_preorder (P : pystr -> json -> Prop) :
  preorder (requests_satisfy P).
Proof.
  split.
  - intros w. exists []. split; [rewrite app_nil_r; reflexivity|].
    intros model msgs [].
  - intros a b c (t1 & H1 & P1) (t2 & H2 & P2). exists (t1 ++ t2).
    split; [rewrite H2, H1, app_assoc; reflexivity|].
    intros model msgs Hin. apply in_app_or in Hin.
    destruct Hin as [Hin|Hin]; [exact (P1 _ _ Hin) | exact (P2 _ _ Hin)].
Qed.

Lemma requests_satisfy_weaken (P Q : pystr -> json -> Prop) (w w' : World) :
  (forall model msgs, P model msgs -> Q model msgs) ->
  requests_satisfy P w w' -> requests_satisfy Q w w'.
Proof.
  intros HPQ (t & Ht & Hp). exists t. split; [exact Ht|].
  intros model msgs Hin. apply HPQ. exact (Hp _ _ Hin).
Qed.

Lemma llm_calls_none (t : list event) (model : pystr) (msgs : json) :
  llm_calls t = 0%nat -> ~ In (EvLlmCall model msgs) t.
Proof.
  induction t as [|e t IH]; intros Hc; [intros []|].
  destruct e; cbn [llm_calls] in Hc; try discriminate Hc;
    (intros [H|H]; [discriminate H | exact (IH Hc H)]).
Qed.

(** An operation that makes no call satisfies every such statement. *)
Lemma keeps_quiet (P : pystr -> json -> Prop) (A : Type) (m : M A) :
  keeps grows m -> keeps same_calls m -> keeps (requests_satisfy P) m.
Proof.
  intros Hg Hs w. destruct (Hg w) as (_ & _ & _ & (t & Ht)).
  specialize (Hs w). unfold same_calls in Hs.
  exists t. split; [exact Ht|].
  intros model msgs Hin. exfalso.
  rewrite Ht, llm_calls_app in Hs.
  apply (@llm_calls_none t model msgs); [lia | exact Hin].
Qed.

Lemma requests_attempt_call (client : Client) (model : pystr) (msgs : json) :
  keeps (requests_satisfy (fun m x => m = model /\ x = msgs))
    (attempt (call_llm_api client model msgs)).
Proof.
  intros w. rewrite attempt_call_llm_api. cbn [snd trace].
  eexists. split; [reflexivity|].
  intros m x [H|H]; [injection H as <- <-; split; reflexivity|].
  destruct (client model msgs); [destruct H|].
  destruct H as [H|[]]; discriminate H.
Qed.

Lemma keeps_bind_value (R : World -> World -> Prop) (A B : Type) (v : A)
    (f : A -> M B) :
  keeps R (f v) -> keeps R (bind (lift (Ok v)) f).
Proof. intros H w. exact (H w). Qed.

(** The one request of a fresh turn with a system message. *)
Lemma chat_fresh_request (client : Client) (model prompt sm : pystr) :
  sm <> [] ->
  keeps (requests_satisfy
           (fun m x =>
              m = model
              /\ x = history_json [mkMessage SYSTEM sm; mkMessage USER prompt]))
    (chat client model prompt true (Some sm)).
Proof.
  intros Hsm. destruct sm as [|c sm']; [contradiction|].
  set (R := requests_satisfy _).
  assert (HR : preorder R) by apply requests_satisfy_preorder.
  assert (Hq : forall A (m : M A),
             keeps grows m -> keeps same_calls m -> keeps R m)
    by (intros A m; apply keeps_quiet).
  assert (Hlog : forall v, keeps R (log_message v))
    by (intros v; apply Hq;
        [apply grows_log_message | apply same_calls_log_message]).
  assert (Hsave : forall v, keeps R (save_chat_history v))
    by (intros v; apply Hq;
        [apply grows_save_chat_history | apply same_calls_save_chat_history]).
  unfold chat.
  apply (@keeps_bind_value R _ _
           (JArr [message_dict (mkMessage SYSTEM (c :: sm'))])).
  apply (@keeps_bind_value R _ _ (message_dict (mkMessage USER prompt))).
  apply (keeps_bind HR); [apply Hlog|]. intros _.
  apply (@keeps_bind_value R _ _
           (history_json [mkMessage SYSTEM (c :: sm'); mkMessage USER prompt])).
  apply (keeps_bind HR); [apply requests_attempt_call|].
  intros [s|e].
  - apply (keeps_bind HR); [apply (keeps_lift HR)|]. intros a.
    apply (keeps_bind HR); [apply (keeps_lift HR)|]. intros h.
    apply (keeps_bind HR); [apply Hsave|]. intros _.
    apply (keeps_bind HR); [apply Hlog|]. intros _.
    apply (keeps_ret HR).
  - apply (keeps_bind HR);
      [apply Hq; [apply grows_emit | apply same_calls_print]|]. intros _.
    apply (keeps_bind HR); [apply (keeps_lift HR)|]. intros a.
    apply (keeps_bind HR); [apply Hlog|]. intros _.
    apply (keeps_bind HR); [apply (keeps_lift HR)|]. intros h.
    apply (keeps_bind HR); [apply Hsave|]. intros _.
    apply (keeps_ret HR).
Qed.

Lemma modify_grammer_fresh_request (CLIENT : Client) (BASE_DIR : pystr)
    (json_reader : pystr -> result json) (im es : pystr) :
  keeps (requests_satisfy fresh_request)
    (modify_grammer CLIENT BASE_DIR json_reader im es).
Proof.
  pose proof (requests_satisfy_preorder fresh_request) as HR.
  intros w. rewrite modify_grammer_unfold. revert w.
  apply (keeps_bind HR); [apply (keeps_lift HR)|]. intros prompt.
  apply (keeps_bind HR).
  - intros w.
    eapply requests_satisfy_weaken;
      [|apply (@chat_fresh_request CLIENT MODEL prompt GRAMMAR_SYSTEM_MESSAGE);
        discriminate].
    intros model msgs [-> ->]. split; [reflexivity|].
    exists GRAMMAR_SYSTEM_MESSAGE, prompt. split; [right|]; reflexivity.
  - intros pr. apply keeps_quiet;
      [apply grows_grammar_finish | apply same_calls_grammar_finish].
Qed.

Lemma modify_spell_fresh_request (CLIENT : Client) (BASE_DIR : pystr)
    (json_reader : pystr -> result json) (im : pystr) :
  keeps (requests_satisfy fresh_request)
    (modify_spell CLIENT BASE_DIR json_reader im).
Proof.
  pose proof (requests_satisfy_preorder fresh_request) as HR.
  intros w. rewrite modify_spell_unfold. revert w.
  apply (keeps_bind HR); [apply (keeps_lift HR)|]. intros t.
  apply (keeps_bind HR); [apply (keeps_lift HR)|]. intros d.
  apply (keeps_bind HR).
  - intros w.
    eapply requests_satisfy_weaken;
      [|apply (@chat_fresh_request CLIENT MODEL
                 (json_dumps 2 d ++ SPELL_HEADING ++ im) SPELL_SYSTEM_MESSAGE);
        discriminate].
    intros model msgs [-> ->]. split; [reflexivity|].
    eexists SPELL_SYSTEM_MESSAGE, _. split; [left|]; reflexivity.
  - intros pr. apply keeps_quiet;
      [apply grows_grammar_finish | apply same_calls_grammar_finish].
Qed.

(** An invariant of the two turns is an invariant of the loops and of the
    workflow. *)
Section WorkflowKeeps.

Variable R : World -> World -> Prop.
Hypothesis HR : preorder R.
Variable CLIENT : Client.
Variable BASE_DIR : pystr.
Variable locale_decode : bytes -> result pystr.
Hypothesis Hgrammar : forall reader im es,
  keeps R (modify_grammer CLIENT BASE_DIR reader im es).
Hypothesis Hspell : forall reader im,
  keeps R (modify_spell CLIENT BASE_DIR reader im).

Lemma grammar_loop_keeps (f : nat) (m : pystr) (s : Session) :
  R (store s)
    (store (snd (grammar_loop CLIENT BASE_DIR locale_decode f m s))).
Proof.
  revert m s; induction f as [|f IH]; intros m s;
    [apply (pre_refl HR)|].
  rewrite grammar_loop_step.
  destruct (pending s) as [|a rest]; [apply (pre_refl HR)|]. cbv zeta.
  destruct (upper_is_Y (typed a)); [apply (pre_refl HR)|].
  destruct (upper_is_N (typed a)).
  2:{ match goal with
      | |- context [grammar_loop _ _ _ f m ?s1] => exact (IH m s1)
      end. }
  destruct rest as [|b rest']; [apply (pre_refl HR)|].
  pose proof (Hgrammar (json_reader (disk_then b)) m (typed b) (store s))
    as H1.
  destruct (modify_grammer _ _ _ _ _ _) as [[[[p r] sug]|e] w1];
    cbn [snd] in H1; [|exact H1].
  destruct (getitem r K_CONTENT) as [c|e]; [|exact H1].
  match goal with
  | |- context [sbind (confirm_loop _ _ f _ _) _ ?s2] =>
      destruct (confirm_loop_pending BASE_DIR locale_decode f
                  AskGrammarDone InputY s2) as (u1 & _ & Hs1);
      unfold sbind, say;
      destruct (confirm_loop BASE_DIR locale_decode f AskGrammarDone
                  InputY s2) as [[m'|h] s3]
  end; cbn [snd store] in Hs1; subst w1.
  - match goal with
    | |- context [grammar_loop _ _ _ f m' ?s4] =>
        exact (pre_trans HR _ _ _ H1 (IH m' s4))
    end.
  - exact H1.
Qed.

Lemma workflow_keeps (fuel : nat) (s : Session) :
  R (store s) (store (snd (workflow CLIENT BASE_DIR locale_decode fuel s))).
Proof.
  rewrite workflow_step.
  destruct (txt_reader _ _ _) as [m0|e]; [|apply (pre_refl HR)]. cbv zeta.
  pose proof (Hspell (json_reader (disk s)) m0 (store s)) as H1.
  destruct (modify_spell _ _ _ _ _) as [[[[p r] sug]|e] w1];
    cbn [snd] in H1; [|exact H1].
  destruct (getitem r K_CONTENT) as [c|e]; [|exact H1].
  match goal with
  | |- context [sbind (confirm_loop _ _ fuel _ _) _ ?s2] =>
      destruct (confirm_loop_pending BASE_DIR locale_decode fuel
                  AskSpellingDone PleaseModify s2) as (u1 & _ & Hs1);
      unfold sbind, say, sret;
      destruct (confirm_loop BASE_DIR locale_decode fuel AskSpellingDone
                  PleaseModify s2) as [[m|h] s3]
  end; cbn [snd store] in Hs1; subst w1; [|exact H1].
  match goal with
  | |- context [grammar_loop _ _ _ fuel m ?s4] =>
      pose proof (grammar_loop_keeps fuel m s4) as H2;
      destruct (grammar_loop CLIENT BASE_DIR locale_decode fuel m s4)
        as [[m'|h] s5]
  end; cbn [snd store] in H2 |- *; exact (pre_trans HR _ _ _ H1 H2).
Qed.

End WorkflowKeeps.

(** X25: the workflow never sends an earlier turn to the model
    capability.  Whatever the files, the answers and the outcome of the
    run, every request that it makes is addressed to [MODEL] and consists
    of one of the two system messages followed by a single user
    Message. *)
Theorem workflow_requests_are_fresh (CLIENT : Client) (BASE_DIR : pystr)
    (locale_decode : bytes -> result pystr) (fuel : nat) (s : Session) :
  exists t,
    trace (store (snd (workflow CLIENT BASE_DIR locale_decode fuel s)))
    = trace (store s) ++ t
    /\ forall model msgs, In (EvLlmCall model msgs) t ->
         model = MODEL
         /\ exists sm prompt,
              (sm = SPELL_SYSTEM_MESSAGE \/ sm = GRAMMAR_SYSTEM_MESSAGE)
              /\ msgs = history_json [mkMessage SYSTEM sm;
                                      mkMessage USER prompt].
Proof.
  apply (@workflow_keeps (requests_satisfy fresh_request)
           (requests_satisfy_preorder fresh_request) CLIENT BASE_DIR
           locale_decode).
  - intros reader im es. apply modify_grammer_fresh_request.
  - intros reader im. apply modify_spell_fresh_request.
Qed.

(** * The claims, whatever the files allow

    The statements below do not assume that the snapshot file or the log
    file can be written: they say what a turn does in either case.  The
    bytes that reach the log are stated through [json_dumps] and
    [json_loads], not through [log_entry]. *)

(** The bytes of a Message in the log: its dump, which [json.loads] reads
    back as the Message, then a comma and a newline. *)
Lemma message_entry_bytes (m : Message) :
  wf_message m ->
  exists bm,
    utf8_encode (json_dumps 4 (message_dict m)) = Ok bm
    /\ json_loads bm = Ok (message_dict m)
    /\ utf8_encode (log_entry (message_dict m)) = Ok (bm ++ [c_comma; c_nl]).
Proof.
  intros Hm.
  assert (Htm : text (json_dumps 4 (message_dict m)))
    by (apply text_iterencode_message; exact Hm).
  destruct (utf8_roundtrip Htm) as (bm & Ebm & Dbm).
  exists bm. split; [exact Ebm|]. split.
  - destruct (utf8_encode_message_head m [] (b := bm)) as (b' & Hb').
    { rewrite app_nil_r. exact Ebm. }
    assert (Hd0 : detect_encoding bm = UTF8)
      by (rewrite Hb'; apply detect_encoding_plain; lia).
    unfold json_loads. rewrite Hd0. cbn [bytes_decode]. rewrite Dbm.
    pose proof (json_decode_message_then [] Hm) as Hj.
    rewrite app_nil_r in Hj. exact Hj.
  - unfold log_entry. apply utf8_encode_app; [exact Ebm | reflexivity].
Qed.












(** X7: when the snapshot holds valid JSON that is not a list, a turn of
    [chat] with [use_initial_history] unset raises, for every prompt,
    without invoking the model capability and without changing the
    snapshot.  When the snapshot holds a single Message and the prompt is
    text, the exception is [AttributeError], from [append], and it comes
    after [log_message]: if the log file can be written the dump of the
    user Message, a comma and a newline have been appended to it, and if
    it cannot the notice has been printed. *)
Theorem chat_snapshot_not_a_list (client : Client) (model prompt : pystr)
    (sm : option pystr) (w : World) (b : bytes) (v : json) :
  record_file w = Some b ->
  json_loads b = Ok v ->
  isinstance_list v = false ->
  let run := chat client model prompt false sm w in
  (exists e, fst run = Raise e)
  /\ record_file (snd run) = record_file w
  /\ llm_calls (trace (snd run)) = llm_calls (trace w)
  /\ (forall m, v = message_dict m -> text prompt ->
      exists bu,
        utf8_encode (json_dumps 4 (message_dict (mkMessage USER prompt)))
        = Ok bu
        /\ json_loads bu = Ok (message_dict (mkMessage USER prompt))
        /\ run
           = (Raise AttributeError,
              mkWorld (record_file w)
                (if log_writable w then log_file w ++ bu ++ [c_comma; c_nl]
                 else log_file w)
                (record_writable w) (log_writable w)
                (trace w
                 ++ [if log_writable w then EvLogAppend (bu ++ [c_comma; c_nl])
                     else EvPrint ErrLogMessage]))).
Proof.
  intros Hf Hl Hv. cbv zeta.
  assert (Hchat : chat client model prompt false sm w
                  = match log_message (message_dict (mkMessage USER prompt)) w
                    with
                    | (Ok _, w1) => (Raise AttributeError, w1)
                    | (Raise e, w1) => (Raise e, w1)
                    end).
  { unfold chat.
    erewrite bind_ok by (eapply load_chat_history_present; eassumption).
    change (create_message_dict USER prompt)
      with (Ok (message_dict (mkMessage USER prompt))).
    step_pure. unfold bind at 1.
    destruct (log_message _ w) as [[[]|e] w1]; [|reflexivity].
    destruct v; try discriminate Hv; reflexivity. }
  rewrite Hchat.
  pose proof (same_record_log_message (message_dict (mkMessage USER prompt)) w)
    as Hrec.
  pose proof (same_calls_log_message (message_dict (mkMessage USER prompt)) w)
    as Hcalls.
  unfold same_record in Hrec. unfold same_calls in Hcalls.
  split; [|split; [|split]].
  - destruct (log_message _ w) as [[[]|e] w1]; cbn [fst]; eauto.
  - destruct (log_message _ w) as [[[]|e] w1]; exact Hrec.
  - destruct (log_message _ w) as [[[]|e] w1]; exact Hcalls.
  - intros m _ Hp.
    assert (Hu : wf_message (mkMessage USER prompt))
      by (split; [apply text_USER | assumption]).
    destruct (message_entry_bytes Hu) as (bu & Ebu & Lbu & Eu).
    exists bu. split; [exact Ebu|]. split; [exact Lbu|].
    destruct (log_writable w) eqn:Hlw.
    + rewrite (log_message_ok _ _ Hlw Eu). rewrite Hlw. reflexivity.
    + rewrite (@log_message_unwritable
                 (message_dict (mkMessage USER prompt)) w Hlw).
      rewrite Hlw. reflexivity.
Qed.

End Properties.

(** * The statements at concrete inputs *)

#[local] Existing Instance demo_runtime.

Lemma create_message_dict_spec_witness :
  exists m, @create_message_dict demo_runtime USER [] = Ok m
            /\ field K_ROLE m = Some USER /\ field K_CONTENT m = Some [].
Proof.
  apply (proj1 (@create_message_dict_spec demo_runtime USER [])).
  right; left; reflexivity.
Defined.

Lemma extract_code_snippet_spec_witness :
  exists pre tag post,
    @first_fenced demo_runtime
      (str_of "a" ++ FENCE ++ str_of "x" ++ [c_nl] ++ str_of "M " ++ FENCE)
      pre tag (str_of "M ") post
    /\ @extract_code_snippet demo_runtime
         (str_of "a" ++ FENCE ++ str_of "x" ++ [c_nl] ++ str_of "M " ++ FENCE)
       = Ok (str_of "M").
Proof.
  destruct (@first_block_sound demo_runtime
              (str_of "a" ++ FENCE ++ str_of "x" ++ [c_nl] ++ str_of "M " ++ FENCE)
              (str_of "M ") eq_refl) as (pre & tag & post & Hff).
  exists pre, tag, post. split; [exact Hff|].
  exact (proj1 (@extract_code_snippet_spec demo_runtime _) _ _ _ _ Hff).
Defined.

Lemma load_chat_history_invalid_utf8_raises_witness :
  load_chat_history corrupt_store = (Raise UnicodeDecodeError, corrupt_store).
Proof.
  apply (@load_chat_history_invalid_utf8_raises demo_runtime). reflexivity.
Defined.

Lemma write_failure_is_not_fatal_witness :
  save_chat_history JNull readonly_store
  = (Ok tt, mkWorld None [] false false [EvPrint ErrSaveHistory])
  /\ log_message JNull readonly_store
     = (Ok tt, mkWorld None [] false false [EvPrint ErrLogMessage])
  /\ initialize_chat_history JNull readonly_store
     = (Ok tt, mkWorld None [] false false
                 [EvPrint ErrSaveHistory; EvPrint (HistoryInitialized 0)]).
Proof.
  destruct (@write_failure_is_not_fatal demo_runtime JNull JNull readonly_store)
    as (H1 & H2 & H3).
  split; [apply H1; reflexivity|].
  split; [apply H2; reflexivity|].
  apply H3; [reflexivity|].
  exists []. split; [reflexivity | constructor].
Defined.


Lemma save_surrogate_loses_snapshot_witness :
  exists w',
    save_chat_history (history_json [mkMessage USER [0xD800]]) dict_store
    = (Raise UnicodeEncodeError, w')
    /\ record_file w' = Some []
    /\ log_file w' = log_file dict_store
    /\ load_chat_history w'
       = (Ok (JArr []),
          mkWorld (Some []) [] true true [EvPrint WarnCorruptHistory]).
Proof.
  apply (@save_surrogate_loses_snapshot demo_runtime
           [mkMessage USER [0xD800]] (mkMessage USER [0xD800]) 0xD800 dict_store).
  - reflexivity.
  - left; reflexivity.
  - left; reflexivity.
  - reflexivity.
Defined.

Lemma reset_then_load_witness :
  exists w1,
    initialize_chat_history (history_json [mkMessage USER (str_of "hi")])
      empty_store = (Ok tt, w1)
    /\ load_chat_history w1
       = (Ok (history_json [mkMessage USER (str_of "hi")]), w1)
    /\ log_file w1 = log_file empty_store.
Proof.
  apply (proj2 (proj2 (@reset_then_load demo_runtime
                         [mkMessage USER (str_of "hi")] None empty_store))).
  - constructor; [|constructor].
    split; apply text_of_scalarb; reflexivity.
  - reflexivity.
Defined.

Lemma chat_sends_history_and_prompt_witness :
  In (EvLlmCall MODEL
        (JArr ([] ++ [message_dict (mkMessage USER (str_of "hi"))])))
     (trace (snd (chat failing_client MODEL (str_of "hi") true None
                    readonly_store))).
Proof.
  apply (@chat_sends_history_and_prompt demo_runtime failing_client MODEL
           (str_of "hi") true None readonly_store readonly_store []).
  - reflexivity.
  - apply text_of_scalarb; reflexivity.
Defined.

Lemma chat_turns_chain_witness :
  exists w1 w2,
    chat echo_client MODEL (str_of "one") false None empty_store
    = (Ok (message_dict (mkMessage USER (str_of "one")),
           message_dict (mkMessage ASSISTANT (str_of "ok"))), w1)
    /\ chat echo_client MODEL (str_of "two") false None w1
       = (Ok (message_dict (mkMessage USER (str_of "two")),
              message_dict (mkMessage ASSISTANT (str_of "ok"))), w2)
    /\ In (EvLlmCall MODEL
             (history_json
                (([] ++ [mkMessage USER (str_of "one");
                         mkMessage ASSISTANT (str_of "ok")])
                 ++ [mkMessage USER (str_of "two")])))
          (trace w2)
    /\ persisted w2
         (history_json
            (([] ++ [mkMessage USER (str_of "one");
                     mkMessage ASSISTANT (str_of "ok")])
             ++ [mkMessage USER (str_of "two");
                 mkMessage ASSISTANT (str_of "ok")])).
Proof.
  apply (@chat_turns_chain demo_runtime echo_client MODEL (str_of "one")
           (str_of "two") None None empty_store empty_store []).
  - reflexivity.
  - constructor.
  - apply text_of_scalarb; reflexivity.
  - apply text_of_scalarb; reflexivity.
  - reflexivity.
  - intros msgs s [= <-]. apply text_of_scalarb; reflexivity.
Defined.

Lemma log_entry_parses_log_does_not_witness :
  exists bm,
    utf8_encode (json_dumps 4 (message_dict (mkMessage USER (str_of "hi"))))
    = Ok bm
    /\ log_file (snd (log_message (message_dict (mkMessage USER (str_of "hi")))
                        empty_store))
       = log_file empty_store ++ bm ++ [c_comma; c_nl]
    /\ json_loads bm = Ok (message_dict (mkMessage USER (str_of "hi")))
    /\ (forall rest, exists e,
          json_loads ((bm ++ [c_comma; c_nl]) ++ rest) = Raise e)
    /\ (forall rest r, utf8_decode rest = Ok r ->
          json_loads ((bm ++ [c_comma; c_nl]) ++ rest) = Raise JSONDecodeError).
Proof.
  apply (@log_entry_parses_log_does_not demo_runtime
           (mkMessage USER (str_of "hi")) empty_store).
  - split; apply text_of_scalarb; reflexivity.
  - reflexivity.
Defined.

Lemma extract_code_snippet_total_witness :
  extract_code_snippet (str_of "ok") = Ok (str_of "ok").
Proof.
  apply (proj2 (@extract_code_snippet_total demo_runtime (str_of "ok"))).
  intros a b c H.
  destruct a as [|x [|y [|z a]]]; discriminate H.
Defined.

Lemma extract_code_snippet_clean_witness :
  (forall x y, str_of "M" <> x ++ FENCE ++ y)
  /\ (forall c t, str_of "M" = c :: t -> py_isspace c = false)
  /\ (forall t c, str_of "M" = t ++ [c] -> py_isspace c = false).
Proof.
  apply (@extract_code_snippet_clean demo_runtime
           (str_of "a" ++ FENCE ++ str_of "x" ++ [c_nl] ++ str_of "M " ++ FENCE)
           (str_of "M") (str_of "a") (str_of "x") (str_of "M ") []).
  - split; reflexivity.
  - reflexivity.
Defined.

Lemma extract_code_snippet_idempotent_witness :
  extract_code_snippet (str_of "M") = Ok (str_of "M").
Proof.
  apply (@extract_code_snippet_idempotent demo_runtime
           (str_of "a" ++ FENCE ++ str_of "x" ++ [c_nl] ++ str_of "M " ++ FENCE)
           (str_of "M")).
  reflexivity.
Defined.

Lemma modify_grammer_template_errors_witness :
  modify_grammer echo_client [] missing_template (str_of "M") (str_of "e")
    empty_store = (Raise IOError, empty_store)
  /\ modify_grammer echo_client [] null_template (str_of "M") (str_of "e")
       empty_store = (Raise TypeError, empty_store)
  /\ modify_grammer echo_client [] flat_template (str_of "M") (str_of "e")
       empty_store = (Raise TypeError, empty_store).
Proof.
  split; [|split].
  - apply (proj1 (@modify_grammer_template_errors demo_runtime echo_client []
                    missing_template (str_of "M") (str_of "e") empty_store)).
    reflexivity.
  - apply (proj1 (proj2 (@modify_grammer_template_errors demo_runtime
                           echo_client [] null_template (str_of "M")
                           (str_of "e") empty_store)) JNull).
    + reflexivity.
    + discriminate.
  - apply (proj2 (proj2 (@modify_grammer_template_errors demo_runtime
                           echo_client [] flat_template (str_of "M")
                           (str_of "e") empty_store))
             [(str_of "current_correction_context", JNull)] JNull).
    + reflexivity.
    + reflexivity.
    + discriminate.
Defined.

Lemma grammar_prompt_contents_witness :
  exists p f' g',
    grammar_prompt [] empty_template (str_of "M = (a -> M).") (str_of "line 4")
    = Ok p
    /\ p = json_dumps 2 (JObj f')
    /\ dict_get K_CONTEXT f' = Some (JObj g')
    /\ dict_get (str_of "compilation_error_message") g'
       = Some (JStr (str_of "line 4"))
    /\ dict_get (str_of "model_to_correct") g'
       = Some (JStr (str_of "M = (a -> M)."))
    /\ (forall k, k <> K_CONTEXT -> dict_get k f' = dict_get k [])
    /\ contains p (encode_basestring (str_of "line 4"))
    /\ contains p (encode_basestring (str_of "M = (a -> M).")).
Proof.
  apply (@grammar_prompt_contents demo_runtime [] empty_template
           (str_of "M = (a -> M).") (str_of "line 4") []).
  - reflexivity.
  - left; reflexivity.
Defined.

Lemma modify_grammer_suggestion_witness :
  exists p w' sug,
    grammar_prompt [] empty_template (str_of "M = (a -> M).") (str_of "line 4")
    = Ok p
    /\ modify_grammer failing_client [] empty_template
         (str_of "M = (a -> M).") (str_of "line 4") readonly_store
       = (Ok (message_dict (mkMessage USER p),
              message_dict (mkMessage ASSISTANT FALLBACK), sug), w')
    /\ extract_code_snippet FALLBACK = Ok sug
    /\ (forall e, failing_client MODEL
                    (history_json [mkMessage SYSTEM GRAMMAR_SYSTEM_MESSAGE;
                                   mkMessage USER p]) = Raise e ->
                  sug = FALLBACK).
Proof.
  destruct (grammar_prompt [] empty_template (str_of "M = (a -> M).")
              (str_of "line 4")) as [p|] eqn:E; [|discriminate E].
  exists p.
  destruct (@modify_grammer_suggestion demo_runtime failing_client []
              empty_template (str_of "M = (a -> M).") (str_of "line 4") p
              readonly_store E) as (w' & sug & H).
  - apply text_of_scalarb. injection E as <-. vm_compute. reflexivity.
  - intros s Hs. discriminate Hs.
  - exists w', sug. split; [reflexivity|]. exact H.
Defined.

Lemma chat_calls_model_once_witness :
  llm_calls (trace (snd (chat echo_client MODEL (str_of "hi") true None
                           empty_store)))
  = S (llm_calls (trace empty_store)).
Proof.
  apply (proj2 (@chat_calls_model_once demo_runtime echo_client MODEL
                  (str_of "hi") true None empty_store)
           (message_dict (mkMessage USER (str_of "hi")),
            message_dict (mkMessage ASSISTANT (str_of "ok")))).
  reflexivity.
Defined.

Lemma modify_spell_template_errors_witness :
  modify_spell echo_client [] missing_template (str_of "M") empty_store
  = (Raise IOError, empty_store)
  /\ modify_spell echo_client [] null_template (str_of "M") empty_store
     = (Raise AttributeError, empty_store).
Proof.
  split.
  - apply (proj1 (@modify_spell_template_errors demo_runtime echo_client []
                    missing_template (str_of "M") empty_store)).
    reflexivity.
  - apply (proj2 (@modify_spell_template_errors demo_runtime echo_client []
                    null_template (str_of "M") empty_store) JNull).
    + reflexivity.
    + discriminate.
    + discriminate.
Defined.

Lemma modify_spell_turn_witness :
  exists w' sug,
    modify_spell failing_client [] empty_template (str_of "M = (a -> M).")
      corrupt_store
    = (Ok (message_dict
             (mkMessage USER (json_dumps 2 (JObj []) ++ SPELL_HEADING
                              ++ str_of "M = (a -> M).")),
           message_dict (mkMessage ASSISTANT FALLBACK), sug), w')
    /\ extract_code_snippet FALLBACK = Ok sug
    /\ (forall e,
          failing_client MODEL
            (history_json
               [mkMessage SYSTEM SPELL_SYSTEM_MESSAGE;
                mkMessage USER (json_dumps 2 (JObj []) ++ SPELL_HEADING
                                ++ str_of "M = (a -> M).")])
          = Raise e -> sug = FALLBACK)
    /\ In (EvLlmCall MODEL
             (history_json
                [mkMessage SYSTEM SPELL_SYSTEM_MESSAGE;
                 mkMessage USER (json_dumps 2 (JObj []) ++ SPELL_HEADING
                                 ++ str_of "M = (a -> M).")]))
          (trace w')
    /\ (record_writable corrupt_store = true ->
        persisted w'
          (history_json
             [mkMessage SYSTEM SPELL_SYSTEM_MESSAGE;
              mkMessage USER (json_dumps 2 (JObj []) ++ SPELL_HEADING
                              ++ str_of "M = (a -> M).");
              mkMessage ASSISTANT FALLBACK])).
Proof.
  apply (@modify_spell_turn demo_runtime failing_client [] empty_template
           (str_of "M = (a -> M).") (JObj []) corrupt_store).
  - reflexivity.
  - left. exists []. reflexivity.
  - apply text_of_scalarb; reflexivity.
  - apply text_of_scalarb; reflexivity.
  - intros s Hs. discriminate Hs.
Defined.

Lemma byte_order_mark_splits_the_readers_witness :
  load_chat_history bom_store = (Ok (JObj []), bom_store)
  /\ json_reader bom_disk (str_of "template.json") = Raise JSONDecodeError
  /\ modify_grammer echo_client [] (json_reader bom_disk) (str_of "M")
       (str_of "e") bom_store = (Raise JSONDecodeError, bom_store)
  /\ modify_spell echo_client [] (json_reader bom_disk) (str_of "M") bom_store
     = (Raise JSONDecodeError, bom_store).
Proof.
  destruct (@byte_order_mark_splits_the_readers demo_runtime echo_client []
              bom_disk (str_of "template.json") [123; 125] (str_of "{}")
              (JObj []) (str_of "M") (str_of "e") bom_store
              eq_refl eq_refl) as (H1 & H2 & H3 & H4).
  split; [apply H1; reflexivity|].
  split; [apply H2; reflexivity|].
  split; [apply H3; reflexivity | apply H4; reflexivity].
Defined.

Lemma workflow_always_ends_witness :
  fst (workflow echo_client [] utf8_decode 9 demo_session) <> Halt OutOfFuel
  /\ workflow echo_client [] utf8_decode 9 demo_session
     = workflow echo_client [] utf8_decode (S (length (pending demo_session)))
         demo_session.
Proof.
  apply (@workflow_always_ends demo_runtime echo_client [] utf8_decode 9
           demo_session).
  cbn. lia.
Defined.

Lemma workflow_calls_bound_witness :
  (S (llm_calls (trace (store demo_session)))
   <= llm_calls (trace (store (snd (workflow echo_client [] utf8_decode 9
                                      demo_session)))))%nat.
Proof.
  apply (proj2 (proj2 (@workflow_calls_bound demo_runtime echo_client []
                         utf8_decode 9 demo_session)) (str_of "{}")).
  vm_compute. reflexivity.
Defined.

Lemma workflow_final_model_is_the_file_witness :
  (exists used a rest,
     pending demo_session = used ++ a :: rest
     /\ upper_is_Y (typed a) = true
     /\ txt_reader (disk_then a) utf8_decode (current_model_path [])
        = Ok (str_of "{}"))
  /\ ~ In c_cr (str_of "{}")
  /\ exists c,
       console (snd (workflow echo_client [] utf8_decode 9 demo_session))
       = c ++ [FinalModelBanner; ShowFinal (str_of "{}")].
Proof.
  apply (@workflow_final_model_is_the_file demo_runtime echo_client []
           utf8_decode 9 demo_session).
  vm_compute. reflexivity.
Defined.

Lemma workflow_ignores_the_replies_witness :
  str_of "{}" = str_of "{}"
  /\ pending (snd (workflow echo_client [] utf8_decode 9 demo_session))
     = pending (snd (workflow failing_client [] utf8_decode 9
                       demo_session_corrupt))
  /\ disk (snd (workflow echo_client [] utf8_decode 9 demo_session))
     = disk (snd (workflow failing_client [] utf8_decode 9
                    demo_session_corrupt)).
Proof.
  apply (@workflow_ignores_the_replies demo_runtime echo_client
           failing_client [] utf8_decode 9 demo_session demo_session_corrupt).
  - reflexivity.
  - reflexivity.
  - vm_compute. reflexivity.
  - vm_compute. reflexivity.
Defined.















Lemma chat_snapshot_not_a_list_witness :
  exists bu,
    json_loads bu = Ok (message_dict (mkMessage USER (str_of "hi")))
    /\ chat echo_client MODEL (str_of "hi") false None message_store
       = (Raise AttributeError,
          mkWorld (Some message_snapshot) ([] ++ bu ++ [c_comma; c_nl])
            true true ([] ++ [EvLogAppend (bu ++ [c_comma; c_nl])])).
Proof.
  destruct (proj2 (proj2 (proj2
              (@chat_snapshot_not_a_list demo_runtime echo_client MODEL
                 (str_of "hi") None message_store message_snapshot
                 (message_dict (mkMessage ASSISTANT (str_of "copied")))
                 eq_refl eq_refl eq_refl)))
              (mkMessage ASSISTANT (str_of "copied")) eq_refl)
    as (bu & _ & Lu & Hrun).
  - apply text_of_scalarb; reflexivity.
  - exists bu. split; [exact Lu | exact Hrun].
Defined.

(** The end-to-end scenario of the spec: from an empty store, a fresh turn
    with a system message and a capability that answers with one fenced
    block persists three Messages, and the suggestion is the interior. *)
Example end_to_end_scenario :
  let run := chat fenced_reply_client MODEL
               (str_of "fix spelling in: teh model") true
               (Some (str_of "You are a checker")) empty_store in
  let reply := FENCE ++ str_of "plaintext" ++ [c_nl]
               ++ str_of "corrected model" ++ [c_nl] ++ FENCE in
  fst run = Ok (message_dict (mkMessage USER (str_of "fix spelling in: teh model")),
                message_dict (mkMessage ASSISTANT reply))
  /\ persisted (snd run)
       (history_json
          [mkMessage SYSTEM (str_of "You are a checker");
           mkMessage USER (str_of "fix spelling in: teh model");
           mkMessage ASSISTANT reply])
  /\ extract_code_snippet reply = Ok (str_of "corrected model").
Proof. vm_compute. repeat split; reflexivity. Qed.

Example json_dumps_zero : json_dumps 4 (JArr [JInt 0; JInt (-12); JNull])
  = str_of "[" ++ [c_nl] ++ str_of "    0," ++ [c_nl] ++ str_of "    -12,"
    ++ [c_nl] ++ str_of "    null" ++ [c_nl] ++ str_of "]".
Proof. reflexivity. Qed.

Example json_loads_trailing_comma :
  json_loads (str_of "[1,]") = Raise JSONDecodeError.
Proof. reflexivity. Qed.

Example json_loads_duplicate_key :
  json_loads (str_of "{" ++ [c_quote] ++ str_of "a" ++ [c_quote] ++ str_of ":1,"
              ++ [c_quote] ++ str_of "a" ++ [c_quote] ++ str_of ":2}")
  = Ok (JObj [(str_of "a", JInt 2)]).
Proof. reflexivity. Qed.
